(** * Blog migration tool: a shallow embedding of the orchestrator and its stages

    The development follows the Python sources module by module:
    [db_handler.py] (the dedup ledger, an SQLite table), [temp_storage.py]
    (the per-run cache), [download.py] (the media pipeline), [uploader.py]
    (the publisher), [formatter.py] (the transform stage) and [main.py]
    (the orchestrator and its one-shot recovery).

    Python code is effectful and may raise.  Every function of the program
    is therefore a computation in the monad [M]: it takes the state of the
    world, returns a value or a raised exception, and the world it leaves
    behind.  A raised exception keeps the effects performed before it, as in
    Python.

    What the program cannot decide by itself (what the browser renders, what
    the remote API answers, what the random generator draws) is read from an
    environment [Env], indexed by a clock that advances at every such query,
    so that two calls with the same arguments may be answered differently.
    Calls to [logging] are not part of the model. *)

From Stdlib Require Import ZArith NArith List Bool String Ascii Lia Sorted.
Import ListNotations.

Set Warnings "-register-all".

(** ** Python strings *)

(** A Python [str] is a sequence of Unicode code points. *)
Definition codepoint := N.
Bind Scope N_scope with codepoint.
Definition pystr := list codepoint.

(** String literals of the sources, written as Rocq strings. *)
Definition str (s : string) : pystr :=
  map N_of_ascii (list_ascii_of_string s).

(** The double quote character, for literals that contain it. *)
Definition dquote : pystr := [34%N].

Fixpoint pystr_eqb (a b : pystr) : bool :=
  match a, b with
  | [], [] => true
  | x :: a', y :: b' => N.eqb x y && pystr_eqb a' b'
  | _, _ => false
  end.

Definition is_ascii (c : codepoint) : bool := N.ltb c 128.

(** [s.startswith(prefix)] *)
Fixpoint startswith (s prefix : pystr) : bool :=
  match prefix, s with
  | [], _ => true
  | p :: prefix', c :: s' => N.eqb c p && startswith s' prefix'
  | _ :: _, [] => false
  end.

(** [s.replace(" ", "_")], the only use of [replace] on a single character. *)
Definition replace_char (old new : codepoint) (s : pystr) : pystr :=
  map (fun c => if N.eqb c old then new else c) s.

(** ** The Unicode database *)

(** The program calls into Python's Unicode tables in three places:
    [unicodedata.normalize("NFKD", _)], and the regular-expression classes
    [\d] and [\s] that [datetime.strptime] builds its pattern from.  The
    tables themselves are not part of the program. *)
Class UnicodeData := {
  normalize_NFKD : pystr -> pystr;
  (** the value of a code point matched by [\d] *)
  decimal_value : codepoint -> option Z;
  (** whether a code point is matched by [\s] *)
  is_whitespace : codepoint -> bool
}.

(** Two facts of the tables that some statements assume.  Normalization
    leaves an ASCII string as it is: *)
Definition NFKD_fixes_ascii {U : UnicodeData} : Prop :=
  forall s, forallb is_ascii s = true -> normalize_NFKD s = s.

(** and the ASCII digits are digits, with their value, and not white space,
    while the space is white space. *)
Definition ascii_date_characters {U : UnicodeData} : Prop :=
  (forall c, (48 <= c <= 57)%N ->
             decimal_value c = Some (Z.of_N c - 48)%Z
             /\ is_whitespace c = false)
  /\ is_whitespace 32%N = true.

(** ** Exceptions and the monad of effects *)

Inductive exn :=
| WebDriverException
| ValueError (msg : pystr)
| KeyError (key : pystr)
| TypeError
| FileNotFoundError
| IsADirectoryError
| NotADirectoryError
| FileExistsError
| OperationalError
| IntegrityError
| RequestException
| UpgradeError.

Inductive result (A : Type) :=
| Ok (a : A)
| Raised (e : exn).
Arguments Ok {A} a.
Arguments Raised {A} e.

(** ** The state of the world *)

(** [migrated_posts.db]: table [posts] with columns [id INTEGER PRIMARY KEY
    AUTOINCREMENT], [url TEXT UNIQUE], [featured_image BOOL] and
    [wp_post_id INTEGER]. *)
Record Row := {
  row_id : Z;
  row_url : pystr;
  row_featured_image : option bool;
  row_wp_post_id : option Z
}.

(** The table together with its line in [sqlite_sequence], which SQLite keeps
    for an AUTOINCREMENT table: the largest rowid handed out so far.  The
    line is absent until the first insertion. *)
Record posts_table := {
  rows : list Row;
  sqlite_sequence : option Z
}.

(** [temp.db]: table [posts (title, url UNIQUE, content_html)]. *)
Record temp_row := {
  temp_title : pystr;
  temp_url : pystr;
  temp_content_html : pystr
}.

(** The summary of a post found on the home page. *)
Record PostRef := {
  ref_title : pystr;
  ref_url : pystr;
  ref_featured_image : option pystr
}.

(** The dictionary returned by [scrape_post_content]. *)
Record FullPost := {
  post_url : pystr;
  post_title : pystr;
  post_content_html : pystr;
  post_date : pystr;
  post_images : list pystr
}.

(** The payload built by [format_post_content]. *)
Record Payload := {
  payload_date : pystr;
  payload_title : pystr;
  payload_content : pystr;
  payload_featured_media : option Z
}.

(** The JSON body that [upload_post] sends. *)
Record PostRequest := {
  req_date : pystr;
  req_title : pystr;
  req_content : pystr;
  req_author : Z;
  req_categories : list Z;
  req_status : pystr;
  req_featured_media : option Z
}.

(** What the program does, in the order it does it.  [RunStarted],
    [Extract], [Cache], [Transform], [Publish] and [Record_] are recorded by
    the orchestrator in [main.py]: at the start of a run, and around its
    calls to the stages, for the url of the post it is working on
    ([Publish] once [upload_post] has returned, with what it returned).
    The others are recorded by the stage that acts on the outside.  The
    history is the means of the statements; the program does not read
    it. *)
Inductive event :=
| RunStarted
| Discover
| Extract (url : pystr)
| Cache (url : pystr)
| Transform (url : pystr)
| Publish (url : pystr) (ok : bool)
| Record_ (url : pystr)
| UpgradeRenderer
| HttpGetImage (url : pystr)
| HttpPostMedia (content_disposition : pystr) (data : list N)
| HttpPostPost (body : PostRequest).

Record World := {
  clock : nat;
  (** [None]: the table [posts] of [migrated_posts.db] does not exist *)
  migrated_posts_db : option posts_table;
  (** [None]: the file [temp.db] does not exist *)
  temp_db : option (list temp_row);
  (** regular files, by path *)
  files : list (pystr * list N);
  history : list event
}.

Definition set_clock (c : nat) (w : World) : World :=
  {| clock := c; migrated_posts_db := migrated_posts_db w;
     temp_db := temp_db w; files := files w; history := history w |}.

Definition set_migrated_posts_db (d : option posts_table) (w : World) : World :=
  {| clock := clock w; migrated_posts_db := d;
     temp_db := temp_db w; files := files w; history := history w |}.

Definition set_temp_db (d : option (list temp_row)) (w : World) : World :=
  {| clock := clock w; migrated_posts_db := migrated_posts_db w;
     temp_db := d; files := files w; history := history w |}.

Definition set_files (f : list (pystr * list N)) (w : World) : World :=
  {| clock := clock w; migrated_posts_db := migrated_posts_db w;
     temp_db := temp_db w; files := f; history := history w |}.

Definition set_history (h : list event) (w : World) : World :=
  {| clock := clock w; migrated_posts_db := migrated_posts_db w;
     temp_db := temp_db w; files := files w; history := h |}.

Definition M (A : Type) : Type := World -> result A * World.

Definition ret {A} (a : A) : M A := fun w => (Ok a, w).

Definition raise {A} (e : exn) : M A := fun w => (Raised e, w).

(** A computation without effects: its value, or the exception it raises. *)
Definition lift {A} (r : result A) : M A := fun w => (r, w).

Definition bind {A B} (m : M A) (k : A -> M B) : M B :=
  fun w =>
    match m w with
    | (Ok a, w') => k a w'
    | (Raised e, w') => (Raised e, w')
    end.

(** [try: body except E: handler]: [handler e] is [None] when the clause
    does not catch [e]. *)
Definition try_except {A} (body : M A) (handler : exn -> option (M A)) : M A :=
  fun w =>
    match body w with
    | (Ok a, w') => (Ok a, w')
    | (Raised e, w') =>
        match handler e with
        | Some h => h w'
        | None => (Raised e, w')
        end
    end.

Declare Scope py_scope.
Delimit Scope py_scope with py.
Notation "x <- m ;; k" := (bind m (fun x => k))
  (at level 100, m at next level, right associativity) : py_scope.
Notation "m ;; k" := (bind m (fun _ => k))
  (at level 100, right associativity) : py_scope.
Open Scope py_scope.

Definition get_world : M World := fun w => (Ok w, w).

Definition modify (f : World -> World) : M unit := fun w => (Ok tt, f w).

(** Appends an event to the history. *)
Definition emit (e : event) : M unit :=
  modify (fun w => set_history (history w ++ [e]) w).

(** Reads the clock and advances it: the index of the next answer of the
    environment. *)
Definition tick : M nat :=
  fun w => (Ok (clock w), set_clock (S (clock w)) w).

(** [for x in xs: body(x)] *)
Fixpoint for_each {A} (xs : list A) (body : A -> M unit) : M unit :=
  match xs with
  | [] => ret tt
  | x :: xs' => body x ;; for_each xs' body
  end.

(** ** The environment *)

(** What a call into the browser driver can do: give the page; fail at
    the level of the driver process while the driver is started or the page
    is loaded, which the scrapers do outside their [try] blocks; or fail
    inside the [try] block of the scraper, which catches every exception. *)
Inductive driver_outcome (A : Type) :=
| Rendered (a : A)
| DriverFailed
| DriverFailedInTry.
Arguments Rendered {A} a.
Arguments DriverFailed {A}.
Arguments DriverFailedInTry {A}.

(** What [requests.post] can do: answer with a status code and, in the JSON
    body, possibly an [id]; or raise. *)
Inductive http_outcome :=
| Response (status_code : Z) (json_id : option Z)
| ConnectionFailed.

(** What downloading, decoding, resizing and saving the featured image, and
    then running the external optimizer, can do. *)
Inductive image_outcome :=
| ImageFailed
| ImageBadStatus
| ImageSaved (jpeg : list N) (optimizer_ran : bool).

Record Env := {
  (** the posts that [scrape_homepage] reads from the rendered home page *)
  homepage_at : nat -> driver_outcome (list PostRef);
  (** title, date, content and images that [scrape_post_content] reads;
      [None] when a locator fails *)
  post_page_at : nat -> pystr -> driver_outcome (option (pystr * pystr * pystr * list pystr));
  image_at : nat -> pystr -> image_outcome;
  media_response_at : nat -> http_outcome;
  post_response_at : nat -> http_outcome;
  (** the raw draw behind [random.randint] *)
  random_at : nat -> Z;
  (** [None]: the driver upgrade went through *)
  upgrade_at : nat -> option exn
}.

(** ** The parsed document *)

(** A node of the tree that [BeautifulSoup(_, "html.parser")] builds.  The
    parser gives the [class] attribute as a list of strings and the other
    attributes the program reads as strings; [attrs] holds the latter, in
    the order of the dictionary. *)
Inductive node :=
| NavigableString (text : pystr)
| Tag (name : pystr) (class_ : option (list pystr))
      (attrs : list (pystr * pystr)) (contents : list node).

(** The parser and the printer ([str(soup)]) belong to the library. *)
Class HtmlLibrary := {
  BeautifulSoup : pystr -> list node;
  soup_to_str : list node -> pystr
}.

(** [tag[key]]: the value, or [KeyError]. *)
Fixpoint getitem (attrs : list (pystr * pystr)) (key : pystr) : result pystr :=
  match attrs with
  | [] => Raised (KeyError key)
  | (k, v) :: attrs' => if pystr_eqb k key then Ok v else getitem attrs' key
  end.

(** The attributes of the tags called [name] below a node, the node
    included, in document order. *)
Fixpoint find_all_node (name : pystr) (n : node)
  : list (option (list pystr) * list (pystr * pystr)) :=
  match n with
  | NavigableString _ => []
  | Tag nm cls attrs contents =>
      (if pystr_eqb nm name then [(cls, attrs)] else [])
      ++ flat_map (find_all_node name) contents
  end.

(** [soup.find_all(name)] *)
Definition find_all (name : pystr) (soup : list node)
  : list (option (list pystr) * list (pystr * pystr)) :=
  flat_map (find_all_node name) soup.

(** ** db_handler.py *)

(** [CREATE TABLE IF NOT EXISTS posts (...)] *)
Definition initialize_db : M unit :=
  modify (fun w =>
    match migrated_posts_db w with
    | Some _ => w
    | None =>
        set_migrated_posts_db (Some {| rows := []; sqlite_sequence := None |}) w
    end).

Definition url_in (url : pystr) (rs : list Row) : bool :=
  existsb (fun r => pystr_eqb (row_url r) url) rs.

(** [SELECT 1 FROM posts WHERE url = ?], then [fetchone() is not None].
    Without the table the statement raises. *)
Definition is_post_migrated (url : pystr) : M bool :=
  w <- get_world ;;
  match migrated_posts_db w with
  | None => raise OperationalError
  | Some t => ret (url_in url (rows t))
  end.

Definition max_rowid (rs : list Row) : Z :=
  fold_right (fun r m => Z.max (row_id r) m) 0%Z rs.

(** The rowid SQLite generates for an AUTOINCREMENT table: one more than the
    largest rowid in the table and the value kept in [sqlite_sequence].
    (The exhaustion of 64-bit rowids is not modelled.) *)
Definition new_rowid (t : posts_table) : Z :=
  (Z.max (max_rowid (rows t))
         (match sqlite_sequence t with Some s => s | None => 0 end) + 1)%Z.

(** [INSERT OR IGNORE INTO posts (url) VALUES (?)].  The rowid is generated
    before the UNIQUE constraint on [url] is checked, and [sqlite_sequence]
    keeps it whether or not the row is then ignored. *)
Definition insert_or_ignore (url : pystr) (t : posts_table) : posts_table :=
  let id := new_rowid t in
  if url_in url (rows t)
  then {| rows := rows t; sqlite_sequence := Some id |}
  else {| rows := rows t ++ [{| row_id := id; row_url := url;
                                row_featured_image := None;
                                row_wp_post_id := None |}];
          sqlite_sequence := Some id |}.

Definition mark_post_as_migrated (url : pystr) : M unit :=
  w <- get_world ;;
  match migrated_posts_db w with
  | None => raise OperationalError
  | Some t => modify (set_migrated_posts_db (Some (insert_or_ignore url t)))
  end.

(** [DELETE FROM posts], then [DELETE FROM sqlite_sequence WHERE
    name='posts']. *)
Definition delete_migrated_posts : M unit :=
  w <- get_world ;;
  match migrated_posts_db w with
  | None => raise OperationalError
  | Some _ =>
      modify (set_migrated_posts_db (Some {| rows := []; sqlite_sequence := None |}))
  end.

(** ** temp_storage.py *)

(** [TempStorage()]: connecting creates [temp.db] when it is missing;
    [CREATE TABLE IF NOT EXISTS posts (...)]. *)
Definition TempStorage : M unit :=
  modify (fun w =>
    match temp_db w with
    | Some _ => w
    | None => set_temp_db (Some []) w
    end).

(** [INSERT INTO posts (title, url, content_html) VALUES (?, ?, ?)] *)
Definition temp_insert (post : FullPost) : M unit :=
  w <- get_world ;;
  match temp_db w with
  | None => raise OperationalError
  | Some rs =>
      if existsb (fun r => pystr_eqb (temp_url r) (post_url post)) rs
      then raise IntegrityError
      else modify (set_temp_db (Some (rs ++ [{| temp_title := post_title post;
                                                temp_url := post_url post;
                                                temp_content_html := post_content_html post |}])))
  end.

Definition save_post (post : FullPost) : M unit :=
  try_except (temp_insert post)
    (fun e => match e with IntegrityError => Some (ret tt) | _ => None end).

Definition close : M unit := ret tt.

(** [os.path.exists("temp.db")] and [os.remove("temp.db")] *)
Definition temp_db_exists : M bool :=
  w <- get_world ;;
  ret (match temp_db w with Some _ => true | None => false end).

Definition remove_temp_db : M unit := modify (set_temp_db None).

(** ** The files of the working directory *)

Fixpoint read_file (fs : list (pystr * list N)) (path : pystr) : option (list N) :=
  match fs with
  | [] => None
  | (p, data) :: fs' => if pystr_eqb p path then Some data else read_file fs' path
  end.

(** The world holds the regular files, each under its path as written; a
    directory is there when a file lies below it. *)
Definition is_directory (fs : list (pystr * list N)) (path : pystr) : bool :=
  existsb (fun f => startswith (fst f) (path ++ str "/")) fs.

(** [open(path, 'rb').read()].  [None] is not a path; the empty path names
    no file; a directory cannot be opened. *)
Definition open_rb (path : option pystr) : M (list N) :=
  match path with
  | None => raise TypeError
  | Some [] => raise FileNotFoundError
  | Some p =>
      w <- get_world ;;
      match read_file (files w) p with
      | Some data => ret data
      | None =>
          if is_directory (files w) p then raise IsADirectoryError
          else raise FileNotFoundError
      end
  end.

Definition write_file (path : pystr) (data : list N) : M unit :=
  modify (fun w =>
    set_files ((path, data)
               :: filter (fun f => negb (pystr_eqb (fst f) path)) (files w)) w).

(** [os.path.basename]: what follows the last slash. *)
Fixpoint basename_from (current : pystr) (s : pystr) : pystr :=
  match s with
  | [] => current
  | c :: s' =>
      if N.eqb c 47 then basename_from s' s' else basename_from current s'
  end.

Definition basename (path : pystr) : pystr := basename_from path path.

Section Program.

Context {U : UnicodeData} {H : HtmlLibrary} (E : Env).

(** ** scraper.py *)

(** The two scrapers drive the browser.  Which elements their locators
    find in the rendered page, and hence what they return, is the
    environment's: the list of posts for [scrape_homepage] (empty when the
    container is not found; a post of the grid that cannot be read is left
    out), the dictionary or [None] (when a locator fails inside the [try]
    block) for [scrape_post_content].  A failure of the driver outside
    their [try] blocks, when it is started or loads the page, leaves them
    as a [WebDriverException].  A failure of the driver inside the [try]
    block is caught by its [except Exception]: [scrape_homepage], whose
    list is still empty before the loop over the grid, returns it, and
    [scrape_post_content] returns [None]. *)
Definition scrape_homepage : M (list PostRef) :=
  emit Discover ;;
  t <- tick ;;
  match homepage_at E t with
  | Rendered posts => ret posts
  | DriverFailed => raise WebDriverException
  | DriverFailedInTry => ret []
  end.

Definition scrape_post_content (url : pystr) : M (option FullPost) :=
  t <- tick ;;
  match post_page_at E t url with
  | Rendered (Some (title, date, content_html, images)) =>
      ret (Some {| post_url := url; post_title := title;
                   post_content_html := content_html;
                   post_date := date; post_images := images |})
  | Rendered None => ret None
  | DriverFailed => raise WebDriverException
  | DriverFailedInTry => ret None
  end.

(** ** update_chromedriver.py *)

Definition run_update_chromedriver : M unit :=
  emit UpgradeRenderer ;;
  t <- tick ;;
  match upgrade_at E t with
  | None => ret tt
  | Some e => raise e
  end.

(** ** download.py *)

(** [re.match(r'^https?://', url) is not None] *)
Definition is_valid_url (url : pystr) : bool :=
  startswith url (str "http://") || startswith url (str "https://").

Definition clean_and_validate_url (url : pystr) : M pystr :=
  let url := if startswith url (str "//") then str "https:" ++ url else url in
  if negb (is_valid_url url)
  then raise (ValueError (str "Invalid URL format: " ++ url))
  else ret url.

(** [shutil.rmtree(directory)] when it exists, then [os.makedirs].  For a
    regular file [os.path.exists] answers [True] and [shutil.rmtree]
    raises. *)
Definition reset_directory (directory : pystr) : M unit :=
  w <- get_world ;;
  match read_file (files w) directory with
  | Some _ => raise NotADirectoryError
  | None =>
      modify (fun w =>
        set_files (filter (fun f => negb (startswith (fst f) (directory ++ str "/")))
                          (files w)) w)
  end.

(** Every exception raised in the body is caught and turns into [None]:
    an invalid URL, a failed download or decoding, and also a failure to
    start the optimizer once the file has been written. *)
Definition adjust_featured_media (featured_media_url post_title : pystr)
  : M (option pystr) :=
  try_except
    (featured_media_url <- clean_and_validate_url featured_media_url ;;
     emit (HttpGetImage featured_media_url) ;;
     t <- tick ;;
     match image_at E t featured_media_url with
     | ImageFailed => raise RequestException
     | ImageBadStatus => ret None
     | ImageSaved jpeg optimizer_ran =>
         let title := replace_char 32%N 95%N (post_title ++ str "_featured_media") in
         let image_path := str "images/" ++ title ++ str ".jpg" in
         write_file image_path jpeg ;;
         if optimizer_ran then ret (Some image_path)
         else raise FileNotFoundError
     end)
    (fun _ => Some (ret None)).

(** The dictionary returned by [process_image_links]. *)
Record image_paths := {
  featured_media : option pystr;
  content_images : option (list pystr)
}.

Definition process_image_links (img_list : list pystr) (post_title : pystr)
  : M image_paths :=
  match img_list with
  | [] => ret {| featured_media := Some []; content_images := Some [] |}
  | featured_media_url :: _ =>
      reset_directory (str "images") ;;
      featured_media_path <- adjust_featured_media featured_media_url post_title ;;
      ret {| featured_media := featured_media_path; content_images := None |}
  end.

(** ** uploader.py *)

(** [unicodedata.normalize("NFKD", name)], then
    [.encode("ascii", "ignore").decode("ascii")]: the code points that
    ASCII cannot encode are dropped. *)
Definition safe_filename (name : pystr) : pystr :=
  let name := normalize_NFKD name in
  filter is_ascii name.

Definition content_disposition (filename : pystr) : pystr :=
  str "attachment; filename=" ++ filename.

Definition upload_featured_image (image_path : option pystr) : M (option Z) :=
  opened <- try_except (image_data <- open_rb image_path ;; ret (Some image_data))
              (fun e => match e with
                        | FileNotFoundError => Some (ret None)
                        | _ => None
                        end) ;;
  match opened, image_path with
  | Some image_data, Some path =>
      let filename := basename path in
      let filename := safe_filename filename in
      emit (HttpPostMedia (content_disposition filename) image_data) ;;
      t <- tick ;;
      match media_response_at E t with
      | ConnectionFailed => raise RequestException
      | Response status_code json_id =>
          if Z.eqb status_code 201 then ret json_id else ret None
      end
  | _, _ => ret None
  end.

Definition upload_post (post_data : Payload) : M bool :=
  let post_payload :=
    {| req_date := payload_date post_data;
       req_title := payload_title post_data;
       req_content := payload_content post_data;
       req_author := 2%Z;
       req_categories := [29%Z];
       req_status := str "publish";
       req_featured_media := payload_featured_media post_data |} in
  emit (HttpPostPost post_payload) ;;
  t <- tick ;;
  match post_response_at E t with
  | ConnectionFailed => raise RequestException
  | Response status_code _ => ret (Z.eqb status_code 201)
  end.

(** ** formatter.py *)

(** [random.randint(a, b)]: an integer between [a] and [b], both included. *)
Definition randint (a b : Z) : M Z :=
  t <- tick ;;
  ret (a + (random_at E t) mod (b - a + 1))%Z.

Record datetime := {
  year : Z; month : Z; day : Z;
  hour : Z; minute : Z; second : Z
}.

(** *** [datetime.strptime(_, "%B %d, %Y")]

    The library turns the format into the regular expression
    [(?P<B>january|...|december)\s+(?P<d>3[0-1]|[1-2]\d|0[1-9]|[1-9]| [1-9]),\s+(?P<Y>\d\d\d\d)]
    matched without regard to case at the start of the string, and rejects
    a match that leaves characters unread. *)

Definition month_names : list pystr :=
  [str "january"; str "february"; str "march"; str "april"; str "may";
   str "june"; str "july"; str "august"; str "september"; str "october";
   str "november"; str "december"].

Definition ascii_lower (c : codepoint) : codepoint :=
  if N.leb 65 c && N.leb c 90 then (c + 32)%N else c.

(** Reads [name] at the start of [s], whatever the case of the letters of
    [s].  (A code point outside ASCII that the regular expression would
    accept for a letter is refused afterwards, when the month is looked up
    by its lowercased name, with the same [ValueError].) *)
Fixpoint read_name (name s : pystr) : option pystr :=
  match name, s with
  | [], _ => Some s
  | n :: name', c :: s' =>
      if N.eqb (ascii_lower c) n then read_name name' s' else None
  | _ :: _, [] => None
  end.

(** The month read at the start of [s], numbered from [k] on. *)
Fixpoint read_month (names : list pystr) (k : Z) (s : pystr) : option (Z * pystr) :=
  match names with
  | [] => None
  | name :: names' =>
      match read_name name s with
      | Some rest => Some (k, rest)
      | None => read_month names' (k + 1)%Z s
      end
  end.

Fixpoint skip_whitespace (s : pystr) : pystr :=
  match s with
  | c :: s' => if is_whitespace c then skip_whitespace s' else s
  | [] => []
  end.

(** [\s+]: at least one, and then every, white space character. *)
Definition read_whitespace (s : pystr) : option pystr :=
  match s with
  | c :: s' => if is_whitespace c then Some (skip_whitespace s') else None
  | [] => None
  end.

Definition in_range (lo hi c : codepoint) : bool :=
  N.leb lo c && N.leb c hi.

Definition digit_of (c : codepoint) : Z := (Z.of_N c - 48)%Z.

(** The ways [(?P<d>...)] can read a day at the start of [s], in the order
    of the alternatives.  The last alternative, a space and a digit, reads
    nothing that [\s+] followed by [[1-9]] does not. *)
Definition read_day (s : pystr) : list (Z * pystr) :=
  (match s with
   | t :: c :: rest =>
       if N.eqb t 51 && in_range 48 49 c
       then [((30 + digit_of c)%Z, rest)] else []
   | _ => []
   end) ++
  (match s with
   | c :: d :: rest =>
       if in_range 49 50 c
       then match decimal_value d with
            | Some v => [((10 * digit_of c + v)%Z, rest)]
            | None => []
            end
       else []
   | _ => []
   end) ++
  (match s with
   | z :: c :: rest =>
       if N.eqb z 48 && in_range 49 57 c then [(digit_of c, rest)] else []
   | _ => []
   end) ++
  (match s with
   | c :: rest => if in_range 49 57 c then [(digit_of c, rest)] else []
   | _ => []
   end).

(** [,\s+(?P<Y>\d\d\d\d)]: the year, and what is left unread. *)
Definition read_year (s : pystr) : option (Z * pystr) :=
  match s with
  | comma :: s' =>
      if N.eqb comma 44 then
        match read_whitespace s' with
        | Some (a :: b :: c :: d :: unread) =>
            match decimal_value a, decimal_value b, decimal_value c, decimal_value d with
            | Some a, Some b, Some c, Some d =>
                Some ((1000 * a + 100 * b + 10 * c + d)%Z, unread)
            | _, _, _, _ => None
            end
        | _ => None
        end
      else None
  | [] => None
  end.

(** The first way of reading the day after which the year can be read. *)
Fixpoint first_match (days : list (Z * pystr)) : option (Z * Z * pystr) :=
  match days with
  | [] => None
  | (d, rest) :: days' =>
      match read_year rest with
      | Some (y, unread) => Some (d, y, unread)
      | None => first_match days'
      end
  end.

Definition is_leap (y : Z) : bool :=
  (Z.eqb (y mod 4) 0 && (negb (Z.eqb (y mod 100) 0) || Z.eqb (y mod 400) 0))%Z.

Definition days_in_month (y m : Z) : Z :=
  if Z.eqb m 2 then (if is_leap y then 29 else 28)%Z
  else if Z.eqb m 4 || Z.eqb m 6 || Z.eqb m 9 || Z.eqb m 11 then 30%Z
  else 31%Z.

(** A match that leaves characters unread is refused.  The date is then
    built, which refuses the year 0 and a day the month does not have.
    (The messages of the library quote the string; [format_post_date]
    replaces them by its own.) *)
Definition strptime (date_str : pystr) : result datetime :=
  match read_month month_names 1 date_str with
  | None => Raised (ValueError (str "time data does not match format"))
  | Some (m, rest) =>
      match read_whitespace rest with
      | None => Raised (ValueError (str "time data does not match format"))
      | Some rest =>
          match first_match (read_day rest) with
          | None => Raised (ValueError (str "time data does not match format"))
          | Some (d, y, []) =>
              if (Z.leb 1 y && Z.leb d (days_in_month y m))%bool
              then Ok {| year := y; month := m; day := d;
                         hour := 0; minute := 0; second := 0 |}
              else Raised (ValueError (str "day or year is out of range"))
          | Some (_, _, _ :: _) =>
              Raised (ValueError (str "unconverted data remains"))
          end
      end
  end.

(** *** [strftime("%Y-%m-%dT%H:%M:%S")] *)

Definition digit (n : Z) : codepoint := Z.to_N (48 + n mod 10).

Definition two_digits (n : Z) : pystr := [digit (n / 10); digit n].

(** The year is written with four digits, as the library documents it.
    (The C library of some platforms, glibc among them, does not pad a year
    below 1000.) *)
Definition four_digits (n : Z) : pystr :=
  [digit (n / 1000); digit (n / 100); digit (n / 10); digit n].

Definition strftime (d : datetime) : pystr :=
  four_digits (year d) ++ str "-" ++ two_digits (month d) ++ str "-"
  ++ two_digits (day d) ++ str "T" ++ two_digits (hour d) ++ str ":"
  ++ two_digits (minute d) ++ str ":" ++ two_digits (second d).

(** [date_obj.replace(hour=hour, minute=minute, second=second)] *)
Definition replace_time (d : datetime) (h m s : Z) : datetime :=
  {| year := year d; month := month d; day := day d;
     hour := h; minute := m; second := s |}.

Definition format_post_date (date_str : pystr) : M pystr :=
  try_except
    (date_obj <- lift (strptime date_str) ;;
     hour <- randint 6 23 ;;
     minute <- randint 0 59 ;;
     second <- randint 0 59 ;;
     let full_datetime := replace_time date_obj hour minute second in
     let formatted_date := strftime full_datetime in
     ret formatted_date)
    (fun e =>
       match e with
       | ValueError _ =>
           Some (raise (ValueError (str "Date format must be like 'March 27, 2025'")))
       | _ => None
       end).

(** The loop over [soup.find_all("img")] does two things to each image.
    It appends [str(img["src"])] to [img_links], which raises [KeyError]
    when the tag has no [src]: *)
Fixpoint collect_img_links (imgs : list (option (list pystr) * list (pystr * pystr)))
  : M (list pystr) :=
  match imgs with
  | [] => ret []
  | (_, attrs) :: imgs' =>
      match getitem attrs (str "src") with
      | Ok src => img_links <- collect_img_links imgs' ;; ret (src :: img_links)
      | Raised e => raise e
      end
  end.

(** and it sets [img["class"] = img.get("class", []) + ["img-fluid",
    "mb-3"]] in the tree, which shows in [str(soup)] once the loop is over. *)
Fixpoint add_img_classes (n : node) : node :=
  match n with
  | NavigableString text => NavigableString text
  | Tag nm cls attrs contents =>
      Tag nm
          (if pystr_eqb nm (str "img")
           then Some (match cls with Some l => l | None => [] end
                      ++ [str "img-fluid"; str "mb-3"])
           else cls)
          attrs (map add_img_classes contents)
  end.

Definition newline : pystr := [10%N].

Definition wrap_content (content : pystr) : pystr :=
  newline
  ++ str "    <div class=" ++ dquote ++ str "container mt-4" ++ dquote ++ str ">" ++ newline
  ++ str "        " ++ content ++ newline
  ++ str "    </div>" ++ newline
  ++ newline
  ++ str "    <div class=" ++ dquote ++ str "bg-info-subtle text-left p-3 rounded" ++ dquote
  ++ str ">" ++ newline
  ++ str "        <strong><a href=" ++ dquote ++ str "https://whatisalexthinking.com/" ++ dquote
  ++ str " target=" ++ dquote ++ str "_blank" ++ dquote
  ++ str ">Source</a></strong><br/>" ++ newline
  ++ str "        This blog post was re-posted here with the permission of the original author."
  ++ newline
  ++ str "        Please take a look at his actual blog for more up-to-date content."
  ++ newline
  ++ str "    </div>" ++ newline
  ++ str "    &nbsp;" ++ newline
  ++ str "    <hr />" ++ newline
  ++ str "    ".

Definition format_post_content (post : FullPost) : M Payload :=
  date <- format_post_date (post_date post) ;;
  let soup := BeautifulSoup (post_content_html post) in
  img_links <- collect_img_links (find_all (str "img") soup) ;;
  let soup := map add_img_classes soup in
  image_path_dict <- process_image_links img_links (post_title post) ;;
  featured_media_id <- upload_featured_image (featured_media image_path_dict) ;;
  let content := soup_to_str soup in
  let wrapped_content := wrap_content content in
  ret {| payload_date := date;
         payload_title := post_title post;
         payload_content := wrapped_content;
         payload_featured_media := featured_media_id |}.

(** ** main.py *)

(** The body of the loop of [run_migration], for one post of the home
    page.  [continue] ends the body.  The [emit]s record in the history
    the calls that follow them, and the answer of [upload_post]. *)
Definition run_migration_post (post : PostRef) : M unit :=
  migrated <- is_post_migrated (ref_url post) ;;
  if migrated then ret tt
  else
    emit (Extract (ref_url post)) ;;
    full_post <- scrape_post_content (ref_url post) ;;
    match full_post with
    | None => ret tt
    | Some full_post =>
        emit (Cache (ref_url post)) ;;
        save_post full_post ;;
        emit (Transform (ref_url post)) ;;
        formatted <- format_post_content full_post ;;
        ok <- upload_post formatted ;;
        emit (Publish (ref_url post) ok) ;;
        if ok
        then emit (Record_ (ref_url post)) ;;
             mark_post_as_migrated (ref_url post)
        else ret tt
    end.

(** [if os.path.exists("temp.db"): os.remove("temp.db")] *)
Definition remove_stale_temp_db : M unit :=
  present <- temp_db_exists ;;
  if present then remove_temp_db else ret tt.

Definition run_migration : M unit :=
  emit RunStarted ;;
  remove_stale_temp_db ;;
  initialize_db ;;
  posts <- scrape_homepage ;;
  match posts with
  | [] => ret tt
  | _ :: _ =>
      TempStorage ;;
      for_each posts run_migration_post ;;
      close ;;
      remove_stale_temp_db
  end.

(** The block under [if __name__ == "__main__"]. *)
Definition main : M unit :=
  try_except run_migration
    (fun e =>
       match e with
       | WebDriverException => Some (run_update_chromedriver ;; run_migration)
       | _ => None
       end).

End Program.

(** ** More of download.py and uploader.py *)

(** [urlparse(url).path] belongs to the library. *)
Class UrlLibrary := {
  urlparse_path : pystr -> pystr
}.

Fixpoint endswith_slash (s : pystr) : bool :=
  match s with
  | [] => false
  | [c] => N.eqb c 47
  | _ :: s' => endswith_slash s'
  end.

(** [os.path.join(a, b)], on POSIX paths. *)
Definition os_path_join (a b : pystr) : pystr :=
  if startswith b (str "/") then b
  else match a with
       | [] => b
       | _ :: _ => if endswith_slash a then a ++ b else a ++ str "/" ++ b
       end.

(** [s.replace(old, new)] for a non-empty [old]: the occurrences of [old]
    are replaced from left to right, and the characters of a replaced
    occurrence are not read again ([skip] counts those still to pass). *)
Fixpoint replace_from (old new : pystr) (skip : nat) (s : pystr) : pystr :=
  match s with
  | [] => []
  | c :: s' =>
      match skip with
      | S k => replace_from old new k s'
      | O =>
          if startswith s old
          then new ++ replace_from old new (List.length old - 1) s'
          else c :: replace_from old new 0 s'
      end
  end.

(** [s.replace(old, new)]; an empty [old] is found before every character
    and at the end. *)
Definition py_replace (s old new : pystr) : pystr :=
  match old with
  | [] => new ++ flat_map (fun c => c :: new) s
  | _ :: _ => replace_from old new 0 s
  end.

(** [config.py] *)
Definition WP_SITE : pystr := str "https://your-wordpress-site.com".

(** [get_current_wp_date_path], with [datetime.now()] as argument. *)
Definition get_current_wp_date_path (now : datetime) : pystr * pystr :=
  (four_digits (year now), two_digits (month now)).

(** [update_image_links_in_content], with [datetime.now()] as argument.
    The dictionary is read in the order of its items. *)
Definition update_image_links_in_content
    (now : datetime) (content : pystr) (image_map : list (pystr * pystr)) : pystr :=
  let (year, month) := get_current_wp_date_path now in
  fold_left
    (fun content item =>
       let (original_url, local_filename) := item : pystr * pystr in
       let new_url := WP_SITE ++ str "/wp-content/uploads/" ++ year ++ str "/"
                      ++ month ++ str "/" ++ local_filename in
       py_replace content original_url new_url)
    image_map content.

Section ContentImages.

Context {L : UrlLibrary} (E : Env).

(** One turn of the loop of [adjust_content_images]: the list of paths
    after it.  Whatever is raised in the turn is caught and the loop goes
    on.  The path is appended once the image is saved and before the
    optimizer runs, so a failure of the optimizer, caught like the others,
    leaves it in the list.  Saving under an empty name, the directory
    itself, raises. *)
Definition adjust_content_image (path_list : list pystr) (img_url : pystr)
  : M (list pystr) :=
  try_except
    (clean_img_url <- clean_and_validate_url img_url ;;
     emit (HttpGetImage clean_img_url) ;;
     t <- tick ;;
     match image_at E t clean_img_url with
     | ImageFailed => raise RequestException
     | ImageBadStatus => ret path_list
     | ImageSaved data _ =>
         let file_name := basename (urlparse_path clean_img_url) in
         let file_path := os_path_join (str "images") file_name in
         match file_name with
         | [] => raise IsADirectoryError
         | _ :: _ =>
             write_file file_path data ;;
             ret (path_list ++ [file_path])
         end
     end)
    (fun _ => Some (ret path_list)).

Fixpoint adjust_content_images_from (path_list img_list : list pystr)
  : M (list pystr) :=
  match img_list with
  | [] => ret path_list
  | img_url :: img_list' =>
      path_list <- adjust_content_image path_list img_url ;;
      adjust_content_images_from path_list img_list'
  end.

(** [os.makedirs(directory, exist_ok=True)]: raises when [directory] is
    a regular file. *)
Definition makedirs_exist_ok (directory : pystr) : M unit :=
  w <- get_world ;;
  match read_file (files w) directory with
  | Some _ => raise FileExistsError
  | None => ret tt
  end.

(** The directory is made before the loop, outside its [try]. *)
Definition adjust_content_images (img_list : list pystr) : M (list pystr) :=
  makedirs_exist_ok (str "images") ;;
  adjust_content_images_from [] img_list.

End ContentImages.

(** ** Instances for the examples *)

(** A fragment of the Unicode tables: the decompositions of U+00E9 and of
    the ligature U+FB01, the ASCII and the Arabic-Indic digits, the ASCII
    white space and the no-break space. *)
Definition sample_decompose (c : codepoint) : pystr :=
  if N.eqb c 233 then [101%N; 769%N]
  else if N.eqb c 64257 then [102%N; 105%N]
  else [c].

Definition sample_decimal_value (c : codepoint) : option Z :=
  if N.leb 48 c && N.leb c 57 then Some (Z.of_N c - 48)%Z
  else if N.leb 1632 c && N.leb c 1641 then Some (Z.of_N c - 1632)%Z
  else None.

Definition sample_is_whitespace (c : codepoint) : bool :=
  (N.leb 9 c && N.leb c 13) || N.eqb c 32 || N.eqb c 160.

Definition sample_unicode : UnicodeData :=
  {| normalize_NFKD := flat_map sample_decompose;
     decimal_value := sample_decimal_value;
     is_whitespace := sample_is_whitespace |}.

(** A parser that knows three documents and takes any other for plain
    text, and a printer that writes the text and the names of the tags. *)
Definition sample_BeautifulSoup (markup : pystr) : list node :=
  if pystr_eqb markup (str "<p>Hello</p>")
  then [Tag (str "p") None [] [NavigableString (str "Hello")]]
  else if pystr_eqb markup (str "<p><img src=a.png></p>")
  then [Tag (str "p") None [] [Tag (str "img") None [(str "src", str "a.png")] []]]
  else if pystr_eqb markup (str "<p><img alt=x></p>")
  then [Tag (str "p") None [] [Tag (str "img") None [(str "alt", str "x")] []]]
  else [NavigableString markup].

Fixpoint sample_node_to_str (n : node) : pystr :=
  match n with
  | NavigableString text => text
  | Tag nm _ _ contents =>
      str "<" ++ nm ++ str ">" ++ flat_map sample_node_to_str contents
  end.

Definition sample_html : HtmlLibrary := {|
  BeautifulSoup := sample_BeautifulSoup;
  soup_to_str := flat_map sample_node_to_str
|}.

(** A site with two posts.  The date of the first is malformed; the second
    is well formed and has no image.  The remote API accepts every post. *)
Definition first_post : PostRef :=
  {| ref_title := str "First"; ref_url := str "https://blog/f/first";
     ref_featured_image := None |}.

Definition second_post : PostRef :=
  {| ref_title := str "Second"; ref_url := str "https://blog/f/second";
     ref_featured_image := None |}.

Definition sample_env : Env :=
  {| homepage_at := fun _ => Rendered [first_post; second_post];
     post_page_at := fun _ url =>
       if pystr_eqb url (ref_url first_post)
       then Rendered (Some (str "First", str "13/45/2025", str "<p>Hello</p>", []))
       else Rendered (Some (str "Second", str "March 27, 2025", str "<p>Hello</p>", []));
     image_at := fun _ _ => ImageBadStatus;
     media_response_at := fun _ => Response 201 (Some 7%Z);
     post_response_at := fun _ => Response 201 (Some 8%Z);
     random_at := fun t => Z.of_nat t;
     upgrade_at := fun _ => None |}.

(** A site whose only post is the well-formed one. *)
Definition second_only_env : Env :=
  {| homepage_at := fun _ => Rendered [second_post];
     post_page_at := post_page_at sample_env;
     image_at := image_at sample_env;
     media_response_at := media_response_at sample_env;
     post_response_at := post_response_at sample_env;
     random_at := random_at sample_env;
     upgrade_at := upgrade_at sample_env |}.

(** A browser driver that never starts. *)
Definition broken_driver_env : Env :=
  {| homepage_at := fun _ => DriverFailed;
     post_page_at := fun _ _ => DriverFailed;
     image_at := image_at sample_env;
     media_response_at := media_response_at sample_env;
     post_response_at := post_response_at sample_env;
     random_at := random_at sample_env;
     upgrade_at := upgrade_at sample_env |}.

(** The world before the first run: no database, no file, nothing done. *)
Definition initial_world : World :=
  {| clock := 0; migrated_posts_db := None; temp_db := None;
     files := []; history := [] |}.

(** The world a first run leaves when the driver does not start. *)
Definition after_failed_run : World :=
  {| clock := 1;
     migrated_posts_db := Some {| rows := []; sqlite_sequence := None |};
     temp_db := None; files := [];
     history := [RunStarted; Discover] |}.

(** A world in which the first post has been migrated and the cache is
    open. *)
Definition migrated_world : World :=
  {| clock := 0;
     migrated_posts_db :=
       Some {| rows := [{| row_id := 1; row_url := ref_url first_post;
                           row_featured_image := None;
                           row_wp_post_id := None |}];
               sqlite_sequence := Some 1%Z |};
     temp_db := Some []; files := []; history := [] |}.

(** The second post as [scrape_post_content] returns it, and a post whose
    only image has no [src]. *)
Definition second_full_post : FullPost :=
  {| post_url := ref_url second_post; post_title := str "Second";
     post_content_html := str "<p>Hello</p>";
     post_date := str "March 27, 2025"; post_images := [] |}.

Definition post_without_src : FullPost :=
  {| post_url := ref_url second_post; post_title := str "Second";
     post_content_html := str "<p><img alt=x></p>";
     post_date := str "March 27, 2025"; post_images := [] |}.

(** ** The vocabulary of the statements *)

Definition ledger_rows (w : World) : list Row :=
  match migrated_posts_db w with
  | Some t => rows t
  | None => []
  end.

(** The url has a record in the ledger. *)
Definition in_ledger (url : pystr) (w : World) : bool :=
  url_in url (ledger_rows w).

(** The number of records the ledger has for a url. *)
Definition records_for (url : pystr) (w : World) : nat :=
  List.length (filter (fun r => pystr_eqb (row_url r) url) (ledger_rows w)).

(** What the constraint [url TEXT UNIQUE] maintains. *)
Definition url_unique (w : World) : Prop :=
  NoDup (map row_url (ledger_rows w)).

(** An event that, when it is a request to the media endpoint, names its
    file in ASCII. *)
Definition ascii_media_request (e : event) : Prop :=
  match e with
  | HttpPostMedia header _ =>
      exists filename,
        header = content_disposition filename
        /\ forallb is_ascii filename = true
  | _ => True
  end.

(** The events by which a stage talks to the outside; the orchestrator's
    own are the others. *)
Definition stage_event (e : event) : Prop :=
  match e with
  | Discover | UpgradeRenderer | HttpGetImage _ | HttpPostPost _ => True
  | HttpPostMedia _ _ => ascii_media_request e
  | _ => False
  end.

Definition has_src (img : option (list pystr) * list (pystr * pystr)) : Prop :=
  exists src, getitem (snd img) (str "src") = Ok src.

(** A relation between the world before and the world after, closed under
    doing nothing and under sequencing, is respected by a computation when
    it holds between the world the computation starts from and the world
    it leaves, whether it returns or raises. *)
Definition respects (R : World -> World -> Prop) {A} (m : M A) : Prop :=
  forall w, R w (snd (m w)).

(** The world after is the world before with the events [t] appended to
    its history, all of them among [allowed]. *)
Definition extends_by (allowed : event -> Prop) (w w' : World) : Prop :=
  exists t, history w' = history w ++ t /\ Forall allowed t.

(** The events of the loop body before it publishes. *)
Definition quiet (e : event) : Prop :=
  match e with
  | Extract _ | Cache _ | Transform _ => True
  | _ => stage_event e
  end.

(** A step that leaves the ledger alone and records quiet events only. *)
Definition quiet_step (w w' : World) : Prop :=
  migrated_posts_db w' = migrated_posts_db w /\ extends_by quiet w w'.

(** The end of the loop body, once [upload_post] has answered. *)
Definition record_if_published (url : pystr) (ok : bool) : M unit :=
  emit (Publish url ok) ;;
  if ok then emit (Record_ url) ;; mark_post_as_migrated url else ret tt.

(** A step during which a url is recorded exactly when it is published,
    and after which the ledger holds what it held and what was published. *)
Definition ledger_step (w w' : World) : Prop :=
  exists t,
    history w' = history w ++ t
    /\ (forall v, In (Record_ v) t <-> In (Publish v true) t)
    /\ (forall v, in_ledger v w' = true
                  <-> in_ledger v w = true \/ In (Publish v true) t)
    /\ migrated_posts_db w' <> None.

(** The same, from a world in which the ledger has been initialised. *)
Definition guarded_ledger_step (w w' : World) : Prop :=
  migrated_posts_db w <> None -> ledger_step w w'.

(** A step that publishes for [url] only, and that leaves the ledger as it
    is when the answer was negative. *)
Definition post_step (url : pystr) (w w' : World) : Prop :=
  exists t,
    history w' = history w ++ t
    /\ (forall v ok, In (Publish v ok) t -> v = url)
    /\ (In (Publish url false) t -> migrated_posts_db w' = migrated_posts_db w).

(** What [run_migration] does before it discovers the posts, which cannot
    fail, and what it does from there. *)
Definition prepared (w : World) : World :=
  snd (initialize_db (snd (remove_stale_temp_db (snd (emit RunStarted w))))).

Definition run_migration_rest {U : UnicodeData} {H : HtmlLibrary} (E : Env)
  : M unit :=
  posts <- scrape_homepage E ;;
  match posts with
  | [] => ret tt
  | _ :: _ =>
      TempStorage ;;
      for_each posts (run_migration_post E) ;;
      close ;;
      remove_stale_temp_db
  end.

(** The events of a run once it has started: it does not start again, and
    its requests to the media endpoint name their file in ASCII. *)
Definition run_event (e : event) : Prop :=
  match e with
  | RunStarted => False
  | _ => ascii_media_request e
  end.

(** A step that records events of a run only. *)
Definition run_event_step : World -> World -> Prop := extends_by run_event.

Definition is_run_started (e : event) : bool :=
  match e with RunStarted => true | _ => false end.

(** The number of times a run was started. *)
Definition runs_started (h : list event) : nat :=
  List.length (filter is_run_started h).

(** The exception [format_post_date] raises on a date it cannot read. *)
Definition date_format_error : exn :=
  ValueError (str "Date format must be like 'March 27, 2025'").

(** *** For the further properties *)

(** What [clean_and_validate_url] makes of a url before it checks it. *)
Definition clean_url (url : pystr) : pystr :=
  if startswith url (str "//") then str "https:" ++ url else url.

(** The path [adjust_featured_media] saves the image of a post under. *)
Definition featured_media_path (post_title : pystr) : pystr :=
  str "images/" ++ replace_char 32%N 95%N (post_title ++ str "_featured_media")
  ++ str ".jpg".

(** The value kept in [sqlite_sequence], 0 without a line. *)
Definition sequence_value (t : posts_table) : Z :=
  match sqlite_sequence t with Some s => s | None => 0%Z end.

(** What AUTOINCREMENT maintains: the identifiers grow along the rows, are
    positive, and none exceeds the value kept in [sqlite_sequence]. *)
Definition ids_ascending (w : World) : Prop :=
  match migrated_posts_db w with
  | None => True
  | Some t =>
      StronglySorted Z.lt (map row_id (rows t))
      /\ Forall (fun r => (0 < row_id r <= sequence_value t)%Z) (rows t)
  end.

(** A row as [mark_post_as_migrated] inserts it: the url and NULLs. *)
Definition url_only (r : Row) : Prop :=
  row_featured_image r = None /\ row_wp_post_id r = None.

(** The ledger after is the ledger before with rows appended, each a url
    with NULLs. *)
Definition ledger_appended (w w' : World) : Prop :=
  exists added, ledger_rows w' = ledger_rows w ++ added /\ Forall url_only added.

(** The url has a row in [temp.db]. *)
Definition cached (url : pystr) (w : World) : bool :=
  match temp_db w with
  | Some rs => existsb (fun r => pystr_eqb (temp_url r) url) rs
  | None => false
  end.

(** What the constraint [url TEXT UNIQUE] of [temp.db] maintains. *)
Definition temp_urls_unique (w : World) : Prop :=
  match temp_db w with
  | Some rs => NoDup (map temp_url rs)
  | None => True
  end.

(** A path of the directory of images: "images/" and a name without
    slash. *)
Definition in_images (path : pystr) : Prop :=
  exists name, path = str "images/" ++ name /\ name <> [] /\ ~ In 47%N name.

(** A third fact of the tables: a decimal value is one of 0 to 9. *)
Definition decimal_values_are_digits {U : UnicodeData} : Prop :=
  forall c v, decimal_value c = Some v -> (0 <= v <= 9)%Z.

(** A date of the calendar, from the year 1 to the year 9999, at
    midnight. *)
Definition calendar_date (d : datetime) : Prop :=
  (1 <= year d <= 9999 /\ 1 <= month d <= 12
   /\ 1 <= day d <= days_in_month (year d) (month d)
   /\ hour d = 0 /\ minute d = 0 /\ second d = 0)%Z.

(** [sub in s] *)
Definition occurs (sub s : pystr) : Prop :=
  exists before after, s = before ++ sub ++ after.

(** The url an event of the orchestrator is about. *)
Definition event_url (e : event) : option pystr :=
  match e with
  | Extract u | Cache u | Transform u | Publish u _ | Record_ u => Some u
  | _ => None
  end.

(** The url is one of those that [scrape_homepage] returns when the run
    started from [w] calls it, which the run does once it is prepared. *)
Definition listed_in_run (E : Env) (w : World) (u : pystr) : Prop :=
  exists posts,
    fst (scrape_homepage E (prepared w)) = Ok posts
    /\ In u (map ref_url posts).

(** An event that, when it is about a url, is about a url listed in the
    run started from [w]. *)
Definition about_listed (E : Env) (w : World) (e : event) : Prop :=
  match event_url e with
  | Some u => listed_in_run E w u
  | None => True
  end.

(** A step whose events are about urls listed in the run started from
    [w], and that records such urls only. *)
Definition listed_step (E : Env) (w a b : World) : Prop :=
  extends_by (about_listed E w) a b
  /\ (forall u,
         in_ledger u b = true -> in_ledger u a = true \/ listed_in_run E w u).

(** The classes of an image once [format_post_content] has styled it. *)
Definition styled (img : option (list pystr) * list (pystr * pystr))
  : option (list pystr) * list (pystr * pystr) :=
  (Some (match fst img with Some l => l | None => [] end
         ++ [str "img-fluid"; str "mb-3"]),
   snd img).

(** A sample library of urls: the path is what follows the host. *)
Fixpoint drop_until_slash (s : pystr) : pystr :=
  match s with
  | [] => []
  | c :: s' => if N.eqb c 47 then s else drop_until_slash s'
  end.

Definition sample_urls : UrlLibrary :=
  {| urlparse_path := fun url =>
       if startswith url (str "https://") then drop_until_slash (skipn 8 url)
       else if startswith url (str "http://") then drop_until_slash (skipn 7 url)
       else url |}.

(** A step that does not remove [temp.db]. *)
Definition keeps_temp_db (w w' : World) : Prop :=
  temp_db w <> None -> temp_db w' <> None.

(** A parser for which every document is a paragraph with one image, under
    an https url. *)
Definition image_html : HtmlLibrary := {|
  BeautifulSoup := fun _ =>
    [Tag (str "p") None []
       [Tag (str "img") None [(str "src", str "https://blog/a.png")] []]];
  soup_to_str := flat_map sample_node_to_str
|}.

(** A site whose only post is the well-formed one, and whose images are
    downloaded, saved and optimized. *)
Definition image_env : Env :=
  {| homepage_at := fun _ => Rendered [second_post];
     post_page_at := post_page_at sample_env;
     image_at := fun _ _ => ImageSaved [255%N; 216%N; 255%N] true;
     media_response_at := media_response_at sample_env;
     post_response_at := post_response_at sample_env;
     random_at := random_at sample_env;
     upgrade_at := upgrade_at sample_env |}.

(** A site whose only post is the first one. *)
Definition first_only_env : Env :=
  {| homepage_at := fun _ => Rendered [first_post];
     post_page_at := post_page_at sample_env;
     image_at := image_at sample_env;
     media_response_at := media_response_at sample_env;
     post_response_at := post_response_at sample_env;
     random_at := random_at sample_env;
     upgrade_at := upgrade_at sample_env |}.

(** A site whose pages lack what the extraction looks for. *)
Definition unreadable_pages_env : Env :=
  {| homepage_at := homepage_at sample_env;
     post_page_at := fun _ _ => Rendered None;
     image_at := image_at sample_env;
     media_response_at := media_response_at sample_env;
     post_response_at := post_response_at sample_env;
     random_at := random_at sample_env;
     upgrade_at := upgrade_at sample_env |}.

(** The world in which the loop of the run started from [w] begins: the
    run is prepared, the home page has been read and [temp.db] is open. *)
Definition loop_start (E : Env) (w : World) : World :=
  snd (TempStorage (snd (scrape_homepage E (prepared w)))).

(** The sample site, its posts listed in the other order: the well-formed
    one first. *)
Definition reversed_env : Env :=
  {| homepage_at := fun _ => Rendered [second_post; first_post];
     post_page_at := post_page_at sample_env;
     image_at := image_at sample_env;
     media_response_at := media_response_at sample_env;
     post_response_at := post_response_at sample_env;
     random_at := random_at sample_env;
     upgrade_at := upgrade_at sample_env |}.

(** A driver that fails while the home page is queried, inside the [try]
    block of [scrape_homepage]; and one that fails while a post page is
    queried, inside the [try] block of [scrape_post_content]. *)
Definition failing_home_query_env : Env :=
  {| homepage_at := fun _ => DriverFailedInTry;
     post_page_at := post_page_at sample_env;
     image_at := image_at sample_env;
     media_response_at := media_response_at sample_env;
     post_response_at := post_response_at sample_env;
     random_at := random_at sample_env;
     upgrade_at := upgrade_at sample_env |}.

Definition failing_post_query_env : Env :=
  {| homepage_at := fun _ => Rendered [second_post];
     post_page_at := fun _ _ => DriverFailedInTry;
     image_at := image_at sample_env;
     media_response_at := media_response_at sample_env;
     post_response_at := post_response_at sample_env;
     random_at := random_at sample_env;
     upgrade_at := upgrade_at sample_env |}.

(** * Properties *)

(** ** Strings *)

Lemma pystr_eqb_refl (a : pystr) : pystr_eqb a a = true.
Proof.
  induction a as [|x a IH]; simpl; [reflexivity|].
  now rewrite N.eqb_refl, IH.
Qed.

Lemma pystr_eqb_eq (a b : pystr) : pystr_eqb a b = true <-> a = b.
Proof.
  split.
  - revert b. induction a as [|x a IH]; intros [|y b]; simpl; try discriminate; auto.
    intros Hxy. apply andb_true_iff in Hxy as [Hx Hab].
    apply N.eqb_eq in Hx. apply IH in Hab. congruence.
  - intros ->. apply pystr_eqb_refl.
Qed.

Lemma pystr_eqb_neq (a b : pystr) : pystr_eqb a b = false <-> a <> b.
Proof.
  rewrite <- pystr_eqb_eq. destruct (pystr_eqb a b); split; congruence.
Qed.

(** [encode("ascii", "ignore")] leaves ASCII only. *)
Lemma safe_filename_is_ascii {U : UnicodeData} (name : pystr) :
  forallb is_ascii (safe_filename name) = true.
Proof.
  unfold safe_filename. apply forallb_forall. intros c Hc.
  now apply filter_In in Hc.
Qed.

Lemma filter_all (A : Type) (f : A -> bool) (l : list A) :
  forallb f l = true -> filter f l = l.
Proof.
  induction l as [|x l IH]; simpl; [reflexivity|].
  intros Hl. apply andb_true_iff in Hl as [Hx Hl]. now rewrite Hx, IH.
Qed.

(** ** The ledger *)

Section Ledger.

Implicit Types (w : World) (t : posts_table) (u v : pystr).

Lemma url_in_spec u (rs : list Row) :
  url_in u rs = true <-> In u (map row_url rs).
Proof.
  unfold url_in. rewrite existsb_exists, in_map_iff. split.
  - intros [r [Hr Hu]]. apply pystr_eqb_eq in Hu. eauto.
  - intros [r [Hu Hr]]. exists r. split; [assumption|]. now apply pystr_eqb_eq.
Qed.

Lemma url_in_app u (rs rs' : list Row) :
  url_in u (rs ++ rs') = url_in u rs || url_in u rs'.
Proof. apply existsb_app. Qed.

Lemma url_in_insert_or_ignore u v t :
  url_in u (rows (insert_or_ignore v t)) = url_in u (rows t) || pystr_eqb v u.
Proof.
  unfold insert_or_ignore. destruct (url_in v (rows t)) eqn:Hv; simpl.
  - destruct (pystr_eqb v u) eqn:Hvu; [|now rewrite orb_false_r].
    apply pystr_eqb_eq in Hvu. subst. now rewrite Hv.
  - rewrite url_in_app. simpl. now rewrite orb_false_r.
Qed.

Lemma filter_url_absent u (rs : list Row) :
  url_in u rs = false -> filter (fun r => pystr_eqb (row_url r) u) rs = [].
Proof.
  induction rs as [|r rs IH]; simpl; [reflexivity|].
  intros Hor. apply orb_false_iff in Hor as [Hr Hrs].
  rewrite Hr. auto.
Qed.

(** Under the UNIQUE constraint a url that is in the table has one row. *)
Lemma filter_url_unique u (rs : list Row) :
  NoDup (map row_url rs) -> url_in u rs = true ->
  List.length (filter (fun r => pystr_eqb (row_url r) u) rs) = 1%nat.
Proof.
  induction rs as [|r rs IH]; simpl; [discriminate|].
  intros Hnd Hin. inversion Hnd as [|x l Hnotin Hnd']; subst.
  destruct (pystr_eqb (row_url r) u) eqn:Hr; simpl.
  - apply pystr_eqb_eq in Hr. subst u.
    rewrite filter_url_absent; [reflexivity|].
    destruct (url_in (row_url r) rs) eqn:Hrs; [|reflexivity].
    apply url_in_spec in Hrs. contradiction.
  - simpl in Hin. auto.
Qed.

Lemma insert_or_ignore_unique v t :
  NoDup (map row_url (rows t)) ->
  NoDup (map row_url (rows (insert_or_ignore v t))).
Proof.
  intros Hnd. unfold insert_or_ignore.
  destruct (url_in v (rows t)) eqn:Hv; simpl; [assumption|].
  rewrite map_app. simpl.
  apply NoDup_app; [assumption | repeat constructor; simpl; tauto |].
  intros x Hx [<- | []].
  apply url_in_spec in Hx. congruence.
Qed.

Lemma is_post_migrated_run w t u :
  migrated_posts_db w = Some t ->
  is_post_migrated u w = (Ok (url_in u (rows t)), w).
Proof.
  intros Hdb. unfold is_post_migrated, bind, get_world. now rewrite Hdb.
Qed.

Lemma mark_post_as_migrated_run w t u :
  migrated_posts_db w = Some t ->
  mark_post_as_migrated u w
  = (Ok tt, set_migrated_posts_db (Some (insert_or_ignore u t)) w).
Proof.
  intros Hdb. unfold mark_post_as_migrated, bind, get_world. now rewrite Hdb.
Qed.

Lemma delete_migrated_posts_run w t :
  migrated_posts_db w = Some t ->
  delete_migrated_posts w
  = (Ok tt, set_migrated_posts_db
              (Some {| rows := []; sqlite_sequence := None |}) w).
Proof.
  intros Hdb. unfold delete_migrated_posts, bind, get_world. now rewrite Hdb.
Qed.

(** Inserting a url twice changes the table once. *)
Lemma insert_or_ignore_twice_rows u t :
  rows (insert_or_ignore u (insert_or_ignore u t)) = rows (insert_or_ignore u t).
Proof.
  unfold insert_or_ignore at 1.
  rewrite url_in_insert_or_ignore, pystr_eqb_refl, orb_true_r. reflexivity.
Qed.

(** C4 (ledger idempotence).  On an initialised ledger, after
    [mark_post_as_migrated u] the query [is_post_migrated u] answers [True];
    a second [mark_post_as_migrated u] returns without raising, leaves the
    rows of the table as they are, and the ledger has exactly one record
    for [u]. *)
Theorem mark_post_as_migrated_idempotent w u :
  migrated_posts_db w <> None ->
  url_unique w ->
  exists w1 w2,
    mark_post_as_migrated u w = (Ok tt, w1)
    /\ is_post_migrated u w1 = (Ok true, w1)
    /\ mark_post_as_migrated u w1 = (Ok tt, w2)
    /\ ledger_rows w2 = ledger_rows w1
    /\ is_post_migrated u w2 = (Ok true, w2)
    /\ records_for u w2 = 1%nat.
Proof.
  intros Hdb Huniq.
  destruct (migrated_posts_db w) as [t|] eqn:Ht; [clear Hdb | congruence].
  set (w1 := set_migrated_posts_db (Some (insert_or_ignore u t)) w).
  set (w2 := set_migrated_posts_db
               (Some (insert_or_ignore u (insert_or_ignore u t))) w1).
  assert (Hin : forall t', url_in u (rows (insert_or_ignore u t')) = true).
  { intros t'. rewrite url_in_insert_or_ignore, pystr_eqb_refl. apply orb_true_r. }
  exists w1, w2. repeat apply conj.
  - now apply mark_post_as_migrated_run.
  - rewrite (@is_post_migrated_run w1 (insert_or_ignore u t)) by reflexivity.
    now rewrite Hin.
  - now apply mark_post_as_migrated_run.
  - unfold ledger_rows; simpl. apply insert_or_ignore_twice_rows.
  - rewrite (@is_post_migrated_run w2 _ u eq_refl). now rewrite Hin.
  - unfold records_for, ledger_rows; simpl.
    apply filter_url_unique; [|apply Hin].
    apply insert_or_ignore_unique, insert_or_ignore_unique.
    unfold url_unique, ledger_rows in Huniq. now rewrite Ht in Huniq.
Qed.

(** C8 (reset).  On an initialised ledger, after [delete_migrated_posts]
    the query [is_post_migrated] answers [False] for every url, and the
    next url marked gets the identifier 1, the one a new table starts
    from. *)
Theorem delete_migrated_posts_resets w :
  migrated_posts_db w <> None ->
  exists w1,
    delete_migrated_posts w = (Ok tt, w1)
    /\ (forall u, is_post_migrated u w1 = (Ok false, w1))
    /\ (forall v, exists w2,
           mark_post_as_migrated v w1 = (Ok tt, w2)
           /\ ledger_rows w2 = [{| row_id := 1; row_url := v;
                                   row_featured_image := None;
                                   row_wp_post_id := None |}])
    /\ new_rowid {| rows := []; sqlite_sequence := None |} = 1%Z.
Proof.
  intros Hdb.
  destruct (migrated_posts_db w) as [t|] eqn:Ht; [clear Hdb | congruence].
  set (empty := {| rows := []; sqlite_sequence := None |}).
  exists (set_migrated_posts_db (Some empty) w).
  split; [eapply delete_migrated_posts_run; eassumption|].
  split; [|split].
  - intros u. apply (@is_post_migrated_run _ empty u). reflexivity.
  - intros v. exists (set_migrated_posts_db (Some (insert_or_ignore v empty))
                                            (set_migrated_posts_db (Some empty) w)).
    split; [|reflexivity].
    apply (@mark_post_as_migrated_run _ empty v). reflexivity.
  - reflexivity.
Qed.

End Ledger.

(** ** The sample Unicode tables *)

Lemma sample_NFKD_fixes_ascii : NFKD_fixes_ascii (U := sample_unicode).
Proof.
  intros s. simpl. induction s as [|c s IH]; simpl; [reflexivity|].
  intros Hs. apply andb_true_iff in Hs as [Hc Hs].
  rewrite (IH Hs). unfold is_ascii in Hc. apply N.ltb_lt in Hc.
  unfold sample_decompose.
  destruct (N.eqb_spec c 233); [lia|].
  destruct (N.eqb_spec c 64257); [lia|]. reflexivity.
Qed.

Lemma sample_ascii_date_characters : ascii_date_characters (U := sample_unicode).
Proof.
  split; [|reflexivity].
  intros c [Hlo Hhi]. simpl. unfold sample_decimal_value, sample_is_whitespace.
  destruct (N.leb_spec 48 c), (N.leb_spec c 57), (N.leb_spec 9 c),
    (N.leb_spec c 13), (N.eqb_spec c 32), (N.eqb_spec c 160);
    simpl; split; reflexivity || lia.
Qed.

(** ** Dates *)

Section Dates.

Context {U : UnicodeData} (E : Env).

Hypothesis ascii_characters : ascii_date_characters.

Lemma decimal_value_digit (c : codepoint) :
  (48 <= c <= 57)%N -> decimal_value c = Some (Z.of_N c - 48)%Z.
Proof. intros Hc. apply (proj1 ascii_characters c Hc). Qed.

Lemma digit_not_whitespace (c : codepoint) :
  (48 <= c <= 57)%N -> is_whitespace c = false.
Proof. intros Hc. apply (proj1 ascii_characters c Hc). Qed.

Lemma read_whitespace_space_digit (c : codepoint) (rest : pystr) :
  (48 <= c <= 57)%N ->
  read_whitespace (32%N :: c :: rest) = Some (c :: rest).
Proof.
  intros Hc. unfold read_whitespace. rewrite (proj2 ascii_characters).
  simpl. now rewrite (digit_not_whitespace c Hc).
Qed.

Lemma read_year_2025 : read_year (str ", 2025") = Some (2025%Z, []).
Proof.
  change (str ", 2025") with [44; 32; 50; 48; 50; 53]%N.
  unfold read_year. rewrite N.eqb_refl.
  rewrite read_whitespace_space_digit by lia.
  rewrite !decimal_value_digit by lia. reflexivity.
Qed.

Lemma strptime_march_27 :
  strptime (str "March 27, 2025")
  = Ok {| year := 2025; month := 3; day := 27;
          hour := 0; minute := 0; second := 0 |}.
Proof.
  unfold strptime.
  change (read_month month_names 1 (str "March 27, 2025"))
    with (Some (3%Z, [32; 50; 55; 44; 32; 50; 48; 50; 53]%N)).
  cbv iota beta.
  rewrite read_whitespace_space_digit by lia.
  unfold read_day.
  change (N.eqb 50 51 && in_range 48 49 55) with false.
  change (in_range 49 50 50) with true.
  change (N.eqb 50 48 && in_range 49 57 55) with false.
  change (in_range 49 57 50) with true.
  cbv iota beta. rewrite decimal_value_digit by lia.
  simpl app. unfold first_match.
  change [44; 32; 50; 48; 50; 53]%N with (str ", 2025").
  rewrite read_year_2025. reflexivity.
Qed.

(** No month name starts with a digit. *)
Lemma strptime_13_45_2025 :
  strptime (str "13/45/2025")
  = Raised (ValueError (str "time data does not match format")).
Proof. reflexivity. Qed.

Lemma randint_run (a b : Z) (w : World) :
  randint E a b w
  = (Ok (a + random_at E (clock w) mod (b - a + 1))%Z, set_clock (S (clock w)) w).
Proof. reflexivity. Qed.

Lemma randint_range (a b r : Z) :
  (a <= b)%Z -> (a <= a + r mod (b - a + 1) <= b)%Z.
Proof.
  intros Hab. pose proof (Z.mod_pos_bound r (b - a + 1)). lia.
Qed.

(** What [format_post_date] does on a string the parser accepts... *)
Lemma format_post_date_accepted (date_str : pystr) (d : datetime) (w : World) :
  strptime date_str = Ok d ->
  format_post_date E date_str w
  = (Ok (strftime
           (replace_time d
              (6 + random_at E (clock w) mod 18)
              (0 + random_at E (S (clock w)) mod 60)
              (0 + random_at E (S (S (clock w))) mod 60))),
     set_clock (S (S (S (clock w)))) w).
Proof.
  intros Hd. unfold format_post_date, try_except, bind, lift.
  rewrite Hd. reflexivity.
Qed.

(** ... and on a string it rejects. *)
Lemma format_post_date_rejected (date_str : pystr) (e : exn) (w : World) :
  strptime date_str = Raised e ->
  format_post_date E date_str w
  = (Raised (ValueError (str "Date format must be like 'March 27, 2025'")), w).
Proof.
  intros Hd. unfold format_post_date, try_except, bind, lift. rewrite Hd.
  unfold strptime in Hd.
  repeat match type of Hd with
         | match ?x with _ => _ end = _ => destruct x
         | (if ?x then _ else _) = _ => destruct x
         | (let (_, _) := ?x in _) = _ => destruct x
         end; inversion Hd; reflexivity.
Qed.

(** C6 (date transform).  With the ASCII digits and the space read as the
    Unicode tables have them, on the raw date "March 27, 2025"
    [format_post_date] returns "2025-03-27T" followed by the two digits of
    an hour between 6 and 23, a colon, the two digits of a minute and, after
    another colon, of a second, both between 0 and 59. *)
Theorem format_post_date_march_27 (w : World) :
  exists hh mm ss : Z,
    fst (format_post_date E (str "March 27, 2025") w)
    = Ok (str "2025-03-27T" ++ two_digits hh ++ str ":"
          ++ two_digits mm ++ str ":" ++ two_digits ss)
    /\ (6 <= hh <= 23)%Z /\ (0 <= mm <= 59)%Z /\ (0 <= ss <= 59)%Z.
Proof.
  rewrite (format_post_date_accepted _ _ w strptime_march_27).
  eexists _, _, _. split; [reflexivity|].
  split; [|split].
  - apply (randint_range 6 23). lia.
  - apply (randint_range 0 59). lia.
  - apply (randint_range 0 59). lia.
Qed.

End Dates.

(** ** Frames: what a computation cannot do to the world *)

Ltac frame_case :=
  match goal with
  | |- respects _ (match ?x with _ => _ end) => destruct x
  | |- respects _ (if ?x then _ else _) => destruct x
  | |- respects _ (let (_, _) := ?x in _) => destruct x
  end.

Section Frames.

Context {U : UnicodeData} {H : HtmlLibrary} (E : Env).

Variable R : World -> World -> Prop.
Variable allowed : event -> Prop.

Hypothesis R_refl : forall w, R w w.
Hypothesis R_trans : forall w1 w2 w3, R w1 w2 -> R w2 w3 -> R w1 w3.
Hypothesis R_clock : forall c w, R w (set_clock c w).
Hypothesis R_temp_db : forall d w, R w (set_temp_db d w).
Hypothesis R_files : forall f w, R w (set_files f w).
Hypothesis R_history :
  forall e w, allowed e -> R w (set_history (history w ++ [e]) w).
Hypothesis allowed_stage_event : forall e, stage_event e -> allowed e.

Lemma respects_ret {A} (a : A) : respects R (ret a).
Proof. intros w. apply R_refl. Qed.

Lemma respects_raise {A} (e : exn) : respects R (@raise A e).
Proof. intros w. apply R_refl. Qed.

Lemma respects_lift {A} (r : result A) : respects R (lift r).
Proof. intros w. apply R_refl. Qed.

Lemma respects_get_world : respects R get_world.
Proof. intros w. apply R_refl. Qed.

Lemma respects_bind {A B} (m : M A) (k : A -> M B) :
  respects R m -> (forall a, respects R (k a)) -> respects R (bind m k).
Proof.
  intros Hm Hk w. unfold bind. specialize (Hm w).
  destruct (m w) as [[a|e] w1]; simpl in *; [|assumption].
  eapply R_trans; [eassumption | apply Hk].
Qed.

Lemma respects_try_except {A} (body : M A) (handler : exn -> option (M A)) :
  respects R body ->
  (forall e h, handler e = Some h -> respects R h) ->
  respects R (try_except body handler).
Proof.
  intros Hb Hh w. unfold try_except. specialize (Hb w).
  destruct (body w) as [[a|e] w1]; simpl in *; [assumption|].
  destruct (handler e) as [h|] eqn:He; simpl; [|assumption].
  eapply R_trans; [eassumption | eapply Hh, He].
Qed.

Lemma respects_for_each {A} (xs : list A) (body : A -> M unit) :
  (forall x, respects R (body x)) -> respects R (for_each xs body).
Proof.
  intros Hb. induction xs as [|x xs IH]; simpl.
  - apply respects_ret.
  - apply respects_bind; auto.
Qed.

Lemma respects_tick : respects R tick.
Proof. intros w. apply R_clock. Qed.

Lemma respects_emit (e : event) : allowed e -> respects R (emit e).
Proof. intros He w. now apply R_history. Qed.

Ltac frame :=
  repeat first
    [ apply respects_ret | apply respects_raise | apply respects_lift
    | apply respects_get_world | apply respects_tick
    | apply respects_emit; solve [auto using allowed_stage_event | simpl; auto]
    | solve [auto]
    | apply respects_bind; [|intro]
    | apply respects_try_except;
      [|let e := fresh "e" in let h := fresh "h" in let Hh := fresh "Hh" in
        intros e h Hh; destruct e; inversion Hh; subst; clear Hh]
    | frame_case
    | intros w; simpl; solve [auto] ].

Lemma respects_scrape_homepage : respects R (scrape_homepage E).
Proof.
  unfold scrape_homepage.
  apply respects_bind; [apply respects_emit, allowed_stage_event; exact I|intro].
  frame.
Qed.

Lemma respects_scrape_post_content url : respects R (scrape_post_content E url).
Proof. unfold scrape_post_content. frame. Qed.

Lemma respects_run_update_chromedriver : respects R (run_update_chromedriver E).
Proof.
  unfold run_update_chromedriver.
  apply respects_bind; [apply respects_emit, allowed_stage_event; exact I|intro].
  frame.
Qed.

Lemma respects_TempStorage : respects R TempStorage.
Proof. intros w. unfold TempStorage, modify. simpl. destruct (temp_db w); auto. Qed.

Lemma respects_save_post post : respects R (save_post post).
Proof. unfold save_post, temp_insert, modify. frame. Qed.

Lemma respects_remove_stale_temp_db : respects R remove_stale_temp_db.
Proof.
  unfold remove_stale_temp_db, temp_db_exists, remove_temp_db, modify. frame.
Qed.

Lemma respects_adjust_featured_media url title :
  respects R (adjust_featured_media E url title).
Proof.
  unfold adjust_featured_media, clean_and_validate_url, write_file, modify.
  apply respects_try_except; [|intros e h Hh; inversion Hh; apply respects_ret].
  apply respects_bind; [frame|intro].
  apply respects_bind; [apply respects_emit, allowed_stage_event; exact I|intro].
  frame.
Qed.

Lemma respects_process_image_links img_list title :
  respects R (process_image_links E img_list title).
Proof.
  unfold process_image_links, reset_directory, modify.
  pose proof respects_adjust_featured_media. frame.
Qed.

Lemma respects_open_rb path : respects R (open_rb path).
Proof. unfold open_rb. frame. Qed.

Lemma respects_upload_featured_image image_path :
  respects R (upload_featured_image E image_path).
Proof.
  unfold upload_featured_image. pose proof respects_open_rb.
  apply respects_bind; [frame|intro].
  destruct a; [|frame]. destruct image_path; [|frame].
  apply respects_bind; [|intro; frame].
  apply respects_emit, allowed_stage_event. simpl.
  eexists. split; [reflexivity | apply safe_filename_is_ascii].
Qed.

Lemma respects_upload_post post_data : respects R (upload_post E post_data).
Proof.
  unfold upload_post.
  apply respects_bind; [apply respects_emit, allowed_stage_event; exact I|intro].
  frame.
Qed.

Lemma respects_format_post_date date_str : respects R (format_post_date E date_str).
Proof. unfold format_post_date, randint. frame. Qed.

Lemma respects_collect_img_links imgs : respects R (collect_img_links imgs).
Proof.
  induction imgs as [|[cls attrs] imgs IH]; simpl; [apply respects_ret|].
  destruct (getitem attrs (str "src")); frame.
Qed.

Lemma respects_format_post_content post : respects R (format_post_content E post).
Proof.
  unfold format_post_content.
  pose proof respects_format_post_date. pose proof respects_collect_img_links.
  pose proof respects_process_image_links.
  pose proof respects_upload_featured_image.
  frame.
Qed.

End Frames.

(** ** The shape of the loop body *)

Lemma extends_by_refl allowed w : extends_by allowed w w.
Proof. exists []. now rewrite app_nil_r. Qed.

Lemma extends_by_same_history allowed w w' :
  history w' = history w -> extends_by allowed w w'.
Proof. intros Hh. exists []. now rewrite app_nil_r. Qed.

Lemma extends_by_trans allowed w1 w2 w3 :
  extends_by allowed w1 w2 -> extends_by allowed w2 w3 -> extends_by allowed w1 w3.
Proof.
  intros [t1 [H1 F1]] [t2 [H2 F2]]. exists (t1 ++ t2). split.
  - now rewrite H2, H1, app_assoc.
  - apply Forall_app. now split.
Qed.

Lemma extends_by_event (allowed : event -> Prop) e w :
  allowed e -> extends_by allowed w (set_history (history w ++ [e]) w).
Proof. intros He. exists [e]. split; [reflexivity|]. now constructor. Qed.

Lemma quiet_step_refl w : quiet_step w w.
Proof. split; [reflexivity | apply extends_by_refl]. Qed.

Lemma quiet_step_trans w1 w2 w3 :
  quiet_step w1 w2 -> quiet_step w2 w3 -> quiet_step w1 w3.
Proof.
  intros [D1 X1] [D2 X2]. split; [congruence|].
  eapply extends_by_trans; eassumption.
Qed.

Lemma quiet_stage_event e : stage_event e -> quiet e.
Proof. destruct e; simpl; tauto. Qed.

#[local] Hint Resolve quiet_step_refl quiet_step_trans quiet_stage_event : core.

Section LoopBody.

Context {U : UnicodeData} {H : HtmlLibrary} (E : Env).

Lemma quiet_step_clock c w : quiet_step w (set_clock c w).
Proof. split; [reflexivity | apply extends_by_same_history; reflexivity]. Qed.

Lemma quiet_step_temp_db d w : quiet_step w (set_temp_db d w).
Proof. split; [reflexivity | apply extends_by_same_history; reflexivity]. Qed.

Lemma quiet_step_files f w : quiet_step w (set_files f w).
Proof. split; [reflexivity | apply extends_by_same_history; reflexivity]. Qed.

Lemma quiet_step_history e w :
  quiet e -> quiet_step w (set_history (history w ++ [e]) w).
Proof. intros He. split; [reflexivity | now apply extends_by_event]. Qed.

Hint Resolve quiet_step_clock quiet_step_temp_db quiet_step_files
  quiet_step_history : core.

Lemma quiet_scrape_post_content url :
  respects quiet_step (scrape_post_content E url).
Proof. apply respects_scrape_post_content; eauto. Qed.

Lemma quiet_save_post post : respects quiet_step (save_post post).
Proof. apply respects_save_post; eauto. Qed.

Lemma quiet_format_post_content post :
  respects quiet_step (format_post_content E post).
Proof. apply respects_format_post_content with (allowed := quiet); eauto. Qed.

Lemma quiet_upload_post post_data :
  respects quiet_step (upload_post E post_data).
Proof. apply respects_upload_post with (allowed := quiet); eauto. Qed.

Lemma quiet_emit e : quiet e -> respects quiet_step (emit e).
Proof. intros He w. now apply quiet_step_history. Qed.

(** A property [Q] of the step from one world to another that holds of
    doing nothing and survives a quiet step in front holds of the loop body
    as soon as it holds of its end. *)
Section Shape.

Variable Q : World -> World -> Prop.
Hypothesis Q_refl : forall w, Q w w.
Hypothesis Q_quiet : forall w w1 w2, quiet_step w w1 -> Q w1 w2 -> Q w w2.

Lemma Q_of_quiet w w1 : quiet_step w w1 -> Q w w1.
Proof. intros Hq. eapply Q_quiet; [eassumption | apply Q_refl]. Qed.

Lemma respects_after_quiet {A B} (m : M A) (k : A -> M B) :
  respects quiet_step m -> (forall a, respects Q (k a)) ->
  respects Q (bind m k).
Proof.
  intros Hm Hk w. unfold bind. specialize (Hm w).
  destruct (m w) as [[a|e] w1]; simpl in *.
  - eapply Q_quiet; [eassumption | apply Hk].
  - now apply Q_of_quiet.
Qed.

Lemma run_migration_post_shape (post : PostRef) :
  (forall ok, respects Q (record_if_published (ref_url post) ok)) ->
  respects Q (run_migration_post E post).
Proof.
  intros Hend w. unfold run_migration_post.
  unfold bind at 1. unfold is_post_migrated, bind, get_world.
  destruct (migrated_posts_db w) as [t|]; simpl; [|apply Q_refl].
  destruct (url_in (ref_url post) (rows t)); simpl; [apply Q_refl|].
  revert w.
  change (respects Q
    (emit (Extract (ref_url post)) ;;
     full_post <- scrape_post_content E (ref_url post) ;;
     match full_post with
     | None => ret tt
     | Some full_post =>
         emit (Cache (ref_url post)) ;;
         save_post full_post ;;
         emit (Transform (ref_url post)) ;;
         formatted <- format_post_content E full_post ;;
         ok <- upload_post E formatted ;;
         record_if_published (ref_url post) ok
     end)).
  apply respects_after_quiet; [now apply quiet_emit | intros _].
  apply respects_after_quiet; [apply quiet_scrape_post_content | intros [fp|]].
  2:{ intros w. apply Q_refl. }
  apply respects_after_quiet; [now apply quiet_emit | intros _].
  apply respects_after_quiet; [apply quiet_save_post | intros _].
  apply respects_after_quiet; [now apply quiet_emit | intros _].
  apply respects_after_quiet; [apply quiet_format_post_content | intros formatted].
  apply respects_after_quiet; [apply quiet_upload_post | intros ok].
  apply Hend.
Qed.

End Shape.

End LoopBody.

(** ** Publishing and recording *)

Lemma quiet_not_publish (t : list event) v ok :
  Forall quiet t -> ~ In (Publish v ok) t.
Proof.
  intros Hq Hin. rewrite Forall_forall in Hq. exact (Hq _ Hin).
Qed.

Lemma quiet_not_record (t : list event) v :
  Forall quiet t -> ~ In (Record_ v) t.
Proof.
  intros Hq Hin. rewrite Forall_forall in Hq. exact (Hq _ Hin).
Qed.

Lemma in_ledger_same_db v w w' :
  migrated_posts_db w' = migrated_posts_db w -> in_ledger v w' = in_ledger v w.
Proof. unfold in_ledger, ledger_rows. now intros ->. Qed.

Lemma ledger_step_refl w : guarded_ledger_step w w.
Proof.
  intros Hdb. exists []. rewrite app_nil_r.
  split; [reflexivity|]. split; [simpl; tauto|]. split; [simpl; tauto|assumption].
Qed.

Lemma ledger_step_quiet w w1 w2 :
  quiet_step w w1 -> guarded_ledger_step w1 w2 -> guarded_ledger_step w w2.
Proof.
  intros [Hdb [t1 [Hh1 Hq1]]] Hstep Hw.
  destruct Hstep as [t2 [Hh2 [Hrec [Hled Hdb2]]]]; [congruence|].
  exists (t1 ++ t2). split; [|split; [|split]].
  - now rewrite Hh2, Hh1, app_assoc.
  - intros v. rewrite !in_app_iff, Hrec.
    pose proof (quiet_not_record t1 v Hq1).
    pose proof (quiet_not_publish t1 v true Hq1). tauto.
  - intros v. rewrite Hled, in_app_iff, (in_ledger_same_db v _ _ Hdb).
    pose proof (quiet_not_publish t1 v true Hq1). tauto.
  - assumption.
Qed.

Lemma ledger_step_trans w1 w2 w3 :
  guarded_ledger_step w1 w2 -> guarded_ledger_step w2 w3 ->
  guarded_ledger_step w1 w3.
Proof.
  intros H12 H23 Hw.
  destruct (H12 Hw) as [t1 [Hh1 [Hrec1 [Hled1 Hdb1]]]].
  destruct (H23 Hdb1) as [t2 [Hh2 [Hrec2 [Hled2 Hdb2]]]].
  exists (t1 ++ t2). split; [|split; [|split]].
  - now rewrite Hh2, Hh1, app_assoc.
  - intros v. rewrite !in_app_iff, Hrec1, Hrec2. tauto.
  - intros v. rewrite Hled2, Hled1, in_app_iff. tauto.
  - assumption.
Qed.

Lemma in_two (e a b : event) : In e [a; b] <-> e = a \/ e = b.
Proof. simpl. intuition congruence. Qed.

Lemma in_one (e a : event) : In e [a] <-> e = a.
Proof. simpl. intuition congruence. Qed.

Lemma ledger_step_record_if_published url ok :
  respects guarded_ledger_step (record_if_published url ok).
Proof.
  intros w Hw. destruct (migrated_posts_db w) as [tb|] eqn:Hdb; [clear Hw|congruence].
  unfold record_if_published, bind, emit, modify. simpl.
  destruct ok; simpl.
  - unfold mark_post_as_migrated, bind, get_world, modify. simpl. rewrite Hdb. simpl.
    exists [Publish url true; Record_ url]. rewrite <- app_assoc. simpl app.
    split; [reflexivity|]. split; [|split].
    + intros v. rewrite !in_two. intuition congruence.
    + intros v. unfold in_ledger, ledger_rows. simpl migrated_posts_db. rewrite Hdb.
      rewrite url_in_insert_or_ignore, orb_true_iff, pystr_eqb_eq, in_two.
      intuition congruence.
    + discriminate.
  - exists [Publish url false].
    split; [reflexivity|]. split; [|split].
    + intros v. rewrite !in_one. intuition congruence.
    + intros v. rewrite in_one. unfold in_ledger, ledger_rows.
      simpl migrated_posts_db. intuition congruence.
    + simpl. congruence.
Qed.

Lemma post_step_refl url w : post_step url w w.
Proof.
  exists []. rewrite app_nil_r.
  split; [reflexivity|]. split; [intros v ok []|intros []].
Qed.

Lemma post_step_quiet url w w1 w2 :
  quiet_step w w1 -> post_step url w1 w2 -> post_step url w w2.
Proof.
  intros [Hdb [t1 [Hh1 Hq1]]] [t2 [Hh2 [Hpub Hneg]]].
  exists (t1 ++ t2). split; [|split].
  - now rewrite Hh2, Hh1, app_assoc.
  - intros v ok Hin. apply in_app_iff in Hin as [Hin|Hin].
    + now apply quiet_not_publish in Hin.
    + eauto.
  - intros Hin. apply in_app_iff in Hin as [Hin|Hin].
    + now apply quiet_not_publish in Hin.
    + rewrite Hneg by assumption. assumption.
Qed.

Lemma post_step_record_if_published url ok :
  respects (post_step url) (record_if_published url ok).
Proof.
  intros w. unfold record_if_published, bind, emit, modify. simpl.
  destruct ok; simpl.
  - exists [Publish url true; Record_ url]. split; [|split].
    + unfold mark_post_as_migrated, bind, get_world, modify. simpl.
      destruct (migrated_posts_db w); simpl; now rewrite <- app_assoc.
    + intros v ok. rewrite in_two. intuition congruence.
    + rewrite in_two. intuition congruence.
  - exists [Publish url false]. split; [reflexivity|]. split.
    + intros v ok. rewrite in_one. intuition congruence.
    + reflexivity.
Qed.

Section PublishGatesRecord.

Context {U : UnicodeData} {H : HtmlLibrary} (E : Env).

Lemma ledger_step_run_migration_post post :
  respects guarded_ledger_step (run_migration_post E post).
Proof.
  apply run_migration_post_shape.
  - apply ledger_step_refl.
  - apply ledger_step_quiet.
  - intros ok. apply ledger_step_record_if_published.
Qed.

Lemma post_step_run_migration_post post :
  respects (post_step (ref_url post)) (run_migration_post E post).
Proof.
  apply run_migration_post_shape.
  - apply post_step_refl.
  - apply post_step_quiet.
  - intros ok. apply post_step_record_if_published.
Qed.

Lemma ledger_step_of_quiet w w' : quiet_step w w' -> guarded_ledger_step w w'.
Proof. intros Hq. eapply ledger_step_quiet; [eassumption | apply ledger_step_refl]. Qed.

Lemma ledger_step_run_migration_rest :
  respects guarded_ledger_step (run_migration_rest E).
Proof.
  assert (Hrefl := ledger_step_refl). assert (Htrans := ledger_step_trans).
  assert (Hclock : forall c w, guarded_ledger_step w (set_clock c w)).
  { intros. apply ledger_step_of_quiet, quiet_step_clock. }
  assert (Htemp : forall d w, guarded_ledger_step w (set_temp_db d w)).
  { intros. apply ledger_step_of_quiet, quiet_step_temp_db. }
  assert (Hhist : forall e w, quiet e ->
            guarded_ledger_step w (set_history (history w ++ [e]) w)).
  { intros. now apply ledger_step_of_quiet, quiet_step_history. }
  unfold run_migration_rest.
  apply respects_bind; [assumption | |intros posts].
  - eapply respects_scrape_homepage; eauto.
  - destruct posts as [|p posts]; [now apply respects_ret|].
    apply respects_bind; [assumption | |intros _].
    { apply respects_TempStorage; auto. }
    apply respects_bind; [assumption | |intros _].
    { apply respects_for_each; auto. apply ledger_step_run_migration_post. }
    apply respects_bind; [assumption | |intros _].
    { now apply respects_ret. }
    apply respects_remove_stale_temp_db; auto.
Qed.

Lemma run_migration_prepared w :
  run_migration E w = run_migration_rest E (prepared w).
Proof.
  unfold run_migration, prepared, remove_stale_temp_db, temp_db_exists,
    remove_temp_db, initialize_db, emit, modify, bind, get_world, ret.
  destruct w as [c db tdb fs h]. destruct tdb, db; reflexivity.
Qed.

Lemma history_prepared w : history (prepared w) = history w ++ [RunStarted].
Proof.
  unfold prepared, remove_stale_temp_db, temp_db_exists,
    remove_temp_db, initialize_db, emit, modify, bind, get_world, ret.
  destruct w as [c db tdb fs h]. destruct tdb, db; reflexivity.
Qed.

Lemma migrated_posts_db_prepared w : migrated_posts_db (prepared w) <> None.
Proof.
  unfold prepared, remove_stale_temp_db, temp_db_exists,
    remove_temp_db, initialize_db, emit, modify, bind, get_world, ret.
  destruct w as [c db tdb fs h]. destruct tdb, db; discriminate.
Qed.

Lemma ledger_rows_prepared w : ledger_rows (prepared w) = ledger_rows w.
Proof.
  unfold prepared, remove_stale_temp_db, temp_db_exists,
    remove_temp_db, initialize_db, emit, modify, bind, get_world, ret, ledger_rows.
  destruct w as [c db tdb fs h]. destruct tdb, db; reflexivity.
Qed.

(** A post that is in the ledger leaves the world as it is. *)
Lemma run_migration_post_skip post w :
  in_ledger (ref_url post) w = true ->
  run_migration_post E post w = (Ok tt, w).
Proof.
  unfold in_ledger, ledger_rows, run_migration_post, is_post_migrated,
    bind, get_world.
  destruct (migrated_posts_db w) as [tb|]; simpl; [|discriminate].
  now intros ->.
Qed.


End PublishGatesRecord.

(** ** What a run records *)

Lemma extends_by_weaken (P Q : event -> Prop) w w' :
  (forall e, P e -> Q e) -> extends_by P w w' -> extends_by Q w w'.
Proof.
  intros HPQ [t [Hh Ht]]. exists t. split; [assumption|].
  eapply Forall_impl; eassumption.
Qed.

Lemma runs_started_app h t :
  runs_started (h ++ t) = (runs_started h + runs_started t)%nat.
Proof. unfold runs_started. now rewrite filter_app, length_app. Qed.

Lemma runs_started_run_events t : Forall run_event t -> runs_started t = 0%nat.
Proof.
  induction 1 as [|e t He Ht IH]; [reflexivity|].
  unfold runs_started in *. simpl. destruct e; simpl in *; tauto.
Qed.

Section RunEvents.

Context {U : UnicodeData} {H : HtmlLibrary} (E : Env).

Lemma run_event_step_refl w : run_event_step w w.
Proof. apply extends_by_refl. Qed.

Lemma run_event_step_trans w1 w2 w3 :
  run_event_step w1 w2 -> run_event_step w2 w3 -> run_event_step w1 w3.
Proof. apply extends_by_trans. Qed.

Lemma run_event_quiet e : quiet e -> run_event e.
Proof. destruct e; simpl; intros He; solve [exact I | exact He | destruct He]. Qed.

Lemma run_event_step_quiet w w1 w2 :
  quiet_step w w1 -> run_event_step w1 w2 -> run_event_step w w2.
Proof.
  intros [_ Hq] Hr. eapply extends_by_trans; [|eassumption].
  eapply extends_by_weaken; [apply run_event_quiet | assumption].
Qed.

Lemma run_event_step_record_if_published url ok :
  respects run_event_step (record_if_published url ok).
Proof.
  intros w. unfold record_if_published, bind, emit, modify. simpl.
  destruct ok; simpl.
  - exists [Publish url true; Record_ url]. split.
    + unfold mark_post_as_migrated, bind, get_world, modify. simpl.
      destruct (migrated_posts_db w); simpl; now rewrite <- app_assoc.
    + repeat constructor.
  - exists [Publish url false]. split; [reflexivity | repeat constructor].
Qed.

Lemma run_event_step_run_migration_post post :
  respects run_event_step (run_migration_post E post).
Proof.
  apply run_migration_post_shape.
  - apply run_event_step_refl.
  - apply run_event_step_quiet.
  - intros ok. apply run_event_step_record_if_published.
Qed.

Lemma run_event_step_run_migration_rest :
  respects run_event_step (run_migration_rest E).
Proof.
  assert (Hrefl := run_event_step_refl). assert (Htrans := run_event_step_trans).
  assert (Hclock : forall c w, run_event_step w (set_clock c w)).
  { intros. now apply extends_by_same_history. }
  assert (Htemp : forall d w, run_event_step w (set_temp_db d w)).
  { intros. now apply extends_by_same_history. }
  assert (Hhist : forall e w, run_event e ->
            run_event_step w (set_history (history w ++ [e]) w)).
  { intros. now apply extends_by_event. }
  assert (Hstage : forall e, stage_event e -> run_event e).
  { intros e He. now apply run_event_quiet, quiet_stage_event. }
  unfold run_migration_rest.
  apply respects_bind; [assumption | |intros posts].
  - eapply respects_scrape_homepage; eauto.
  - destruct posts as [|p posts]; [now apply respects_ret|].
    apply respects_bind; [assumption | |intros _].
    { apply respects_TempStorage; auto. }
    apply respects_bind; [assumption | |intros _].
    { apply respects_for_each; auto. apply run_event_step_run_migration_post. }
    apply respects_bind; [assumption | |intros _].
    { now apply respects_ret. }
    apply respects_remove_stale_temp_db; auto.
Qed.

(** A run records that it has started, and then events of a run. *)
Lemma history_run_migration w :
  exists t,
    history (snd (run_migration E w)) = history w ++ RunStarted :: t
    /\ Forall run_event t.
Proof.
  rewrite run_migration_prepared.
  destruct (run_event_step_run_migration_rest (prepared w)) as [t [Hh Ht]].
  exists t. split; [|assumption].
  now rewrite Hh, history_prepared, <- app_assoc.
Qed.

Lemma runs_started_run_migration w :
  runs_started (history (snd (run_migration E w)))
  = S (runs_started (history w)).
Proof.
  destruct (history_run_migration w) as [t [Hh Ht]].
  rewrite Hh, runs_started_app.
  change (RunStarted :: t) with ([RunStarted] ++ t).
  rewrite runs_started_app, (runs_started_run_events t Ht).
  simpl. lia.
Qed.

Lemma run_update_chromedriver_run w :
  run_update_chromedriver E w
  = (match upgrade_at E (clock w) with None => Ok tt | Some e => Raised e end,
     set_clock (S (clock w)) (set_history (history w ++ [UpgradeRenderer]) w)).
Proof.
  unfold run_update_chromedriver, bind, emit, modify, tick. simpl.
  destruct (upgrade_at E (clock w)); reflexivity.
Qed.

(** When the first run of an invocation is aborted by a failure of the
    browser driver, the upgrade of the driver is triggered once; when the
    upgrade returns, the whole run is started again from the world the first
    left, once: the invocation ends as this second run ends, two runs have
    been started in all, and a failure of the driver in the second run
    leaves the invocation as the exception it is.  No invocation starts
    more than two runs. *)
Lemma recovery_after_abort :
  (forall w w1 : World,
      run_migration E w = (Raised WebDriverException, w1) ->
      exists upgraded w2,
        run_update_chromedriver E w1 = (upgraded, w2)
        /\ history w2 = history w1 ++ [UpgradeRenderer]
        /\ match upgraded with
           | Ok _ =>
               main E w = run_migration E w2
               /\ runs_started (history (snd (main E w)))
                  = (runs_started (history w) + 2)%nat
               /\ (forall w3,
                      run_migration E w2 = (Raised WebDriverException, w3) ->
                      main E w = (Raised WebDriverException, w3))
           | Raised e => main E w = (Raised e, w2)
           end)
  /\ (forall w : World,
        (runs_started (history (snd (main E w)))
         <= runs_started (history w) + 2)%nat).
Proof.
  split.
  - intros w w1 Hrun.
    eexists _, _. split; [apply run_update_chromedriver_run|].
    split; [reflexivity|].
    assert (Hmain : main E w
                    = bind (run_update_chromedriver E) (fun _ => run_migration E) w1).
    { unfold main, try_except. now rewrite Hrun. }
    unfold bind in Hmain. rewrite run_update_chromedriver_run in Hmain.
    destruct (upgrade_at E (clock w1)) as [e|]; [assumption|].
    split; [assumption|]. split.
    + rewrite Hmain, runs_started_run_migration. simpl.
      rewrite runs_started_app. simpl.
      pose proof (runs_started_run_migration w) as Hfirst.
      rewrite Hrun in Hfirst. simpl in Hfirst. rewrite Hfirst.
      change (runs_started [UpgradeRenderer]) with 0%nat. lia.
    + intros w3 Hsecond. now rewrite Hmain.
  - intros w. pose proof (runs_started_run_migration w) as Hfirst.
    unfold main, try_except.
    destruct (run_migration E w) as [[[]|e] w1]; simpl in *; [lia|].
    destruct e; simpl; try lia.
    unfold bind. rewrite run_update_chromedriver_run.
    destruct (upgrade_at E (clock w1)) as [e|]; simpl.
    + rewrite runs_started_app.
      change (runs_started [UpgradeRenderer]) with 0%nat. lia.
    + rewrite runs_started_run_migration. simpl.
      rewrite runs_started_app.
      change (runs_started [UpgradeRenderer]) with 0%nat. lia.
Qed.

(** ** Skipping *)

Lemma is_post_migrated_true url w :
  is_post_migrated url w = (Ok true, w) -> in_ledger url w = true.
Proof.
  unfold is_post_migrated, bind, get_world, in_ledger, ledger_rows.
  destruct (migrated_posts_db w); simpl; intros Hm; now inversion Hm.
Qed.

Lemma in_ledger_table url w : in_ledger url w = true -> migrated_posts_db w <> None.
Proof.
  unfold in_ledger, ledger_rows. destruct (migrated_posts_db w); discriminate.
Qed.

(** The loop body removes nothing from the ledger. *)
Lemma in_ledger_run_migration_post post url w :
  in_ledger url w = true ->
  in_ledger url (snd (run_migration_post E post w)) = true.
Proof.
  intros Hin.
  destruct (ledger_step_run_migration_post E post w (in_ledger_table url w Hin))
    as [t [_ [_ [Hled _]]]].
  apply Hled. now left.
Qed.

(** C2 (skip invariant).  For a post whose url [is_post_migrated] finds in
    the ledger, the loop body returns and leaves the world as it was: no
    stage is called, nothing is recorded in the history, no store is
    written.  The loop over the discovered posts goes on to the next post,
    and ends as if the post had not been discovered. *)
Theorem skip_invariant (post : PostRef) (w : World) :
  is_post_migrated (ref_url post) w = (Ok true, w) ->
  run_migration_post E post w = (Ok tt, w)
  /\ (forall after,
         for_each (post :: after) (run_migration_post E) w
         = for_each after (run_migration_post E) w)
  /\ (forall before after,
         for_each (before ++ post :: after) (run_migration_post E) w
         = for_each (before ++ after) (run_migration_post E) w).
Proof.
  intros Hm. apply is_post_migrated_true in Hm.
  split; [now apply run_migration_post_skip|].
  assert (Hnext : forall w0 after, in_ledger (ref_url post) w0 = true ->
            for_each (post :: after) (run_migration_post E) w0
            = for_each after (run_migration_post E) w0).
  { intros w0 after Hw0. simpl. unfold bind.
    now rewrite (run_migration_post_skip E post w0 Hw0). }
  split; [intros after; now apply Hnext|].
  intros before. revert w Hm.
  induction before as [|p before IH]; intros w Hm after; [now apply Hnext|].
  simpl. unfold bind.
  pose proof (in_ledger_run_migration_post p (ref_url post) w Hm) as Hstill.
  destruct (run_migration_post E p w) as [[[]|e] w1]; simpl in *; [|reflexivity].
  now apply IH.
Qed.

End RunEvents.

(** ** The transform stage *)

Section Transform.

Context {U : UnicodeData} {H : HtmlLibrary} (E : Env).

Lemma getitem_raises attrs key e : getitem attrs key = Raised e -> e = KeyError key.
Proof.
  induction attrs as [|[k v] attrs IH]; simpl.
  - intros Hr. now inversion Hr.
  - destruct (pystr_eqb k key); [discriminate | assumption].
Qed.

Lemma has_src_dec img : has_src img \/ ~ has_src img.
Proof.
  unfold has_src. destruct (getitem (snd img) (str "src")) as [v|e] eqn:Hg.
  - left. now exists v.
  - right. intros [v Hv]. discriminate.
Qed.

Lemma collect_img_links_complete imgs w :
  Forall has_src imgs ->
  exists img_links, collect_img_links imgs w = (Ok img_links, w).
Proof.
  induction 1 as [|[cls attrs] imgs [src Hsrc] Himgs [links IH]]; simpl.
  - now exists [].
  - simpl in Hsrc. rewrite Hsrc. unfold bind. rewrite IH.
    now exists (src :: links).
Qed.

Lemma collect_img_links_missing imgs w :
  Exists (fun img => ~ has_src img) imgs ->
  collect_img_links imgs w = (Raised (KeyError (str "src")), w).
Proof.
  induction imgs as [|[cls attrs] imgs IH]; intros Hex; [inversion Hex|].
  simpl. destruct (getitem attrs (str "src")) as [src|e] eqn:Hg.
  - unfold bind. rewrite IH; [reflexivity|].
    inversion Hex as [? ? Hhere|]; subst; [|assumption].
    exfalso. apply Hhere. now exists src.
  - apply getitem_raises in Hg. now subst.
Qed.

Lemma collect_img_links_empty w : collect_img_links [] w = (Ok [], w).
Proof. reflexivity. Qed.

Lemma all_or_one_without_src
      (imgs : list (option (list pystr) * list (pystr * pystr))) :
  Forall has_src imgs \/ Exists (fun img => ~ has_src img) imgs.
Proof.
  induction imgs as [|img imgs [IH|IH]].
  - left. constructor.
  - destruct (has_src_dec img) as [Hi|Hi].
    + left. now constructor.
    + right. now left.
  - right. now right.
Qed.

(** *** Running the loop body *)

Lemma bind_ok {A B} (m : M A) (k : A -> M B) w a w1 :
  m w = (Ok a, w1) -> bind m k w = k a w1.
Proof. intros Hm. unfold bind. now rewrite Hm. Qed.

Lemma bind_raised {A B} (m : M A) (k : A -> M B) w e w1 :
  m w = (Raised e, w1) -> bind m k w = (Raised e, w1).
Proof. intros Hm. unfold bind. now rewrite Hm. Qed.

Lemma is_post_migrated_false url w :
  is_post_migrated url w = (Ok false, w) ->
  in_ledger url w = false /\ migrated_posts_db w <> None.
Proof.
  unfold is_post_migrated, bind, get_world, in_ledger, ledger_rows.
  destruct (migrated_posts_db w); simpl; intros Hm; inversion Hm.
  split; [reflexivity | discriminate].
Qed.

Lemma scrape_post_content_rendered url w title date content images :
  post_page_at E (clock w) url = Rendered (Some (title, date, content, images)) ->
  scrape_post_content E url w
  = (Ok (Some {| post_url := url; post_title := title;
                 post_content_html := content;
                 post_date := date; post_images := images |}),
     set_clock (S (clock w)) w).
Proof.
  intros Hpage. unfold scrape_post_content, bind, tick. simpl. now rewrite Hpage.
Qed.

(** With the cache open, [save_post] returns, whether or not the url was
    cached before, and touches nothing but the cache. *)
Lemma save_post_returns post w :
  temp_db w <> None ->
  exists d, save_post post w = (Ok tt, set_temp_db d w).
Proof.
  intros Ht. unfold save_post, try_except, temp_insert, bind, get_world.
  destruct (temp_db w) as [rs|] eqn:Hrs; [clear Ht|congruence]. simpl.
  destruct (existsb _ rs); simpl.
  - exists (Some rs). destruct w; simpl in *. now subst.
  - eexists. reflexivity.
Qed.

Lemma TempStorage_returns w :
  exists rs, TempStorage w = (Ok tt, set_temp_db (Some rs) w).
Proof.
  unfold TempStorage, modify. destruct (temp_db w) as [rs|] eqn:Ht.
  - exists rs. destruct w; simpl in *. now subst.
  - now exists [].
Qed.

Lemma format_post_content_rejected post e w :
  strptime (post_date post) = Raised e ->
  format_post_content E post w
  = (Raised (ValueError (str "Date format must be like 'March 27, 2025'")), w).
Proof.
  intros Hd. unfold format_post_content.
  apply bind_raised. now apply (format_post_date_rejected E _ e).
Qed.

Lemma format_post_content_no_image post d w :
  strptime (post_date post) = Ok d ->
  find_all (str "img") (BeautifulSoup (post_content_html post)) = [] ->
  format_post_content E post w
  = (Ok {| payload_date :=
             strftime (replace_time d
                         (6 + random_at E (clock w) mod 18)
                         (0 + random_at E (S (clock w)) mod 60)
                         (0 + random_at E (S (S (clock w))) mod 60));
           payload_title := post_title post;
           payload_content :=
             wrap_content
               (soup_to_str
                  (map add_img_classes (BeautifulSoup (post_content_html post))));
           payload_featured_media := None |},
     set_clock (S (S (S (clock w)))) w).
Proof.
  intros Hd Himg. unfold format_post_content.
  rewrite (bind_ok (format_post_date E (post_date post)) _ w _ _
             (format_post_date_accepted E _ d w Hd)).
  rewrite Himg. reflexivity.
Qed.

(** What [format_post_content] does up to the images, when one of them
    has no [src]. *)
Lemma format_post_content_missing_src post w :
  Exists (fun img => ~ has_src img)
         (find_all (str "img") (BeautifulSoup (post_content_html post))) ->
  exists e, fst (format_post_content E post w) = Raised e
    /\ (forall d, strptime (post_date post) = Ok d -> e = KeyError (str "src")).
Proof.
  intros Hex. unfold format_post_content. unfold bind at 1.
  destruct (strptime (post_date post)) as [d|e] eqn:Hd.
  - rewrite (format_post_date_accepted E _ d w Hd).
    unfold bind at 1. rewrite collect_img_links_missing by assumption.
    eexists. split; [reflexivity|]. reflexivity.
  - rewrite (format_post_date_rejected E _ e w Hd).
    eexists. split; [reflexivity|]. discriminate.
Qed.

(** C9 (every image needs a src).  [format_post_content] returns a payload
    only for a post in whose parsed content every [img] tag has a [src]
    attribute.  The loop that collects the links raises the [KeyError] of
    the lookup of [src] as soon as one tag has none: the image is not
    skipped.  For such a post the function raises, and with a well-formed
    date what it raises is this [KeyError]. *)
Theorem format_post_content_requires_src (post : FullPost) (w : World) :
  (forall payload w',
      format_post_content E post w = (Ok payload, w') ->
      Forall has_src
             (find_all (str "img") (BeautifulSoup (post_content_html post))))
  /\ (forall imgs,
         Exists (fun img => ~ has_src img) imgs ->
         collect_img_links imgs w = (Raised (KeyError (str "src")), w))
  /\ (Exists (fun img => ~ has_src img)
             (find_all (str "img") (BeautifulSoup (post_content_html post))) ->
      exists e,
        fst (format_post_content E post w) = Raised e
        /\ (forall d, strptime (post_date post) = Ok d ->
                      e = KeyError (str "src"))).
Proof.
  split; [|split; [intros imgs; apply collect_img_links_missing
                  |apply format_post_content_missing_src]].
  intros payload w' Hok.
  destruct (all_or_one_without_src
              (find_all (str "img") (BeautifulSoup (post_content_html post))))
    as [Hall|Hex]; [assumption|].
  destruct (format_post_content_missing_src post w Hex) as [e [He _]].
  rewrite Hok in He. discriminate.
Qed.

(** C7 (no featured image).  On an empty list of image urls
    [process_image_links] returns the dictionary whose [featured_media] is
    the empty path, without raising and without touching the world;
    [upload_featured_image] finds no file at the empty path and returns
    [None], again without a request.  Hence, for a post with a well-formed
    date and no image in its content, [format_post_content] returns a
    payload without featured media and records no request, and
    [upload_post] then sends this payload, [featured_media] absent, to the
    endpoint that creates posts. *)
Theorem featured_image_absence :
  (forall title w,
      process_image_links E [] title w
      = (Ok {| featured_media := Some []; content_images := Some [] |}, w))
  /\ (forall w, upload_featured_image E (Some []) w = (Ok None, w))
  /\ (forall post d w,
         strptime (post_date post) = Ok d ->
         find_all (str "img") (BeautifulSoup (post_content_html post)) = [] ->
         exists payload w',
           format_post_content E post w = (Ok payload, w')
           /\ payload_featured_media payload = None
           /\ history w' = history w
           /\ exists sent,
               history (snd (upload_post E payload w'))
               = history w ++ [HttpPostPost sent]
               /\ req_featured_media sent = None
               /\ req_title sent = post_title post).
Proof.
  split; [reflexivity|]. split; [reflexivity|].
  intros post d w Hd Himg.
  eexists _, _. split; [apply (format_post_content_no_image post d w Hd Himg)|].
  split; [reflexivity|]. split; [reflexivity|].
  eexists. split.
  - unfold upload_post, bind, emit, modify, tick. simpl.
    destruct (post_response_at E _); reflexivity.
  - split; reflexivity.
Qed.

(** The loop body on a post whose date is malformed. *)
Lemma run_migration_post_malformed_date post w title date content images e :
  is_post_migrated (ref_url post) w = (Ok false, w) ->
  temp_db w <> None ->
  post_page_at E (clock w) (ref_url post)
  = Rendered (Some (title, date, content, images)) ->
  strptime date = Raised e ->
  exists w',
    run_migration_post E post w
    = (Raised (ValueError (str "Date format must be like 'March 27, 2025'")), w')
    /\ history w'
       = history w ++ [Extract (ref_url post); Cache (ref_url post);
                       Transform (ref_url post)]
    /\ migrated_posts_db w' = migrated_posts_db w.
Proof.
  intros Hm Htemp Hpage Hd. unfold run_migration_post.
  rewrite (bind_ok (is_post_migrated (ref_url post)) _ w _ _ Hm).
  set (w1 := set_history (history w ++ [Extract (ref_url post)]) w).
  rewrite (bind_ok (emit _) _ w tt w1 eq_refl).
  rewrite (bind_ok (scrape_post_content E (ref_url post)) _ w1 _ _
             (scrape_post_content_rendered _ w1 _ _ _ _ Hpage)).
  set (w2 := set_clock (S (clock w1)) w1).
  set (w3 := set_history (history w2 ++ [Cache (ref_url post)]) w2).
  rewrite (bind_ok (emit _) _ w2 tt w3 eq_refl).
  destruct (save_post_returns
              {| post_url := ref_url post; post_title := title;
                 post_content_html := content; post_date := date;
                 post_images := images |} w3 Htemp) as [dt Hsave].
  rewrite (bind_ok (save_post _) _ w3 _ _ Hsave).
  set (w4 := set_temp_db dt w3).
  set (w5 := set_history (history w4 ++ [Transform (ref_url post)]) w4).
  rewrite (bind_ok (emit _) _ w4 tt w5 eq_refl).
  rewrite (bind_raised (format_post_content E _) _ w5 _ _
             (format_post_content_rejected
                {| post_url := ref_url post; post_title := title;
                   post_content_html := content; post_date := date;
                   post_images := images |} e w5 Hd)).
  exists w5. split; [reflexivity|]. split; [|reflexivity].
  simpl. now rewrite <- !app_assoc.
Qed.

(** A date the parser rejects makes the transform raise [ValueError] with
    the message of [format_post_date].  Nothing catches it: the loop body
    raises it, the loop stops at this post whatever posts follow, and when
    the post is the first one discovered the run and the invocation end
    with this exception, after the extraction, the caching and the start
    of the transform of this post and nothing else.  The ledger gets no
    record. *)
Lemma malformed_date_first_post
    (post : PostRef) (after : list PostRef) (title date content : pystr)
    (imgs : list pystr) (e : exn) :
  strptime date = Raised e ->
  (forall w, format_post_date E date w = (Raised date_format_error, w))
  /\ (forall w,
         is_post_migrated (ref_url post) w = (Ok false, w) ->
         temp_db w <> None ->
         post_page_at E (clock w) (ref_url post)
         = Rendered (Some (title, date, content, imgs)) ->
         exists w',
           run_migration_post E post w = (Raised date_format_error, w')
           /\ for_each (post :: after) (run_migration_post E) w
              = (Raised date_format_error, w')
           /\ history w'
              = history w ++ [Extract (ref_url post); Cache (ref_url post);
                              Transform (ref_url post)]
           /\ migrated_posts_db w' = migrated_posts_db w)
  /\ (forall w,
         homepage_at E (clock w) = Rendered (post :: after) ->
         in_ledger (ref_url post) w = false ->
         post_page_at E (S (clock w)) (ref_url post)
         = Rendered (Some (title, date, content, imgs)) ->
         exists w',
           run_migration E w = (Raised date_format_error, w')
           /\ main E w = (Raised date_format_error, w')
           /\ history w'
              = history w ++ [RunStarted; Discover; Extract (ref_url post);
                              Cache (ref_url post); Transform (ref_url post)]
           /\ ledger_rows w' = ledger_rows w).
Proof.
  intros Hd. split; [|split].
  - intros w. apply (format_post_date_rejected E _ e w Hd).
  - intros w Hm Htemp Hpage.
    destruct (run_migration_post_malformed_date post w _ _ _ _ e Hm Htemp Hpage Hd)
      as [w' [Hrun [Hh Hdb]]].
    exists w'. split; [assumption|]. split; [|split; assumption].
    simpl. now apply bind_raised.
  - intros w Hhome Hled Hpage.
    set (w1 := set_clock (S (clock w))
                 (set_history (history (prepared w) ++ [Discover]) (prepared w))).
    assert (Hclock : clock (prepared w) = clock w).
    { unfold prepared, remove_stale_temp_db, temp_db_exists, remove_temp_db,
        initialize_db, emit, modify, bind, get_world, ret.
      destruct w as [c db tdb fs h]. destruct tdb, db; reflexivity. }
    assert (Hscrape : scrape_homepage E (prepared w) = (Ok (post :: after), w1)).
    { unfold scrape_homepage, bind, emit, modify, tick. simpl.
      rewrite Hclock, Hhome. reflexivity. }
    destruct (TempStorage_returns w1) as [rs Hstore].
    set (w2 := set_temp_db (Some rs) w1) in *.
    assert (Hh2 : history w2 = history (prepared w) ++ [Discover]) by reflexivity.
    assert (Hc2 : clock w2 = S (clock w)) by reflexivity.
    assert (Hdb2 : migrated_posts_db w2 = migrated_posts_db (prepared w))
      by reflexivity.
    assert (Ht2 : temp_db w2 <> None) by discriminate.
    assert (Hm : is_post_migrated (ref_url post) w2 = (Ok false, w2)).
    { pose proof (migrated_posts_db_prepared w) as Hsome.
      pose proof (ledger_rows_prepared w) as Hrows.
      unfold is_post_migrated, bind, get_world. rewrite Hdb2.
      unfold in_ledger, ledger_rows in *.
      destruct (migrated_posts_db (prepared w)); [|congruence].
      simpl. now rewrite Hrows, Hled. }
    rewrite <- Hc2 in Hpage.
    destruct (run_migration_post_malformed_date post w2 _ _ _ _ e Hm Ht2 Hpage Hd)
      as [w' [Hrun [Hh Hdb]]].
    assert (Hfail : run_migration E w = (Raised date_format_error, w')).
    { rewrite run_migration_prepared. unfold run_migration_rest.
      rewrite (bind_ok (scrape_homepage E) _ (prepared w) _ _ Hscrape).
      rewrite (bind_ok TempStorage _ w1 tt w2 Hstore).
      apply bind_raised. simpl. now apply bind_raised. }
    exists w'. split; [assumption|]. split; [|split].
    + unfold main, try_except. now rewrite Hfail.
    + rewrite Hh, Hh2, history_prepared. now rewrite <- !app_assoc.
    + unfold ledger_rows. rewrite Hdb, Hdb2.
      apply ledger_rows_prepared.
Qed.

End Transform.

(** ** File names *)

Section Filenames.

Context {U : UnicodeData} {H : HtmlLibrary} (E : Env).

Lemma ascii_stage_event e : stage_event e -> ascii_media_request e.
Proof. destruct e; simpl; auto. Qed.

Lemma ascii_run_event e : run_event e -> ascii_media_request e.
Proof. destruct e; simpl; auto. Qed.

Lemma ascii_upload_featured_image image_path :
  respects (extends_by ascii_media_request) (upload_featured_image E image_path).
Proof.
  apply respects_upload_featured_image with (allowed := ascii_media_request).
  - apply extends_by_refl.
  - apply extends_by_trans.
  - intros. now apply extends_by_same_history.
  - intros. now apply extends_by_event.
  - apply ascii_stage_event.
Qed.

Lemma ascii_run_migration w :
  extends_by ascii_media_request w (snd (run_migration E w)).
Proof.
  destruct (history_run_migration E w) as [t [Hh Ht]].
  exists (RunStarted :: t). split; [assumption|].
  constructor; [exact I|].
  eapply Forall_impl; [apply ascii_run_event | assumption].
Qed.

(** C10 (file names are ASCII).  [safe_filename] returns ASCII code points
    only, whatever its argument, and, normalization leaving ASCII strings
    alone, returns an ASCII argument as it is.
    Hence every request that [upload_featured_image], a run or a whole
    invocation sends to the media endpoint names its file, in the
    [Content-Disposition] header, in ASCII. *)
Theorem safe_filename_ascii :
  (forall name, forallb is_ascii (safe_filename name) = true)
  /\ (NFKD_fixes_ascii ->
      forall name, forallb is_ascii name = true -> safe_filename name = name)
  /\ (forall image_path w,
         exists t,
           history (snd (upload_featured_image E image_path w)) = history w ++ t
           /\ Forall ascii_media_request t)
  /\ (forall w,
         exists t,
           history (snd (main E w)) = history w ++ t
           /\ Forall ascii_media_request t).
Proof.
  split; [apply safe_filename_is_ascii|].
  split; [|split].
  - intros Hnfkd name Hname. unfold safe_filename.
    rewrite (Hnfkd name Hname). now apply filter_all.
  - intros image_path w. apply ascii_upload_featured_image.
  - intros w. change (extends_by ascii_media_request w (snd (main E w))).
    unfold main, try_except.
    pose proof (ascii_run_migration w) as Hfirst.
    destruct (run_migration E w) as [[[]|e] w1]; simpl in *; [assumption|].
    destruct e; simpl; try assumption.
    eapply extends_by_trans; [eassumption|].
    unfold bind. rewrite run_update_chromedriver_run.
    set (w2 := set_clock _ _).
    assert (Hup : extends_by ascii_media_request w1 w2).
    { exists [UpgradeRenderer]. split; [reflexivity | repeat constructor]. }
    destruct (upgrade_at E (clock w1)); simpl; [assumption|].
    eapply extends_by_trans; [eassumption | apply ascii_run_migration].
Qed.

End Filenames.

(** * Examples, on the sample site *)

(** A run on the site whose only post is well formed: the post is
    extracted, cached, transformed, published and recorded. *)
Example run_second_only :
  history (snd (run_migration (U := sample_unicode) (H := sample_html)
                  second_only_env initial_world))
  = [RunStarted; Discover;
     Extract (ref_url second_post); Cache (ref_url second_post);
     Transform (ref_url second_post);
     HttpPostPost
       {| req_date := str "2025-03-27T08:03:04";
          req_title := str "Second";
          req_content := wrap_content (str "<p>Hello");
          req_author := 2; req_categories := [29%Z];
          req_status := str "publish";
          req_featured_media := None |};
     Publish (ref_url second_post) true; Record_ (ref_url second_post)].
Proof. reflexivity. Qed.

(** Marking twice advances [sqlite_sequence] and nothing else. *)
Example mark_twice :
  migrated_posts_db
    (snd (mark_post_as_migrated (ref_url first_post) migrated_world))
  = Some {| rows := [{| row_id := 1; row_url := ref_url first_post;
                        row_featured_image := None;
                        row_wp_post_id := None |}];
            sqlite_sequence := Some 2%Z |}.
Proof. reflexivity. Qed.

Lemma mark_post_as_migrated_idempotent_witness :
  (migrated_posts_db migrated_world <> None /\ url_unique migrated_world)
  /\ exists w1 w2,
      mark_post_as_migrated (ref_url second_post) migrated_world = (Ok tt, w1)
      /\ is_post_migrated (ref_url second_post) w1 = (Ok true, w1)
      /\ mark_post_as_migrated (ref_url second_post) w1 = (Ok tt, w2)
      /\ ledger_rows w2 = ledger_rows w1
      /\ is_post_migrated (ref_url second_post) w2 = (Ok true, w2)
      /\ records_for (ref_url second_post) w2 = 1%nat.
Proof.
  assert (Hdb : migrated_posts_db migrated_world <> None) by discriminate.
  assert (Hu : url_unique migrated_world).
  { unfold url_unique. simpl. repeat constructor. simpl. tauto. }
  split; [now split|].
  exact (mark_post_as_migrated_idempotent migrated_world (ref_url second_post) Hdb Hu).
Defined.

Lemma delete_migrated_posts_resets_witness :
  migrated_posts_db migrated_world <> None
  /\ exists w1,
      delete_migrated_posts migrated_world = (Ok tt, w1)
      /\ (forall u, is_post_migrated u w1 = (Ok false, w1))
      /\ (forall v, exists w2,
             mark_post_as_migrated v w1 = (Ok tt, w2)
             /\ ledger_rows w2 = [{| row_id := 1; row_url := v;
                                     row_featured_image := None;
                                     row_wp_post_id := None |}])
      /\ new_rowid {| rows := []; sqlite_sequence := None |} = 1%Z.
Proof.
  assert (Hdb : migrated_posts_db migrated_world <> None) by discriminate.
  split; [assumption|].
  exact (delete_migrated_posts_resets migrated_world Hdb).
Defined.

Lemma skip_invariant_witness :
  is_post_migrated (ref_url first_post) migrated_world = (Ok true, migrated_world)
  /\ run_migration_post (U := sample_unicode) (H := sample_html)
       sample_env first_post migrated_world
     = (Ok tt, migrated_world).
Proof.
  split; [reflexivity|].
  exact (proj1 (skip_invariant (U := sample_unicode) (H := sample_html)
                  sample_env first_post migrated_world eq_refl)).
Defined.


(** C3, as it is stated, fails on the sample site: the first post has the
    date "13/45/2025", and the invocation ends with the [ValueError] of the
    transform; the second post, which a run on a site without the first
    publishes, is not even extracted. *)
Lemma malformed_date_not_contained :
  homepage_at sample_env 0 = Rendered [first_post; second_post]
  /\ fst (main (U := sample_unicode) (H := sample_html) sample_env initial_world)
     = Raised date_format_error
  /\ ~ In (Extract (ref_url second_post))
          (history (snd (main (U := sample_unicode) (H := sample_html)
                           sample_env initial_world)))
  /\ In (Extract (ref_url second_post))
        (history (snd (main (U := sample_unicode) (H := sample_html)
                         second_only_env initial_world))).
Proof.
  split; [reflexivity|]. split; [reflexivity|]. split.
  - vm_compute. intuition discriminate.
  - vm_compute. tauto.
Qed.

(** On the sample site with a driver that never starts, the invocation
    starts two runs and ends with the failure of the second. *)
Example main_broken_driver :
  fst (main (U := sample_unicode) (H := sample_html)
         broken_driver_env initial_world)
  = Raised WebDriverException
  /\ history (snd (main (U := sample_unicode) (H := sample_html)
                     broken_driver_env initial_world))
     = [RunStarted; Discover; UpgradeRenderer; RunStarted; Discover].
Proof. split; reflexivity. Qed.

Lemma featured_image_absence_witness :
  (strptime (U := sample_unicode) (post_date second_full_post)
   = Ok {| year := 2025; month := 3; day := 27;
           hour := 0; minute := 0; second := 0 |}
   /\ find_all (str "img")
        (BeautifulSoup (HtmlLibrary := sample_html)
           (post_content_html second_full_post)) = [])
  /\ exists payload w',
      format_post_content (U := sample_unicode) (H := sample_html)
        sample_env second_full_post initial_world
      = (Ok payload, w')
      /\ payload_featured_media payload = None
      /\ history w' = history initial_world
      /\ exists sent,
          history (snd (upload_post sample_env payload w'))
          = history initial_world ++ [HttpPostPost sent]
          /\ req_featured_media sent = None
          /\ req_title sent = post_title second_full_post.
Proof.
  split; [split; reflexivity|].
  exact (proj2 (proj2 (featured_image_absence (U := sample_unicode)
                         (H := sample_html) sample_env))
           second_full_post _ initial_world eq_refl eq_refl).
Defined.

Lemma format_post_content_requires_src_witness :
  Exists (fun img => ~ has_src img)
         (find_all (str "img")
            (BeautifulSoup (HtmlLibrary := sample_html)
               (post_content_html post_without_src)))
  /\ exists e,
      fst (format_post_content (U := sample_unicode) (H := sample_html)
             sample_env post_without_src initial_world)
      = Raised e
      /\ (forall d,
             strptime (U := sample_unicode) (post_date post_without_src) = Ok d ->
             e = KeyError (str "src")).
Proof.
  assert (Hex : Exists (fun img => ~ has_src img)
                  (find_all (str "img")
                     (BeautifulSoup (HtmlLibrary := sample_html)
                        (post_content_html post_without_src)))).
  { left. intros [src Hsrc]. discriminate Hsrc. }
  split; [assumption|].
  exact (proj2 (proj2 (format_post_content_requires_src (U := sample_unicode)
                         (H := sample_html) sample_env post_without_src
                         initial_world))
           Hex).
Defined.

(** The transform of the post raises the [KeyError]. *)
Example format_post_without_src :
  fst (format_post_content (U := sample_unicode) (H := sample_html)
         sample_env post_without_src initial_world)
  = Raised (KeyError (str "src")).
Proof. reflexivity. Qed.

Lemma safe_filename_ascii_witness :
  (NFKD_fixes_ascii (U := sample_unicode)
   /\ forallb is_ascii (str "Second_featured_media.jpg") = true)
  /\ safe_filename (U := sample_unicode) (str "Second_featured_media.jpg")
     = str "Second_featured_media.jpg".
Proof.
  split; [split; [exact sample_NFKD_fixes_ascii | reflexivity]|].
  exact (proj1 (proj2 (safe_filename_ascii (U := sample_unicode)
                         (H := sample_html) sample_env))
           sample_NFKD_fixes_ascii
           (str "Second_featured_media.jpg") eq_refl).
Defined.

Lemma format_post_date_march_27_witness :
  ascii_date_characters (U := sample_unicode)
  /\ exists hh mm ss : Z,
      fst (format_post_date (U := sample_unicode) sample_env
             (str "March 27, 2025") initial_world)
      = Ok (str "2025-03-27T" ++ two_digits hh ++ str ":"
            ++ two_digits mm ++ str ":" ++ two_digits ss)
      /\ (6 <= hh <= 23)%Z /\ (0 <= mm <= 59)%Z /\ (0 <= ss <= 59)%Z.
Proof.
  split; [exact sample_ascii_date_characters|].
  exact (format_post_date_march_27 (U := sample_unicode) sample_env
           sample_ascii_date_characters initial_world).
Defined.

(** The draw of the sample environment gives 06:01:02. *)
Example format_post_date_sample :
  fst (format_post_date (U := sample_unicode) sample_env
         (str "March 27, 2025") initial_world)
  = Ok (str "2025-03-27T06:01:02").
Proof. reflexivity. Qed.

(** Dates that the parser reads or refuses as the library does. *)
Example strptime_samples :
  strptime (U := sample_unicode) (str "march  7, 2025")
  = Ok {| year := 2025; month := 3; day := 7;
          hour := 0; minute := 0; second := 0 |}
  /\ strptime (U := sample_unicode) (str "March 27, 20255")
     = Raised (ValueError (str "unconverted data remains"))
  /\ strptime (U := sample_unicode) (str "March 27,2025")
     = Raised (ValueError (str "time data does not match format"))
  /\ strptime (U := sample_unicode) (str "February 30, 2025")
     = Raised (ValueError (str "day or year is out of range"))
  /\ strptime (U := sample_unicode) (str "March 27, 0000")
     = Raised (ValueError (str "day or year is out of range"))
  /\ strptime (U := sample_unicode) (str "March 35, 2025")
     = Raised (ValueError (str "time data does not match format"))
  /\ strptime (U := sample_unicode)
       (str "March 2" ++ [1639%N] ++ str "," ++ [160%N] ++ str "2025")
     = Ok {| year := 2025; month := 3; day := 27;
             hour := 0; minute := 0; second := 0 |}.
Proof. repeat split. Qed.

(** A name with an accent and a ligature: the letters stay, the combining
    accent goes. *)
Example safe_filename_accent :
  safe_filename (U := sample_unicode) [99; 97; 102; 233; 46; 64257]%N
  = str "cafe.fi".
Proof. reflexivity. Qed.

(** * Further properties *)

(** ** The ledger: initialisation, frame and identifiers *)

Section LedgerMore.

Implicit Types (w : World) (u v : pystr).

(** X1.  Without the table the three operations of the ledger raise
    [OperationalError] and change nothing.  [initialize_db] always returns;
    after it the query answers, for every url, whether the url was in the
    ledger before; it keeps the rows, and on an initialised ledger it
    changes nothing. *)
Theorem ledger_operations_need_the_table w u :
  (migrated_posts_db w = None ->
   is_post_migrated u w = (Raised OperationalError, w)
   /\ mark_post_as_migrated u w = (Raised OperationalError, w)
   /\ delete_migrated_posts w = (Raised OperationalError, w))
  /\ exists w1,
      initialize_db w = (Ok tt, w1)
      /\ ledger_rows w1 = ledger_rows w
      /\ is_post_migrated u w1 = (Ok (in_ledger u w), w1)
      /\ initialize_db w1 = (Ok tt, w1)
      /\ (migrated_posts_db w <> None -> w1 = w).
Proof.
  split.
  - intros Hdb.
    unfold is_post_migrated, mark_post_as_migrated, delete_migrated_posts,
      bind, get_world.
    rewrite Hdb. repeat split.
  - unfold initialize_db, modify, in_ledger, ledger_rows, is_post_migrated,
      bind, get_world.
    destruct (migrated_posts_db w) as [t|] eqn:Hdb.
    + exists w. rewrite Hdb. repeat apply conj; try reflexivity; auto.
    + eexists. split; [reflexivity|]. simpl. rewrite ?Hdb.
      repeat apply conj; try reflexivity; congruence.
Qed.

(** X2.  [mark_post_as_migrated u] changes the answer of the query for [u]
    only: after it a url is in the ledger when it was before, or when it is
    [u] and the table exists.  It appends at most one row, for [u] and with
    NULLs, and touches nothing but the ledger. *)
Theorem mark_post_as_migrated_other_urls w u v :
  in_ledger v (snd (mark_post_as_migrated u w))
  = in_ledger v w
    || match migrated_posts_db w with
       | Some _ => pystr_eqb u v
       | None => false
       end
  /\ (exists added,
        ledger_rows (snd (mark_post_as_migrated u w)) = ledger_rows w ++ added
        /\ (List.length added <= 1)%nat
        /\ Forall (fun r => row_url r = u /\ url_only r) added)
  /\ clock (snd (mark_post_as_migrated u w)) = clock w
  /\ temp_db (snd (mark_post_as_migrated u w)) = temp_db w
  /\ files (snd (mark_post_as_migrated u w)) = files w
  /\ history (snd (mark_post_as_migrated u w)) = history w.
Proof.
  unfold mark_post_as_migrated, bind, get_world, modify, in_ledger, ledger_rows.
  destruct (migrated_posts_db w) as [t|] eqn:Hdb; simpl; rewrite ?Hdb.
  - split; [apply url_in_insert_or_ignore|].
    split; [|repeat split].
    unfold insert_or_ignore. destruct (url_in u (rows t)); simpl.
    + exists []. rewrite app_nil_r. repeat split; auto.
    + eexists. split; [reflexivity|]. split; [simpl; lia|].
      repeat constructor.
  - split; [reflexivity|].
    split; [|repeat split].
    exists []. repeat split; auto.
Qed.

Lemma StronglySorted_snoc (l : list Z) (x : Z) :
  StronglySorted Z.lt l -> Forall (fun y => (y < x)%Z) l ->
  StronglySorted Z.lt (l ++ [x]).
Proof.
  induction 1 as [|y l Hl IH Hy]; intros Hx; simpl.
  - repeat constructor.
  - inversion Hx; subst. constructor; [auto|].
    apply Forall_app. split; [assumption | repeat constructor; assumption].
Qed.

Lemma StronglySorted_NoDup (l : list Z) : StronglySorted Z.lt l -> NoDup l.
Proof.
  induction 1 as [|y l Hl IH Hy]; constructor; [|assumption].
  intros Hin. rewrite Forall_forall in Hy. specialize (Hy _ Hin). lia.
Qed.

Lemma max_rowid_nonneg (rs : list Row) : (0 <= max_rowid rs)%Z.
Proof. induction rs as [|r rs IH]; simpl; lia. Qed.

Lemma insert_or_ignore_ids (u : pystr) (t : posts_table) :
  StronglySorted Z.lt (map row_id (rows t)) ->
  Forall (fun r => (0 < row_id r <= sequence_value t)%Z) (rows t) ->
  StronglySorted Z.lt (map row_id (rows (insert_or_ignore u t)))
  /\ Forall (fun r => (0 < row_id r <= sequence_value (insert_or_ignore u t))%Z)
            (rows (insert_or_ignore u t))
  /\ Forall (fun r => (row_id r < new_rowid t)%Z) (rows t)
  /\ (sequence_value t < new_rowid t)%Z.
Proof.
  intros Hsorted Hbound.
  assert (Hnew : (sequence_value t < new_rowid t)%Z).
  { unfold new_rowid, sequence_value. destruct (sequence_value t); lia. }
  assert (Hbelow : Forall (fun r => (row_id r < new_rowid t)%Z) (rows t)).
  { eapply Forall_impl; [|exact Hbound]. simpl. intros r Hr. lia. }
  assert (Hkeep : Forall (fun r => (0 < row_id r <= new_rowid t)%Z) (rows t)).
  { eapply Forall_impl; [|exact Hbound]. simpl. intros r Hr. lia. }
  split; [|split; [|split; assumption]];
    unfold insert_or_ignore; destruct (url_in u (rows t)); simpl; try assumption.
  - rewrite map_app. apply StronglySorted_snoc; [assumption|].
    apply Forall_map. assumption.
  - apply Forall_app. split; [assumption|].
    constructor; [|constructor]. unfold sequence_value. simpl.
    pose proof (max_rowid_nonneg (rows t)). unfold new_rowid in *. lia.
Qed.

(** X3.  The identifiers of the ledger grow along its rows, are positive
    and stay below the value kept in [sqlite_sequence]: an invariant of the
    three operations that write the ledger.  Hence no two rows share an
    identifier, and the identifier of a row that [mark_post_as_migrated]
    inserts is larger than every identifier of the table and than the value
    kept so far, also after inserts that were ignored. *)
Theorem ledger_identifiers_ascend w u :
  ids_ascending w ->
  ids_ascending (snd (mark_post_as_migrated u w))
  /\ ids_ascending (snd (initialize_db w))
  /\ ids_ascending (snd (delete_migrated_posts w))
  /\ NoDup (map row_id (ledger_rows (snd (mark_post_as_migrated u w))))
  /\ (forall t, migrated_posts_db w = Some t ->
        Forall (fun r => (row_id r < new_rowid t)%Z) (rows t)
        /\ (sequence_value t < new_rowid t)%Z).
Proof.
  unfold ids_ascending, mark_post_as_migrated, initialize_db,
    delete_migrated_posts, bind, get_world, modify, ledger_rows.
  destruct (migrated_posts_db w) as [t|] eqn:Hdb; simpl; rewrite ?Hdb.
  - intros [Hsorted Hbound].
    destruct (insert_or_ignore_ids u t Hsorted Hbound) as [Hs [Hb [Hlt Hseq]]].
    split; [now split|]. split; [now split|].
    split; [split; constructor|].
    split; [now apply StronglySorted_NoDup|].
    intros t' Ht'. inversion Ht'; subst. now split.
  - intros _. split; [exact I|]. split; [split; constructor|].
    split; [exact I|]. split; [constructor|]. discriminate.
Qed.

End LedgerMore.

(** ** The cache *)

(** X4.  With [temp.db] open, [save_post] returns for every post: the
    [IntegrityError] of a url already cached is caught.  After it the url
    of the post is cached; a post whose url is cached leaves the cache as
    it is (the first post saved under a url stays); the urls of the cache
    stay distinct; and nothing but the cache is touched. *)
Theorem save_post_contained (post : FullPost) (w : World) :
  temp_db w <> None ->
  fst (save_post post w) = Ok tt
  /\ cached (post_url post) (snd (save_post post w)) = true
  /\ (cached (post_url post) w = true -> snd (save_post post w) = w)
  /\ (forall url, cached url w = true -> cached url (snd (save_post post w)) = true)
  /\ (temp_urls_unique w -> temp_urls_unique (snd (save_post post w)))
  /\ migrated_posts_db (snd (save_post post w)) = migrated_posts_db w
  /\ history (snd (save_post post w)) = history w.
Proof.
  intros Hopen.
  unfold save_post, try_except, temp_insert, bind, get_world, modify,
    cached, temp_urls_unique.
  destruct (temp_db w) as [rs|] eqn:Hrs; [clear Hopen|congruence]. simpl.
  destruct (existsb (fun r => pystr_eqb (temp_url r) (post_url post)) rs) eqn:Hex;
    simpl; rewrite ?Hrs.
  - repeat apply conj; auto.
  - repeat apply conj; auto.
    + rewrite existsb_app. simpl. rewrite pystr_eqb_refl. apply orb_true_r.
    + discriminate.
    + intros url Hurl. rewrite existsb_app, Hurl. reflexivity.
    + intros Hnd. rewrite map_app. simpl.
      apply NoDup_app; [assumption | repeat constructor; simpl; tauto |].
      intros x Hx [<- | []].
      apply in_map_iff in Hx as [r [Hr Hin]].
      assert (Hsome : existsb (fun r => pystr_eqb (temp_url r) (post_url post)) rs
                      = true).
      { apply existsb_exists. exists r. split; [assumption|].
        now apply pystr_eqb_eq. }
      congruence.
Qed.

(** ** Strings, further *)

Lemma startswith_inv (s p : pystr) :
  startswith s p = true -> exists r, s = p ++ r.
Proof.
  revert s. induction p as [|c p IH]; intros s Hs; [now exists s|].
  destruct s as [|d s]; [discriminate|]. simpl in Hs.
  apply andb_true_iff in Hs as [Hc Hs]. apply N.eqb_eq in Hc. subst d.
  destruct (IH s Hs) as [r ->]. now exists r.
Qed.

Lemma startswith_app (p r : pystr) : startswith (p ++ r) p = true.
Proof.
  induction p as [|c p IH]; simpl; [now destruct r|]. now rewrite N.eqb_refl.
Qed.

Lemma valid_url_no_double_slash (url : pystr) :
  is_valid_url url = true -> startswith url (str "//") = false.
Proof.
  unfold is_valid_url. intros Hv. apply orb_true_iff in Hv.
  destruct Hv as [Hv|Hv]; apply startswith_inv in Hv as [r ->]; reflexivity.
Qed.

(** ** The media pipeline *)

Section MediaPipeline.

Context {U : UnicodeData} (E : Env).

(** X5.  [clean_and_validate_url] accepts every protocol-relative url, to
    which it gives the scheme https, and returns an http or https url as it
    is; it refuses any other string with a [ValueError] that quotes it.  It
    does not touch the world, what it returns is an http or https url, and
    it returns that url unchanged when given it again. *)
Theorem clean_and_validate_url_cases (url : pystr) (w : World) :
  (startswith url (str "//") = true ->
   clean_and_validate_url url w = (Ok (str "https:" ++ url), w))
  /\ (is_valid_url url = true -> clean_and_validate_url url w = (Ok url, w))
  /\ (startswith url (str "//") = false -> is_valid_url url = false ->
      clean_and_validate_url url w
      = (Raised (ValueError (str "Invalid URL format: " ++ url)), w))
  /\ (forall url' w',
         clean_and_validate_url url w = (Ok url', w') ->
         w' = w /\ url' = clean_url url /\ is_valid_url url' = true
         /\ clean_and_validate_url url' w = (Ok url', w)).
Proof.
  assert (Hrel : startswith url (str "//") = true ->
                 is_valid_url (str "https:" ++ url) = true).
  { intros Hs. apply startswith_inv in Hs as [r ->]. unfold is_valid_url.
    change (str "https:" ++ str "//" ++ r) with (str "https://" ++ r).
    rewrite startswith_app. apply orb_true_r. }
  assert (Hvalid : forall u, is_valid_url u = true ->
                     clean_and_validate_url u w = (Ok u, w)).
  { intros u Hu. unfold clean_and_validate_url.
    rewrite (valid_url_no_double_slash u Hu), Hu. reflexivity. }
  split; [|split; [|split]].
  - intros Hs. unfold clean_and_validate_url. rewrite Hs, (Hrel Hs). reflexivity.
  - apply Hvalid.
  - intros Hs Hv. unfold clean_and_validate_url. rewrite Hs, Hv. reflexivity.
  - intros url' w'. unfold clean_and_validate_url, clean_url.
    destruct (startswith url (str "//")) eqn:Hs.
    + pose proof (Hrel eq_refl) as Hv. rewrite Hv. simpl.
      intros Heq. inversion Heq; subst.
      split; [reflexivity|]. split; [reflexivity|]. split; [assumption|].
      now apply Hvalid.
    + destruct (is_valid_url url) eqn:Hv; simpl; intros Heq; inversion Heq; subst.
      split; [reflexivity|]. split; [reflexivity|]. split; [assumption|].
      now apply Hvalid.
Qed.

Lemma read_file_written (fs : list (pystr * list N)) (path : pystr) (data : list N) :
  read_file ((path, data) :: fs) path = Some data.
Proof. simpl. now rewrite pystr_eqb_refl. Qed.

Lemma clean_and_validate_url_run (url : pystr) (w : World) :
  clean_and_validate_url url w
  = if is_valid_url (clean_url url) then (Ok (clean_url url), w)
    else (Raised (ValueError (str "Invalid URL format: " ++ clean_url url)), w).
Proof.
  unfold clean_and_validate_url, clean_url.
  destruct (startswith url (str "//")); destruct (is_valid_url _); reflexivity.
Qed.

(** What [adjust_featured_media] returns and leaves, case by case. *)
Lemma adjust_featured_media_run (url title : pystr) (w : World) :
  adjust_featured_media E url title w
  = if is_valid_url (clean_url url)
    then
      let w1 := set_clock (S (clock w))
                  (set_history (history w ++ [HttpGetImage (clean_url url)]) w) in
      match image_at E (clock w) (clean_url url) with
      | ImageFailed => (Ok None, w1)
      | ImageBadStatus => (Ok None, w1)
      | ImageSaved jpeg optimizer_ran =>
          (Ok (if optimizer_ran then Some (featured_media_path title) else None),
           set_files
             ((featured_media_path title, jpeg)
              :: filter (fun f => negb (pystr_eqb (fst f) (featured_media_path title)))
                        (files w1)) w1)
      end
    else (Ok None, w).
Proof.
  unfold adjust_featured_media, try_except.
  unfold bind at 1. rewrite clean_and_validate_url_run.
  destruct (is_valid_url (clean_url url)); [|reflexivity].
  unfold bind, emit, modify, tick, write_file. simpl.
  destruct (image_at E (clock w) (clean_url url)) as [| |jpeg ran];
    try reflexivity.
  destruct ran; reflexivity.
Qed.

Lemma featured_media_path_no_space (title : pystr) :
  ~ In 32%N (featured_media_path title).
Proof.
  unfold featured_media_path, replace_char. rewrite !in_app_iff.
  intros [Hin|[Hin|Hin]].
  - simpl in Hin. intuition discriminate.
  - apply in_map_iff in Hin as [c [Hc _]].
    destruct (N.eqb_spec c 32); [discriminate | congruence].
  - simpl in Hin. intuition discriminate.
Qed.

(** X6.  [adjust_featured_media] never raises, whatever the url and
    whatever the network, the decoder and the optimizer do.  When it returns
    a path, the url was valid, the image was saved and the optimizer ran;
    the path is "images/", the title with "_featured_media" and every space
    turned into an underscore, and ".jpg"; and the file is there with the
    bytes saved.  The ledger and the cache are not touched. *)
Theorem adjust_featured_media_never_raises (url title : pystr) (w : World) :
  exists r,
    fst (adjust_featured_media E url title w) = Ok r
    /\ (forall path,
           r = Some path ->
           path = featured_media_path title
           /\ ~ In 32%N path
           /\ is_valid_url (clean_url url) = true
           /\ exists jpeg,
               image_at E (clock w) (clean_url url) = ImageSaved jpeg true
               /\ read_file (files (snd (adjust_featured_media E url title w))) path
                  = Some jpeg)
    /\ migrated_posts_db (snd (adjust_featured_media E url title w))
       = migrated_posts_db w
    /\ temp_db (snd (adjust_featured_media E url title w)) = temp_db w.
Proof.
  rewrite adjust_featured_media_run.
  destruct (is_valid_url (clean_url url)) eqn:Hv.
  - cbv zeta.
    destruct (image_at E (clock w) (clean_url url)) as [| |jpeg ran] eqn:Himg.
    + exists None. repeat split; discriminate.
    + exists None. repeat split; discriminate.
    + destruct ran.
      * exists (Some (featured_media_path title)).
        split; [reflexivity|]. split; [|split; reflexivity].
        intros path Hpath.
        assert (path = featured_media_path title) as -> by congruence.
        split; [reflexivity|]. split; [apply featured_media_path_no_space|].
        split; [reflexivity|]. exists jpeg. split; [reflexivity|].
        cbn [snd files set_files]. apply read_file_written.
      * exists None. repeat split; discriminate.
  - exists None. repeat split; discriminate.
Qed.

End MediaPipeline.

(** ** File names and paths *)

Lemma basename_from_no_slash (current s : pystr) :
  (In 47%N current -> In 47%N s) -> ~ In 47%N (basename_from current s).
Proof.
  revert current. induction s as [|c s IH]; intros current Hcur; simpl.
  - exact Hcur.
  - destruct (N.eqb_spec c 47) as [->|Hc].
    + apply IH. auto.
    + apply IH. intros Hin. destruct (Hcur Hin) as [Heq|Hs]; [congruence|assumption].
Qed.

Lemma basename_from_plain (current s : pystr) :
  ~ In 47%N s -> basename_from current s = current.
Proof.
  revert current. induction s as [|c s IH]; intros current Hs; simpl; [reflexivity|].
  destruct (N.eqb_spec c 47) as [->|Hc].
  - exfalso. apply Hs. now left.
  - apply IH. intros Hin. apply Hs. now right.
Qed.

Lemma basename_from_last (current directory name : pystr) :
  ~ In 47%N name ->
  basename_from current (directory ++ 47%N :: name) = name.
Proof.
  intros Hname. revert current.
  induction directory as [|c directory IH]; intros current; simpl.
  - now apply basename_from_plain.
  - destruct (N.eqb c 47); apply IH.
Qed.

Lemma basename_no_slash (path : pystr) : ~ In 47%N (basename path).
Proof. apply basename_from_no_slash. auto. Qed.

(** X7.  [os.path.basename]: the base name of a path has no slash; a path
    without slash is its own base name; and the base name of a directory,
    a slash and a name without slash is the name.  The featured image of a
    post whose title has no slash is therefore sent under the title with
    "_featured_media.jpg", spaces turned into underscores. *)
Theorem basename_cases :
  (forall path, ~ In 47%N (basename path))
  /\ (forall path, ~ In 47%N path -> basename path = path)
  /\ (forall directory name,
         ~ In 47%N name -> basename (directory ++ str "/" ++ name) = name)
  /\ (forall title,
         ~ In 47%N title ->
         basename (featured_media_path title)
         = replace_char 32%N 95%N (title ++ str "_featured_media") ++ str ".jpg").
Proof.
  split; [|split; [|split]].
  - apply basename_no_slash.
  - intros path Hpath. now apply basename_from_plain.
  - intros directory name Hname. now apply basename_from_last.
  - intros title Htitle. unfold featured_media_path.
    change (str "images/" ++ ?x) with (str "images" ++ 47%N :: x).
    apply (basename_from_last _ (str "images")).
    unfold replace_char. rewrite in_app_iff. intros [Hin|Hin].
    + apply in_map_iff in Hin as [c [Hc Hin]].
      destruct (N.eqb_spec c 32); [discriminate|]. subst c.
      apply in_app_iff in Hin as [Hin|Hin]; [contradiction|].
      simpl in Hin. intuition discriminate.
    + simpl in Hin. intuition discriminate.
Qed.

Section Uploads.

Context {U : UnicodeData} (E : Env).

(** X8.  Sanitizing a file name twice is sanitizing it once, the
    normalization leaving ASCII strings alone; and the sanitized name is
    never longer than the normalized one. *)
Theorem safe_filename_idempotent :
  NFKD_fixes_ascii ->
  forall name,
    safe_filename (safe_filename name) = safe_filename name
    /\ (List.length (safe_filename name) <= List.length (normalize_NFKD name))%nat.
Proof.
  intros Hnfkd name. split.
  - unfold safe_filename at 1.
    rewrite (Hnfkd _ (safe_filename_is_ascii name)).
    apply filter_all, safe_filename_is_ascii.
  - apply filter_length_le.
Qed.

(** [upload_featured_image] on the path of a file. *)
Lemma upload_featured_image_file (w : World) (path : pystr) (data : list N) :
  path <> [] -> read_file (files w) path = Some data ->
  upload_featured_image E (Some path) w
  = (match media_response_at E (clock w) with
     | Response status_code json_id =>
         Ok (if Z.eqb status_code 201 then json_id else None)
     | ConnectionFailed => Raised RequestException
     end,
     set_clock (S (clock w))
       (set_history
          (history w
           ++ [HttpPostMedia
                 (content_disposition (safe_filename (basename path))) data])
          w)).
Proof.
  intros Hpath Hdata.
  unfold upload_featured_image, try_except, bind, open_rb, get_world.
  destruct path as [|c path]; [congruence|].
  cbn -[read_file basename safe_filename content_disposition].
  rewrite Hdata. cbn -[read_file basename safe_filename content_disposition].
  destruct (media_response_at E (clock w)) as [status json_id|]; [|reflexivity].
  destruct (Z.eqb status 201); reflexivity.
Qed.

(** X9.  [upload_featured_image].  Without a path ([None]) [open] raises
    [TypeError], which is not caught, and nothing is sent.  With the path
    of a file it sends one request to the media endpoint, with the bytes of
    the file and the sanitized base name of the path, and returns the [id]
    of the answer when the status is 201, [None] for another status; a
    failure of the request is raised.  In no case is the ledger touched. *)
Theorem upload_featured_image_cases (w : World) :
  upload_featured_image E None w = (Raised TypeError, w)
  /\ (forall path data,
         path <> [] -> read_file (files w) path = Some data ->
         let sent :=
           set_clock (S (clock w))
             (set_history
                (history w
                 ++ [HttpPostMedia
                       (content_disposition (safe_filename (basename path))) data])
                w) in
         upload_featured_image E (Some path) w
         = (match media_response_at E (clock w) with
            | Response status_code json_id =>
                Ok (if Z.eqb status_code 201 then json_id else None)
            | ConnectionFailed => Raised RequestException
            end, sent))
  /\ (forall image_path,
         migrated_posts_db (snd (upload_featured_image E image_path w))
         = migrated_posts_db w).
Proof.
  split; [reflexivity|]. split.
  - intros path data Hpath Hdata. now apply upload_featured_image_file.
  - intros image_path.
    pose proof (respects_upload_featured_image E
                  (fun w w' => migrated_posts_db w' = migrated_posts_db w)
                  (fun _ => True)) as Hframe.
    apply Hframe; auto; congruence.
Qed.

End Uploads.

(** ** Content images *)

Section ContentImagesProperties.

Context {U : UnicodeData} {L : UrlLibrary} (E : Env).

Lemma os_path_join_images (name : pystr) :
  ~ In 47%N name -> os_path_join (str "images") name = str "images/" ++ name.
Proof.
  intros Hname. unfold os_path_join.
  destruct name as [|c name]; [reflexivity|].
  simpl startswith. destruct (N.eqb_spec c 47) as [->|Hc].
  - exfalso. apply Hname. now left.
  - reflexivity.
Qed.

(** What one turn of the loop returns and leaves, case by case. *)
Lemma adjust_content_image_eq (path_list : list pystr) (url : pystr) (w : World) :
  adjust_content_image E path_list url w
  = if is_valid_url (clean_url url)
    then
      let w1 := set_clock (S (clock w))
                  (set_history (history w ++ [HttpGetImage (clean_url url)]) w) in
      match image_at E (clock w) (clean_url url) with
      | ImageFailed => (Ok path_list, w1)
      | ImageBadStatus => (Ok path_list, w1)
      | ImageSaved data _ =>
          let file_name := basename (urlparse_path (clean_url url)) in
          let file_path := os_path_join (str "images") file_name in
          match file_name with
          | [] => (Ok path_list, w1)
          | _ :: _ =>
              (Ok (path_list ++ [file_path]),
               set_files
                 ((file_path, data)
                  :: filter (fun f => negb (pystr_eqb (fst f) file_path)) (files w1))
                 w1)
          end
      end
    else (Ok path_list, w).
Proof.
  unfold adjust_content_image, try_except.
  unfold bind at 1. rewrite clean_and_validate_url_run.
  destruct (is_valid_url (clean_url url)); [|reflexivity].
  unfold bind, emit, modify, tick, write_file.
  cbn -[basename os_path_join str].
  destruct (image_at E (clock w) (clean_url url)) as [| |data ran];
    try reflexivity.
  destruct (basename (urlparse_path (clean_url url))); reflexivity.
Qed.

(** One turn of the loop returns, with the list it was given or with one
    path more. *)
Lemma adjust_content_image_run (path_list : list pystr) (url : pystr) (w : World) :
  exists added,
    fst (adjust_content_image E path_list url w) = Ok (path_list ++ added)
    /\ (added = [] \/ exists path, added = [path] /\ in_images path)
    /\ migrated_posts_db (snd (adjust_content_image E path_list url w))
       = migrated_posts_db w.
Proof.
  rewrite adjust_content_image_eq.
  destruct (is_valid_url (clean_url url)).
  2:{ exists []. rewrite app_nil_r. repeat split; auto. }
  cbv zeta.
  destruct (image_at E (clock w) (clean_url url)) as [| |data ran].
  - exists []. rewrite app_nil_r. repeat split; auto.
  - exists []. rewrite app_nil_r. repeat split; auto.
  - pose proof (basename_no_slash (urlparse_path (clean_url url))) as Hslash.
    destruct (basename (urlparse_path (clean_url url))) as [|c name] eqn:Hname.
    + exists []. rewrite app_nil_r. repeat split; auto.
    + rewrite (os_path_join_images _ Hslash).
      eexists. split; [reflexivity|]. split; [|reflexivity].
      right. eexists. split; [reflexivity|].
      eexists. split; [reflexivity|]. split; [discriminate | assumption].
Qed.

Lemma adjust_content_images_from_run (img_list path_list : list pystr) (w : World) :
  exists added,
    fst (adjust_content_images_from E path_list img_list w) = Ok (path_list ++ added)
    /\ (List.length added <= List.length img_list)%nat
    /\ Forall in_images added
    /\ migrated_posts_db (snd (adjust_content_images_from E path_list img_list w))
       = migrated_posts_db w.
Proof.
  revert path_list w.
  induction img_list as [|url img_list IH]; intros path_list w; simpl.
  - exists []. rewrite app_nil_r. repeat split; auto.
  - unfold bind.
    destruct (adjust_content_image_run path_list url w) as [one [Hfst [Hone Hdb]]].
    destruct (adjust_content_image E path_list url w) as [r w1].
    simpl in Hfst, Hdb. subst r.
    destruct (IH (path_list ++ one) w1) as [more [Hfst' [Hlen [Hall Hdb']]]].
    exists (one ++ more). rewrite app_assoc.
    split; [assumption|]. split; [|split; [|congruence]].
    + rewrite length_app.
      destruct Hone as [->|[path [-> _]]]; simpl; lia.
    + apply Forall_app. split; [|assumption].
      destruct Hone as [->|[path [-> Hpath]]]; constructor; [assumption|constructor].
Qed.

(** X10.  [adjust_content_images] makes the directory of images before its
    loop, outside the [try]: it raises when "images" is a regular file, and
    in no other case.  In the loop an image whose url is invalid, whose
    download or decoding fails, or whose name is empty is skipped; at most
    one path per url is returned, each "images/" and a non-empty name
    without slash, and the ledger is not touched.  A failure of the
    optimizer does not lose the path of an image already saved, whereas
    [adjust_featured_media] then returns [None]. *)
Theorem adjust_content_images_never_raises :
  (forall img_list w data,
      read_file (files w) (str "images") = Some data ->
      exists e, adjust_content_images E img_list w = (Raised e, w))
  /\ (forall img_list w,
         read_file (files w) (str "images") = None ->
         exists path_list,
           fst (adjust_content_images E img_list w) = Ok path_list
           /\ (List.length path_list <= List.length img_list)%nat
           /\ Forall in_images path_list
           /\ migrated_posts_db (snd (adjust_content_images E img_list w))
              = migrated_posts_db w)
  /\ (forall url title data w,
         read_file (files w) (str "images") = None ->
         is_valid_url (clean_url url) = true ->
         image_at E (clock w) (clean_url url) = ImageSaved data false ->
         basename (urlparse_path (clean_url url)) <> [] ->
         fst (adjust_content_images E [url] w)
         = Ok [str "images/" ++ basename (urlparse_path (clean_url url))]
         /\ fst (adjust_featured_media E url title w) = Ok None).
Proof.
  assert (Hdir : forall img_list w,
             read_file (files w) (str "images") = None ->
             adjust_content_images E img_list w
             = adjust_content_images_from E [] img_list w).
  { intros img_list w Hnone.
    unfold adjust_content_images, makedirs_exist_ok, bind, get_world.
    now rewrite Hnone. }
  split; [|split].
  - intros img_list w data Hfile. eexists.
    unfold adjust_content_images, makedirs_exist_ok, bind, get_world.
    now rewrite Hfile.
  - intros img_list w Hnone. rewrite (Hdir _ _ Hnone).
    destruct (adjust_content_images_from_run img_list [] w)
      as [added [Hfst [Hlen [Hall Hdb]]]].
    exists added. repeat split; assumption.
  - intros url title data w Hnone Hv Himg Hname. split.
    + rewrite (Hdir _ _ Hnone). simpl. unfold bind.
      rewrite adjust_content_image_eq, Hv. cbv zeta. rewrite Himg.
      pose proof (basename_no_slash (urlparse_path (clean_url url))) as Hslash.
      destruct (basename (urlparse_path (clean_url url))) as [|c name];
        [congruence|].
      rewrite (os_path_join_images _ Hslash). reflexivity.
    + rewrite adjust_featured_media_run, Hv. cbv zeta. now rewrite Himg.
Qed.

End ContentImagesProperties.

(** ** Links in the content *)

Lemma replace_from_skip_all (old new s : pystr) (k : nat) :
  (List.length s <= k)%nat -> replace_from old new k s = [].
Proof.
  revert k. induction s as [|c s IH]; intros k Hk; simpl; [reflexivity|].
  destruct k as [|k]; [simpl in Hk; lia|]. apply IH. simpl in Hk. lia.
Qed.

Lemma occurs_tail (sub s : pystr) (c : codepoint) :
  occurs sub s -> occurs sub (c :: s).
Proof. intros [b [a ->]]. now exists (c :: b), a. Qed.

Lemma replace_from_absent (old new s : pystr) :
  ~ occurs old s -> replace_from old new 0 s = s.
Proof.
  induction s as [|c s IH]; intros Habs; [reflexivity|].
  cbn [replace_from].
  destruct (startswith (c :: s) old) eqn:Hs.
  - exfalso. apply Habs. apply startswith_inv in Hs as [r Hr].
    exists [], r. now rewrite Hr.
  - rewrite IH; [reflexivity|]. intros Hocc. apply Habs. now apply occurs_tail.
Qed.

Lemma py_replace_absent (s old new : pystr) :
  old <> [] -> ~ occurs old s -> py_replace s old new = s.
Proof.
  intros Hold Habs. unfold py_replace.
  destruct old; [congruence|]. now apply replace_from_absent.
Qed.

Lemma py_replace_whole (old new : pystr) :
  old <> [] -> py_replace old old new = new.
Proof.
  intros Hold. unfold py_replace. destruct old as [|c old]; [congruence|].
  simpl replace_from. rewrite N.eqb_refl. simpl andb.
  replace (startswith old old) with true.
  - rewrite replace_from_skip_all; [apply app_nil_r | simpl; lia].
  - symmetry. rewrite <- (app_nil_r old) at 1. apply startswith_app.
Qed.

(** X11.  [update_image_links_in_content] returns the content as it is for
    an empty map, and for a map none of whose urls occurs in the content
    (the urls being non-empty).  A content that is one of the urls becomes
    the url of the upload of this month: the site, "/wp-content/uploads/",
    the year, the month and the file name. *)
Theorem update_image_links_in_content_cases (now : datetime) :
  (forall content, update_image_links_in_content now content [] = content)
  /\ (forall content image_map,
         Forall (fun item => fst item <> [] /\ ~ occurs (fst item) content) image_map ->
         update_image_links_in_content now content image_map = content)
  /\ (forall original_url local_filename,
         original_url <> [] ->
         update_image_links_in_content now original_url
           [(original_url, local_filename)]
         = WP_SITE ++ str "/wp-content/uploads/" ++ four_digits (year now)
           ++ str "/" ++ two_digits (month now) ++ str "/" ++ local_filename).
Proof.
  unfold update_image_links_in_content, get_current_wp_date_path.
  split; [reflexivity|]. split.
  - intros content image_map Hmap.
    induction Hmap as [|[url file] image_map [Hurl Habs] Hmap IH]; [reflexivity|].
    simpl fold_left. simpl in Hurl, Habs.
    rewrite (py_replace_absent content url _ Hurl Habs). exact IH.
  - intros url file Hurl. simpl fold_left. now apply py_replace_whole.
Qed.

(** ** Dates *)

Section Dates.

Context {U : UnicodeData} (E : Env).

Lemma read_month_range (names : list pystr) (k : Z) (s : pystr) (m : Z) (rest : pystr) :
  read_month names k s = Some (m, rest) ->
  (k <= m < k + Z.of_nat (List.length names))%Z.
Proof.
  revert k. induction names as [|name names IH]; intros k; simpl; [discriminate|].
  destruct (read_name name s).
  - intros [= <- _]. lia.
  - intros Hm. apply IH in Hm. lia.
Qed.

Lemma in_range_spec (lo hi c : codepoint) :
  in_range lo hi c = true -> (lo <= c <= hi)%N.
Proof.
  unfold in_range. rewrite andb_true_iff, !N.leb_le. tauto.
Qed.

Lemma read_day_range (s : pystr) (d : Z) (rest : pystr) :
  decimal_values_are_digits ->
  In (d, rest) (read_day s) -> (1 <= d <= 31)%Z.
Proof.
  intros Hdec. unfold read_day. rewrite !in_app_iff.
  intros [H|[H|[H|H]]].
  - destruct s as [|t [|c r]]; try contradiction.
    destruct (N.eqb t 51 && in_range 48 49 c) eqn:Hc; [|contradiction].
    apply andb_true_iff in Hc as [_ Hc]. apply in_range_spec in Hc.
    destruct H as [H|[]]. apply (f_equal fst) in H. cbn [fst] in H.
    subst d. unfold digit_of. lia.
  - destruct s as [|c [|x r]]; try contradiction.
    destruct (in_range 49 50 c) eqn:Hc; [|contradiction].
    apply in_range_spec in Hc.
    destruct (decimal_value x) as [v|] eqn:Hv; [|contradiction].
    apply Hdec in Hv.
    destruct H as [H|[]]. apply (f_equal fst) in H. cbn [fst] in H.
    subst d. unfold digit_of. lia.
  - destruct s as [|z [|c r]]; try contradiction.
    destruct (N.eqb z 48 && in_range 49 57 c) eqn:Hc; [|contradiction].
    apply andb_true_iff in Hc as [_ Hc]. apply in_range_spec in Hc.
    destruct H as [H|[]]. apply (f_equal fst) in H. cbn [fst] in H.
    subst d. unfold digit_of. lia.
  - destruct s as [|c r]; try contradiction.
    destruct (in_range 49 57 c) eqn:Hc; [|contradiction].
    apply in_range_spec in Hc.
    destruct H as [H|[]]. apply (f_equal fst) in H. cbn [fst] in H.
    subst d. unfold digit_of. lia.
Qed.

Lemma read_year_range (s : pystr) (y : Z) (unread : pystr) :
  decimal_values_are_digits ->
  read_year s = Some (y, unread) -> (0 <= y <= 9999)%Z.
Proof.
  intros Hdec. unfold read_year.
  destruct s as [|comma s]; [discriminate|].
  destruct (N.eqb comma 44); [|discriminate].
  destruct (read_whitespace s) as [[|a [|b [|c [|d r]]]]|]; try discriminate.
  destruct (decimal_value a) as [va|] eqn:Ha; [|discriminate].
  destruct (decimal_value b) as [vb|] eqn:Hb; [|discriminate].
  destruct (decimal_value c) as [vc|] eqn:Hc; [|discriminate].
  destruct (decimal_value d) as [vd|] eqn:Hd; [|discriminate].
  apply Hdec in Ha, Hb, Hc, Hd. intros H.
  assert (y = (1000 * va + 100 * vb + 10 * vc + vd)%Z) as -> by congruence.
  lia.
Qed.

Lemma first_match_In (days : list (Z * pystr)) (d y : Z) (unread : pystr) :
  first_match days = Some (d, y, unread) ->
  exists rest, In (d, rest) days /\ read_year rest = Some (y, unread).
Proof.
  induction days as [|[d' rest] days IH]; simpl; [discriminate|].
  destruct (read_year rest) as [[y' unread']|] eqn:Hy.
  - intros [= <- <- <-]. exists rest. auto.
  - intros H. destruct (IH H) as [rest' [Hin Hy']]. exists rest'. auto.
Qed.

(** What [strptime] accepts is a date of the calendar. *)
Lemma strptime_calendar_date (date_str : pystr) (d : datetime) :
  decimal_values_are_digits ->
  strptime date_str = Ok d -> calendar_date d.
Proof.
  intros Hdec. unfold strptime.
  destruct (read_month month_names 1 date_str) as [[m rest]|] eqn:Hm;
    [|discriminate].
  apply read_month_range in Hm. simpl in Hm.
  destruct (read_whitespace rest) as [rest'|]; [|discriminate].
  destruct (first_match (read_day rest')) as [[[dd y] [|c unread]]|] eqn:Hf;
    try discriminate.
  apply first_match_In in Hf as [r [Hin Hy]].
  apply (read_day_range _ _ _ Hdec) in Hin.
  apply (read_year_range _ _ _ Hdec) in Hy.
  destruct (Z.leb 1 y && Z.leb dd (days_in_month y m)) eqn:Hok; [|discriminate].
  apply andb_true_iff in Hok as [Hy1 Hd1].
  apply Z.leb_le in Hy1, Hd1.
  intros [= <-]. unfold calendar_date. simpl. lia.
Qed.

(** X12.  [format_post_date], the decimal values of the Unicode tables
    being digits, on any string and in any state: either it raises the
    [ValueError] of the module and leaves the state as it was, having drawn
    nothing; or the string was a date of the calendar (year 1 to 9999, a
    day the month has), three numbers were drawn, and it returns a string
    which, for a year from 1000 on, is the 19 characters of that very date
    at an hour from 6 to 23, a minute and a second from 0 to 59.  (How a
    year below 1000 is printed depends on the C library; nothing is said of
    the string then.) *)
Theorem format_post_date_cases (date_str : pystr) (w : World) :
  decimal_values_are_digits ->
  format_post_date E date_str w = (Raised date_format_error, w)
  \/ exists d h m s out,
      strptime date_str = Ok d
      /\ calendar_date d
      /\ (6 <= h <= 23 /\ 0 <= m <= 59 /\ 0 <= s <= 59)%Z
      /\ format_post_date E date_str w
         = (Ok out, set_clock (S (S (S (clock w)))) w)
      /\ ((1000 <= year d)%Z ->
          out = strftime (replace_time d h m s)
          /\ List.length out = 19%nat).
Proof.
  intros Hdec. destruct (strptime date_str) as [d|e] eqn:Hd.
  - right. eexists d, _, _, _, _.
    split; [reflexivity|].
    split; [exact (strptime_calendar_date _ _ Hdec Hd)|].
    split; [|split; [exact (format_post_date_accepted E _ _ w Hd)
                    |intros _; split; reflexivity]].
    pose proof (randint_range 6 23 (random_at E (clock w))).
    pose proof (randint_range 0 59 (random_at E (S (clock w)))).
    pose proof (randint_range 0 59 (random_at E (S (S (clock w))))).
    simpl in *. lia.
  - left. exact (format_post_date_rejected E _ _ w Hd).
Qed.

End Dates.

(** ** The images of the content *)

Lemma find_all_node_img_styled (n : node) :
  find_all_node (str "img") (add_img_classes n)
  = map styled (find_all_node (str "img") n).
Proof.
  revert n. fix IH 1. intros [text|nm cls attrs contents]; [reflexivity|].
  cbn [add_img_classes find_all_node]. rewrite map_app. f_equal.
  - destruct (pystr_eqb nm (str "img")); reflexivity.
  - induction contents as [|c contents IHc]; [reflexivity|].
    cbn [map flat_map]. now rewrite map_app, IH, IHc.
Qed.

Lemma find_all_node_other_tags (name : pystr) (n : node) :
  name <> str "img" ->
  find_all_node name (add_img_classes n) = find_all_node name n.
Proof.
  intros Hname. revert n. fix IH 1.
  intros [text|nm cls attrs contents]; [reflexivity|].
  cbn [add_img_classes find_all_node]. f_equal.
  - destruct (pystr_eqb nm name) eqn:Hnm; [|reflexivity].
    apply pystr_eqb_eq in Hnm. subst nm.
    apply pystr_eqb_neq in Hname. now rewrite Hname.
  - induction contents as [|c contents IHc]; [reflexivity|].
    cbn [map flat_map]. now rewrite IH, IHc.
Qed.

Lemma collect_img_links_run
    (imgs : list (option (list pystr) * list (pystr * pystr)))
    (links : list pystr) (w w' : World) :
  collect_img_links imgs w = (Ok links, w') ->
  w' = w /\ map (fun img => getitem (snd img) (str "src")) imgs = map Ok links.
Proof.
  revert links. induction imgs as [|[cls attrs] imgs IH]; intros links; simpl.
  - unfold ret. intros [= <- <-]. auto.
  - destruct (getitem attrs (str "src")) as [src|e]; [|discriminate].
    unfold bind. destruct (collect_img_links imgs w) as [[rest|e] w1] eqn:Hrest;
      [|discriminate].
    unfold ret. intros [= <- <-].
    destruct (IH rest eq_refl) as [-> Hsrcs]. split; [reflexivity|].
    simpl. now rewrite Hsrcs.
Qed.

Lemma collect_img_links_styled
    (imgs : list (option (list pystr) * list (pystr * pystr))) (w : World) :
  collect_img_links (map styled imgs) w = collect_img_links imgs w.
Proof.
  induction imgs as [|[cls attrs] imgs IH]; [reflexivity|].
  cbn [map collect_img_links]. unfold styled at 1. cbn [snd].
  destruct (getitem attrs (str "src")); [|reflexivity].
  unfold bind. now rewrite IH.
Qed.

(** X13.  The loop of [format_post_content] over the images.  In the tree
    it gives every [img] tag, nested or not, its classes followed by
    "img-fluid" and "mb-3" and leaves its other attributes and the order of
    the images as they were; the tags of another name are not touched.  The
    links it collects are the [src] of every image, in document order, one
    per image; collecting changes no state, and gives the same before and
    after the classes are set. *)
Theorem add_img_classes_styles_images (soup : list node) :
  find_all (str "img") (map add_img_classes soup)
  = map styled (find_all (str "img") soup)
  /\ (forall name,
         name <> str "img" ->
         find_all name (map add_img_classes soup) = find_all name soup)
  /\ (forall w links w',
         collect_img_links (find_all (str "img") soup) w = (Ok links, w') ->
         w' = w
         /\ map (fun img => getitem (snd img) (str "src"))
                (find_all (str "img") soup)
            = map Ok links
         /\ List.length links = List.length (find_all (str "img") soup)
         /\ collect_img_links (find_all (str "img") (map add_img_classes soup)) w
            = (Ok links, w)).
Proof.
  assert (Himg : find_all (str "img") (map add_img_classes soup)
                 = map styled (find_all (str "img") soup)).
  { unfold find_all. induction soup as [|n soup IH]; [reflexivity|].
    cbn [map flat_map]. now rewrite map_app, find_all_node_img_styled, IH. }
  split; [exact Himg|]. split.
  - intros name Hname. clear Himg. unfold find_all.
    induction soup as [|n soup IH]; [reflexivity|].
    cbn [map flat_map]. now rewrite (find_all_node_other_tags _ _ Hname), IH.
  - intros w links w' Hlinks.
    destruct (collect_img_links_run _ _ _ _ Hlinks) as [-> Hsrcs].
    split; [reflexivity|]. split; [assumption|]. split.
    + apply (f_equal (@List.length _)) in Hsrcs.
      now rewrite !length_map in Hsrcs.
    + now rewrite Himg, collect_img_links_styled.
Qed.

(** ** The featured image of a post *)

Section FeaturedImage.

Context {U : UnicodeData} {H : HtmlLibrary} (E : Env).

Lemma collect_img_links_srcs
    (imgs : list (option (list pystr) * list (pystr * pystr)))
    (links : list pystr) (w : World) :
  map (fun img => getitem (snd img) (str "src")) imgs = map Ok links ->
  collect_img_links imgs w = (Ok links, w).
Proof.
  revert links. induction imgs as [|[cls attrs] imgs IH]; intros [|src links];
    try discriminate; [reflexivity|].
  cbn [map snd]. intros Hsrcs. injection Hsrcs as Hsrc Hrest.
  cbn [collect_img_links]. rewrite Hsrc. unfold bind.
  now rewrite (IH links Hrest).
Qed.

Lemma featured_media_path_not_empty (title : pystr) : featured_media_path title <> [].
Proof. discriminate. Qed.

(** With "images" a regular file, the transform of a post with an image
    fails when the directory is reset. *)
Lemma format_post_content_images_is_file
    (post : FullPost) (d : datetime) (src : pystr) (links : list pystr)
    (data : list N) (w : World) :
  strptime (post_date post) = Ok d ->
  map (fun img => getitem (snd img) (str "src"))
      (find_all (str "img") (BeautifulSoup (post_content_html post)))
  = map Ok (src :: links) ->
  read_file (files w) (str "images") = Some data ->
  format_post_content E post w
  = (Raised NotADirectoryError, set_clock (S (S (S (clock w)))) w).
Proof.
  intros Hd Hsrcs Hfile. unfold format_post_content.
  rewrite (bind_ok (format_post_date E (post_date post)) _ w _ _
             (format_post_date_accepted E _ d w Hd)).
  rewrite (bind_ok (collect_img_links _) _ _ _ _
             (collect_img_links_srcs _ _ _ Hsrcs)).
  unfold process_image_links, reset_directory, bind, get_world.
  cbn [fst snd files set_clock]. now rewrite Hfile.
Qed.

(** The transform of a post with an image, up to the upload of the
    image. *)
Lemma format_post_content_with_image
    (post : FullPost) (d : datetime) (src : pystr) (links : list pystr) (w : World) :
  strptime (post_date post) = Ok d ->
  map (fun img => getitem (snd img) (str "src"))
      (find_all (str "img") (BeautifulSoup (post_content_html post)))
  = map Ok (src :: links) ->
  read_file (files w) (str "images") = None ->
  format_post_content E post w
  = (featured_media_path <-
       adjust_featured_media E src (post_title post) ;;
     featured_media_id <- upload_featured_image E featured_media_path ;;
     ret {| payload_date :=
              strftime (replace_time d
                          (6 + random_at E (clock w) mod 18)
                          (0 + random_at E (S (clock w)) mod 60)
                          (0 + random_at E (S (S (clock w))) mod 60));
            payload_title := post_title post;
            payload_content :=
              wrap_content
                (soup_to_str
                   (map add_img_classes (BeautifulSoup (post_content_html post))));
            payload_featured_media := featured_media_id |})
      (set_files
         (filter (fun f => negb (startswith (fst f) (str "images/")))
                 (files w))
         (set_clock (S (S (S (clock w)))) w)).
Proof.
  intros Hd Hsrcs Hdir. unfold format_post_content.
  rewrite (bind_ok (format_post_date E (post_date post)) _ w _ _
             (format_post_date_accepted E _ d w Hd)).
  rewrite (bind_ok (collect_img_links _) _ _ _ _
             (collect_img_links_srcs _ _ _ Hsrcs)).
  unfold process_image_links, reset_directory, modify.
  unfold bind at 1. unfold bind at 1. unfold bind at 1. unfold get_world.
  cbn [fst snd files set_clock]. rewrite Hdir.
  unfold bind.
  change (str "images" ++ str "/") with (str "images/").
  destruct (adjust_featured_media E src (post_title post) _) as [[r|e] w5];
    reflexivity.
Qed.

(** X14.  [format_post_content] on a post whose date is read and whose
    images all have a [src].  When "images" is a regular file, resetting
    the directory raises [NotADirectoryError] and nothing is requested.
    Otherwise only the first image is requested.  When its url is invalid,
    or the download, the decoding or the optimizer fails,
    [adjust_featured_media] gives [None] and [upload_featured_image] raises
    the [TypeError] of [open(None)]: the transform of the post fails.  When
    the image is saved, it is sent once to the media endpoint; the payload
    carries the [id] of the answer for the status 201 and no featured media
    for another status, and a failure of the request is raised.  The ledger
    is not touched. *)
Theorem format_post_content_featured_image
    (post : FullPost) (d : datetime) (src : pystr) (links : list pystr) (w : World) :
  strptime (post_date post) = Ok d ->
  map (fun img => getitem (snd img) (str "src"))
      (find_all (str "img") (BeautifulSoup (post_content_html post)))
  = map Ok (src :: links) ->
  let t := S (S (S (clock w))) in
  let outcome := format_post_content E post w in
  (forall data,
      read_file (files w) (str "images") = Some data ->
      fst outcome = Raised NotADirectoryError
      /\ history (snd outcome) = history w)
  /\ (read_file (files w) (str "images") = None ->
      (is_valid_url (clean_url src) = false ->
       fst outcome = Raised TypeError /\ history (snd outcome) = history w)
      /\ (is_valid_url (clean_url src) = true ->
          (forall jpeg, image_at E t (clean_url src) <> ImageSaved jpeg true) ->
          fst outcome = Raised TypeError
          /\ history (snd outcome) = history w ++ [HttpGetImage (clean_url src)])
      /\ (forall jpeg,
             is_valid_url (clean_url src) = true ->
             image_at E t (clean_url src) = ImageSaved jpeg true ->
             history (snd outcome)
             = history w
               ++ [HttpGetImage (clean_url src);
                   HttpPostMedia
                     (content_disposition
                        (safe_filename
                           (basename (featured_media_path (post_title post)))))
                     jpeg]
             /\ match media_response_at E (S t) with
                | Response status_code json_id =>
                    exists payload,
                      fst outcome = Ok payload
                      /\ payload_featured_media payload
                         = (if Z.eqb status_code 201 then json_id else None)
                      /\ payload_title payload = post_title post
                | ConnectionFailed => fst outcome = Raised RequestException
                end))
  /\ migrated_posts_db (snd outcome) = migrated_posts_db w.
Proof.
  intros Hd Hsrcs t outcome.
  assert (Hout : outcome = format_post_content E post w) by reflexivity.
  clearbody outcome.
  destruct (read_file (files w) (str "images")) as [data|] eqn:Hdir.
  { rewrite (format_post_content_images_is_file post d src links data w
               Hd Hsrcs Hdir) in Hout.
    subst outcome. split; [intros data' _; split; reflexivity|].
    split; [discriminate | reflexivity]. }
  split; [discriminate|].
  cut ((is_valid_url (clean_url src) = false ->
        fst outcome = Raised TypeError /\ history (snd outcome) = history w)
       /\ (is_valid_url (clean_url src) = true ->
           (forall jpeg, image_at E t (clean_url src) <> ImageSaved jpeg true) ->
           fst outcome = Raised TypeError
           /\ history (snd outcome) = history w ++ [HttpGetImage (clean_url src)])
       /\ (forall jpeg,
               is_valid_url (clean_url src) = true ->
               image_at E t (clean_url src) = ImageSaved jpeg true ->
               history (snd outcome)
               = history w
                 ++ [HttpGetImage (clean_url src);
                     HttpPostMedia
                       (content_disposition
                          (safe_filename
                             (basename (featured_media_path (post_title post)))))
                       jpeg]
               /\ match media_response_at E (S t) with
                  | Response status_code json_id =>
                      exists payload,
                        fst outcome = Ok payload
                        /\ payload_featured_media payload
                           = (if Z.eqb status_code 201 then json_id else None)
                        /\ payload_title payload = post_title post
                  | ConnectionFailed => fst outcome = Raised RequestException
                  end)
       /\ migrated_posts_db (snd outcome) = migrated_posts_db w).
  { intros [Hinvalid [Hfailed [Hsaved Hdb]]].
    split; [intros _; split; [|split]; assumption | exact Hdb]. }
  rewrite (format_post_content_with_image post d src links w Hd Hsrcs Hdir)
    in Hout.
  unfold bind at 1 in Hout. rewrite adjust_featured_media_run in Hout.
  cbn [clock set_files set_clock] in Hout. fold t in Hout.
  destruct (is_valid_url (clean_url src)) eqn:Hv.
  2:{ subst outcome. split; [intros _; split; reflexivity|].
      split; [discriminate|]. split; [discriminate|]. reflexivity. }
  cbv zeta in Hout.
  split; [discriminate|].
  destruct (image_at E t (clean_url src)) as [| |jpeg ran] eqn:Himg.
  - subst outcome. split; [intros _ _; split; reflexivity|].
    split; [discriminate|]. reflexivity.
  - subst outcome. split; [intros _ _; split; reflexivity|].
    split; [discriminate|]. reflexivity.
  - destruct ran.
    + split; [intros _ Hno; now destruct (Hno jpeg)|].
      unfold bind in Hout.
      match type of Hout with
      | _ = (let (_, _) := upload_featured_image E _ ?w5 in _) =>
          rewrite (upload_featured_image_file E w5 _ jpeg
                     (featured_media_path_not_empty _))
            in Hout by (cbn [files set_files]; apply read_file_written)
      end.
      cbn [clock set_files set_clock set_history history] in Hout.
      split; [|subst outcome;
               destruct (media_response_at E (S t)) as [status json_id|];
               reflexivity].
      intros jpeg' _ [= <-]. split.
      * subst outcome.
        destruct (media_response_at E (S t)) as [status json_id|];
          cbn [snd ret history set_clock set_history];
          now rewrite <- app_assoc.
      * destruct (media_response_at E (S t)) as [status json_id|];
          subst outcome; [|reflexivity].
        eexists. split; [reflexivity|]. split; reflexivity.
    + subst outcome. split; [intros _ _; split; reflexivity|].
      split; [|reflexivity].
      intros jpeg' _ Hsaved. discriminate.
Qed.

End FeaturedImage.

(** ** What an invocation does to the ledger *)

Section Invocation.

Context {U : UnicodeData} {H : HtmlLibrary} (E : Env).

Variable R : World -> World -> Prop.
Variable allowed : event -> Prop.
Variable listed : PostRef -> Prop.

Hypothesis R_refl : forall w, R w w.
Hypothesis R_trans : forall w1 w2 w3, R w1 w2 -> R w2 w3 -> R w1 w3.
Hypothesis R_clock : forall c w, R w (set_clock c w).
Hypothesis R_temp_db : forall d w, R w (set_temp_db d w).
Hypothesis R_files : forall f w, R w (set_files f w).
Hypothesis R_history :
  forall e w, allowed e -> R w (set_history (history w ++ [e]) w).
Hypothesis allowed_stage_event : forall e, stage_event e -> allowed e.
Hypothesis allowed_RunStarted : allowed RunStarted.
Hypothesis allowed_post_event :
  forall post e, listed post -> event_url e = Some (ref_url post) -> allowed e.
Hypothesis R_initialize_db : respects R initialize_db.
Hypothesis R_mark_post_as_migrated :
  forall post, listed post -> respects R (mark_post_as_migrated (ref_url post)).

Lemma respects_post_event post e :
  listed post -> event_url e = Some (ref_url post) -> respects R (emit e).
Proof.
  intros Hpost He w. apply R_history. now apply (allowed_post_event post).
Qed.

Lemma respects_is_post_migrated url : respects R (is_post_migrated url).
Proof.
  intros w. unfold is_post_migrated, bind, get_world.
  destruct (migrated_posts_db w); apply R_refl.
Qed.

Lemma respects_run_migration_post post :
  listed post -> respects R (run_migration_post E post).
Proof.
  intros Hpost. unfold run_migration_post.
  apply (respects_bind R R_trans); [apply respects_is_post_migrated|].
  intros [|]; [apply (respects_ret R R_refl)|].
  apply (respects_bind R R_trans);
    [now apply (respects_post_event post)|intros _].
  apply (respects_bind R R_trans);
    [apply (respects_scrape_post_content E R R_refl R_trans R_clock)|].
  intros [full_post|]; [|apply (respects_ret R R_refl)].
  apply (respects_bind R R_trans);
    [now apply (respects_post_event post)|intros _].
  apply (respects_bind R R_trans);
    [apply (respects_save_post R R_refl R_trans R_temp_db)|intros _].
  apply (respects_bind R R_trans);
    [now apply (respects_post_event post)|intros _].
  apply (respects_bind R R_trans);
    [apply (respects_format_post_content E R allowed R_refl R_trans R_clock
              R_files R_history allowed_stage_event)|intros formatted].
  apply (respects_bind R R_trans);
    [apply (respects_upload_post E R allowed R_refl R_trans R_clock
              R_history allowed_stage_event)|intros ok].
  apply (respects_bind R R_trans);
    [now apply (respects_post_event post)|intros _].
  destruct ok; [|apply (respects_ret R R_refl)].
  apply (respects_bind R R_trans);
    [now apply (respects_post_event post)|intros _].
  now apply R_mark_post_as_migrated.
Qed.

Lemma respects_for_each_in {A} (xs : list A) (body : A -> M unit) :
  (forall x, In x xs -> respects R (body x)) -> respects R (for_each xs body).
Proof.
  induction xs as [|x xs IH]; intros Hb; simpl.
  - apply (respects_ret R R_refl).
  - apply (respects_bind R R_trans); [apply Hb; now left|intros _].
    apply IH. intros y Hy. apply Hb. now right.
Qed.

(** The rest of a run, when the posts that its call of [scrape_homepage]
    returns are listed. *)
Lemma run_migration_rest_step w :
  (forall posts post,
      fst (scrape_homepage E w) = Ok posts -> In post posts -> listed post) ->
  R w (snd (run_migration_rest E w)).
Proof.
  intros Hlisted. unfold run_migration_rest. unfold bind at 1.
  pose proof (respects_scrape_homepage E R allowed R_refl R_trans R_clock
                R_history allowed_stage_event w) as Hscrape.
  destruct (scrape_homepage E w) as [[posts|e] w1]; simpl in *; [|exact Hscrape].
  specialize (Hlisted posts).
  apply (R_trans _ _ _ Hscrape).
  destruct posts as [|post posts]; [apply R_refl|].
  apply (respects_bind R R_trans);
    [apply (respects_TempStorage R R_refl R_temp_db)|intros _].
  apply (respects_bind R R_trans).
  - apply respects_for_each_in. intros p Hp.
    apply respects_run_migration_post. now apply Hlisted.
  - intros _.
    apply (respects_bind R R_trans); [apply (respects_ret R R_refl)|intros _].
    apply (respects_remove_stale_temp_db R R_refl R_trans R_temp_db).
Qed.

Lemma R_prepared w : R w (prepared w).
Proof.
  unfold prepared.
  eapply R_trans; [apply (R_history RunStarted w allowed_RunStarted)|].
  eapply R_trans;
    [apply (respects_remove_stale_temp_db R R_refl R_trans R_temp_db)|].
  apply R_initialize_db.
Qed.

Lemma run_migration_step w :
  (forall posts post,
      fst (scrape_homepage E (prepared w)) = Ok posts -> In post posts ->
      listed post) ->
  R w (snd (run_migration E w)).
Proof.
  intros Hlisted. rewrite run_migration_prepared.
  eapply R_trans; [apply R_prepared | now apply run_migration_rest_step].
Qed.

Lemma respects_run_migration_rest :
  (forall post, listed post) -> respects R (run_migration_rest E).
Proof. intros Hall w. apply run_migration_rest_step. auto. Qed.

Lemma respects_run_migration :
  (forall post, listed post) -> respects R (run_migration E).
Proof. intros Hall w. apply run_migration_step. auto. Qed.

Lemma respects_main : (forall post, listed post) -> respects R (main E).
Proof.
  intros Hall. unfold main.
  apply (respects_try_except R R_trans); [now apply respects_run_migration|].
  intros e h Hh. destruct e; inversion Hh; subst.
  apply (respects_bind R R_trans);
    [apply (respects_run_update_chromedriver E R allowed R_refl R_trans R_clock
              R_history allowed_stage_event)
    |intros _; now apply respects_run_migration].
Qed.

End Invocation.

Section LedgerInvariants.

Context {U : UnicodeData} {H : HtmlLibrary} (E : Env).

Lemma ledger_appended_refl w : ledger_appended w w.
Proof. exists []. now rewrite app_nil_r. Qed.

Lemma ledger_appended_same w w' :
  migrated_posts_db w' = migrated_posts_db w -> ledger_appended w w'.
Proof.
  intros Hdb. exists []. unfold ledger_rows. now rewrite Hdb, app_nil_r.
Qed.

Lemma ledger_appended_trans w1 w2 w3 :
  ledger_appended w1 w2 -> ledger_appended w2 w3 -> ledger_appended w1 w3.
Proof.
  intros [a [Ha Hna]] [b [Hb Hnb]]. exists (a ++ b).
  split; [now rewrite Hb, Ha, app_assoc | now apply Forall_app].
Qed.

Lemma ledger_appended_initialize_db : respects ledger_appended initialize_db.
Proof.
  intros w. exists []. rewrite app_nil_r. split; [|constructor].
  unfold initialize_db, modify, ledger_rows. simpl.
  destruct (migrated_posts_db w) eqn:Hdb; simpl; now rewrite ?Hdb.
Qed.

Lemma ledger_appended_mark_post_as_migrated url :
  respects ledger_appended (mark_post_as_migrated url).
Proof.
  intros w. unfold mark_post_as_migrated, bind, get_world, modify.
  destruct (migrated_posts_db w) as [t|] eqn:Hdb; simpl;
    [|apply ledger_appended_refl].
  unfold ledger_appended, ledger_rows. simpl. rewrite Hdb.
  unfold insert_or_ignore. destruct (url_in url (rows t)); simpl.
  - exists []. now rewrite app_nil_r.
  - eexists. split; [reflexivity|]. repeat constructor.
Qed.

Lemma ledger_appended_in_ledger w w' u :
  ledger_appended w w' -> in_ledger u w = true -> in_ledger u w' = true.
Proof.
  intros [added [Hrows _]] Hin. unfold in_ledger in *.
  rewrite Hrows, url_in_app, Hin. reflexivity.
Qed.

(** X15.  Whatever an invocation does and however it ends, by returning or
    by an exception, after one run or after two: the ledger it leaves is the
    ledger it found with rows appended, each a url with NULLs; no row is
    removed, changed or moved, so a url found migrated stays so.  No url
    gets a second row, and the identifiers keep growing along the rows. *)
Theorem main_only_appends_to_the_ledger (w : World) :
  ledger_appended w (snd (main E w))
  /\ (forall u, in_ledger u w = true -> in_ledger u (snd (main E w)) = true)
  /\ (url_unique w -> url_unique (snd (main E w)))
  /\ (ids_ascending w -> ids_ascending (snd (main E w))).
Proof.
  assert (Happ : ledger_appended w (snd (main E w))).
  { apply (respects_main E ledger_appended (fun _ => True) (fun _ => True));
      auto.
    - apply ledger_appended_refl.
    - apply ledger_appended_trans.
    - intros; now apply ledger_appended_same.
    - intros; now apply ledger_appended_same.
    - intros; now apply ledger_appended_same.
    - intros; now apply ledger_appended_same.
    - apply ledger_appended_initialize_db.
    - intros post _. apply ledger_appended_mark_post_as_migrated. }
  split; [exact Happ|].
  split; [intros u; now apply ledger_appended_in_ledger|].
  split.
  - apply (respects_main E (fun w w' => url_unique w -> url_unique w')
             (fun _ => True) (fun _ => True)); auto.
    + intros w0. unfold initialize_db, modify, url_unique, ledger_rows. simpl.
      destruct (migrated_posts_db w0) eqn:Hdb; simpl; rewrite ?Hdb; auto.
    + intros post _ w0.
      unfold mark_post_as_migrated, bind, get_world, modify, url_unique,
        ledger_rows.
      destruct (migrated_posts_db w0) as [t|] eqn:Hdb; simpl; rewrite ?Hdb; auto.
      apply insert_or_ignore_unique.
  - apply (respects_main E (fun w w' => ids_ascending w -> ids_ascending w')
             (fun _ => True) (fun _ => True)); auto.
    + intros w0. unfold initialize_db, modify, ids_ascending. simpl.
      destruct (migrated_posts_db w0) eqn:Hdb; simpl; rewrite ?Hdb; auto.
      intros _. split; constructor.
    + intros post _ w0.
      unfold mark_post_as_migrated, bind, get_world, modify, ids_ascending.
      destruct (migrated_posts_db w0) as [t|] eqn:Hdb; simpl; rewrite ?Hdb; auto.
      intros [Hsorted Hbound].
      destruct (insert_or_ignore_ids (ref_url post) t Hsorted Hbound)
        as [Hs [Hb _]].
      now split.
Qed.

End LedgerInvariants.

(** ** The urls an invocation works on *)

Section Discovered.

Context {U : UnicodeData} {H : HtmlLibrary} (E : Env).

Variable w0 : World.

Lemma listed_step_same w w' :
  history w' = history w -> migrated_posts_db w' = migrated_posts_db w ->
  listed_step E w0 w w'.
Proof.
  intros Hh Hdb. split; [now apply extends_by_same_history|].
  intros u. unfold in_ledger, ledger_rows. rewrite Hdb. auto.
Qed.

Lemma listed_step_trans w1 w2 w3 :
  listed_step E w0 w1 w2 -> listed_step E w0 w2 w3 -> listed_step E w0 w1 w3.
Proof.
  intros [He1 Hl1] [He2 Hl2]. split; [now apply (extends_by_trans _ w1 w2 w3)|].
  intros u Hu. destruct (Hl2 u Hu) as [Hin|Hd]; auto.
Qed.

Lemma listed_step_event e w :
  about_listed E w0 e ->
  listed_step E w0 w (set_history (history w ++ [e]) w).
Proof.
  intros He. split; [now apply extends_by_event|]. intros u Hu. now left.
Qed.

Lemma stage_event_about_listed e : stage_event e -> about_listed E w0 e.
Proof. destruct e; simpl; intros He; try contradiction; exact I. Qed.

Lemma listed_step_initialize_db : respects (listed_step E w0) initialize_db.
Proof.
  intros w. split; [now apply extends_by_same_history; destruct w as [c [t|] td f h]|].
  intros u. unfold initialize_db, modify, in_ledger, ledger_rows. simpl.
  destruct (migrated_posts_db w) eqn:Hdb; simpl; rewrite ?Hdb; auto.
Qed.

Lemma listed_step_mark_post_as_migrated url :
  listed_in_run E w0 url ->
  respects (listed_step E w0) (mark_post_as_migrated url).
Proof.
  intros Hurl w. unfold mark_post_as_migrated, bind, get_world, modify.
  destruct (migrated_posts_db w) as [t|] eqn:Hdb; simpl;
    [|now apply listed_step_same].
  split; [now apply extends_by_same_history|].
  intros u. unfold in_ledger, ledger_rows. simpl. rewrite Hdb.
  rewrite url_in_insert_or_ignore, orb_true_iff.
  intros [Hin|Heq]; [now left|]. apply pystr_eqb_eq in Heq. subst u. now right.
Qed.

Lemma listed_step_run_migration :
  listed_step E w0 w0 (snd (run_migration E w0)).
Proof.
  apply (run_migration_step E (listed_step E w0) (about_listed E w0)
           (fun post => listed_in_run E w0 (ref_url post))).
  - intros w. now apply listed_step_same.
  - apply listed_step_trans.
  - intros c w. now apply listed_step_same.
  - intros d w. now apply listed_step_same.
  - intros f w. now apply listed_step_same.
  - intros e w. apply listed_step_event.
  - apply stage_event_about_listed.
  - exact I.
  - intros post e Hpost He. unfold about_listed. now rewrite He.
  - apply listed_step_initialize_db.
  - intros post Hpost. now apply listed_step_mark_post_as_migrated.
  - intros posts post Hposts Hin. exists posts.
    split; [assumption | now apply in_map].
Qed.

(** X16.  A run works on the urls that its own call of [scrape_homepage]
    returns, and on no other: every extraction, caching, transform,
    publication and record of its history is for such a url, and a url is
    in the ledger at its end only if it was there at its start or that
    call returned it.  An invocation is this run and, when the run ends by
    a failure of the driver, the upgrade and at most one more such run,
    started from the world the upgrade leaves. *)
Theorem main_works_on_discovered_urls :
  (exists t,
      history (snd (run_migration E w0)) = history w0 ++ t
      /\ Forall (about_listed E w0) t
      /\ (forall u,
             in_ledger u (snd (run_migration E w0)) = true ->
             in_ledger u w0 = true \/ listed_in_run E w0 u))
  /\ (snd (main E w0) = snd (run_migration E w0)
      \/ exists w2,
          fst (run_migration E w0) = Raised WebDriverException
          /\ history w2 = history (snd (run_migration E w0)) ++ [UpgradeRenderer]
          /\ migrated_posts_db w2 = migrated_posts_db (snd (run_migration E w0))
          /\ (snd (main E w0) = w2
              \/ snd (main E w0) = snd (run_migration E w2))).
Proof.
  split.
  - destruct listed_step_run_migration as [[t [Hh Ht]] Hledger].
    exists t. auto.
  - unfold main, try_except.
    destruct (run_migration E w0) as [[[]|e] w1]; [now left|].
    destruct e; try (now left).
    right. unfold bind. rewrite run_update_chromedriver_run.
    exists (set_clock (S (clock w1))
              (set_history (history w1 ++ [UpgradeRenderer]) w1)).
    split; [reflexivity|]. split; [reflexivity|].
    split; [reflexivity|].
    destruct (upgrade_at E (clock w1)); [now left | now right].
Qed.

End Discovered.

(** ** The life of [temp.db] *)

Section CacheLife.

Context {U : UnicodeData} {H : HtmlLibrary} (E : Env).

Lemma temp_db_prepared w : temp_db (prepared w) = None.
Proof.
  unfold prepared, remove_stale_temp_db, temp_db_exists, remove_temp_db,
    initialize_db, emit, modify, bind, get_world, ret.
  destruct w as [c db tdb fs h]. destruct tdb, db; reflexivity.
Qed.

Lemma clock_prepared w : clock (prepared w) = clock w.
Proof.
  unfold prepared, remove_stale_temp_db, temp_db_exists, remove_temp_db,
    initialize_db, emit, modify, bind, get_world, ret.
  destruct w as [c db tdb fs h]. destruct tdb, db; reflexivity.
Qed.

Lemma files_prepared w : files (prepared w) = files w.
Proof.
  unfold prepared, remove_stale_temp_db, temp_db_exists, remove_temp_db,
    initialize_db, emit, modify, bind, get_world, ret.
  destruct w as [c db tdb fs h]. destruct tdb, db; reflexivity.
Qed.

(** What [scrape_homepage] returns and leaves. *)
Lemma scrape_homepage_run w :
  scrape_homepage E w
  = (match homepage_at E (clock w) with
     | Rendered posts => Ok posts
     | DriverFailed => Raised WebDriverException
     | DriverFailedInTry => Ok []
     end,
     set_clock (S (clock w)) (set_history (history w ++ [Discover]) w)).
Proof.
  unfold scrape_homepage, bind, emit, modify, tick. simpl.
  destruct (homepage_at E (clock w)); reflexivity.
Qed.

Lemma remove_stale_temp_db_run w :
  remove_stale_temp_db w = (Ok tt, set_temp_db None w)
  \/ (temp_db w = None /\ remove_stale_temp_db w = (Ok tt, w)).
Proof.
  unfold remove_stale_temp_db, temp_db_exists, remove_temp_db, modify, bind,
    get_world, ret.
  destruct (temp_db w) eqn:Ht; [now left | now right].
Qed.

Lemma keeps_temp_db_same w w' : temp_db w' = temp_db w -> keeps_temp_db w w'.
Proof. unfold keeps_temp_db. congruence. Qed.

Lemma keeps_temp_db_trans w1 w2 w3 :
  keeps_temp_db w1 w2 -> keeps_temp_db w2 w3 -> keeps_temp_db w1 w3.
Proof. unfold keeps_temp_db. auto. Qed.

Lemma keeps_temp_db_run_migration_post post :
  respects keeps_temp_db (run_migration_post E post).
Proof.
  pose proof keeps_temp_db_trans as Ktrans.
  assert (Krefl : forall w, keeps_temp_db w w) by (intros w Hw; exact Hw).
  assert (Kclock : forall c w, keeps_temp_db w (set_clock c w))
    by (intros; now apply keeps_temp_db_same).
  assert (Kfiles : forall f w, keeps_temp_db w (set_files f w))
    by (intros; now apply keeps_temp_db_same).
  assert (Khistory : forall e w, True ->
             keeps_temp_db w (set_history (history w ++ [e]) w))
    by (intros; now apply keeps_temp_db_same).
  assert (Kemit : forall e, respects keeps_temp_db (emit e))
    by (intros e w; now apply keeps_temp_db_same).
  unfold run_migration_post.
  apply (respects_bind _ Ktrans).
  { intros w. unfold is_post_migrated, bind, get_world.
    destruct (migrated_posts_db w); apply Krefl. }
  intros [|]; [apply (respects_ret _ Krefl)|].
  apply (respects_bind _ Ktrans); [apply Kemit|intros _].
  apply (respects_bind _ Ktrans);
    [apply (respects_scrape_post_content E _ Krefl Ktrans Kclock)|].
  intros [full_post|]; [|apply (respects_ret _ Krefl)].
  apply (respects_bind _ Ktrans); [apply Kemit|intros _].
  apply (respects_bind _ Ktrans).
  { intros w. unfold save_post, try_except, temp_insert, bind, get_world, modify.
    destruct (temp_db w) as [rs|] eqn:Ht; simpl.
    - destruct (existsb _ rs); simpl; intros _; rewrite ?Ht; discriminate.
    - intros Hw. now rewrite Ht. }
  intros _.
  apply (respects_bind _ Ktrans); [apply Kemit|intros _].
  apply (respects_bind _ Ktrans);
    [apply (respects_format_post_content E _ (fun _ => True) Krefl Ktrans Kclock
              Kfiles Khistory); auto|intros formatted].
  apply (respects_bind _ Ktrans);
    [apply (respects_upload_post E _ (fun _ => True) Krefl Ktrans Kclock
              Khistory); auto|intros ok].
  apply (respects_bind _ Ktrans); [apply Kemit|intros _].
  destruct ok; [|apply (respects_ret _ Krefl)].
  apply (respects_bind _ Ktrans); [apply Kemit|intros _].
  intros w. unfold mark_post_as_migrated, bind, get_world, modify.
  destruct (migrated_posts_db w); simpl; now apply keeps_temp_db_same.
Qed.

Lemma run_migration_returns w w' :
  run_migration E w = (Ok tt, w') -> temp_db w' = None.
Proof.
  rewrite run_migration_prepared. unfold run_migration_rest.
  unfold bind at 1. rewrite scrape_homepage_run.
  destruct (homepage_at E (clock (prepared w))) as [[|post posts]| |];
    [|
     |discriminate
     |];
    try (intros [= <-]; apply temp_db_prepared).
  set (w1 := set_clock _ _). unfold bind.
  destruct (TempStorage w1) as [[[]|e] w2]; [|discriminate].
  destruct (for_each _ _ w2) as [[[]|e] w3]; [|discriminate].
  unfold close, ret.
  destruct (remove_stale_temp_db_run w3) as [->|[Hnone ->]];
    intros [= <-]; [reflexivity | assumption].
Qed.

Lemma run_migration_raises w e w' post posts :
  run_migration E w = (Raised e, w') ->
  homepage_at E (clock w) = Rendered (post :: posts) ->
  temp_db w' <> None.
Proof.
  rewrite run_migration_prepared. unfold run_migration_rest.
  unfold bind at 1. rewrite scrape_homepage_run, clock_prepared.
  intros Hrun Hhome. rewrite Hhome in Hrun.
  set (w1 := set_clock _ _) in Hrun. unfold bind in Hrun.
  destruct (TempStorage_returns w1) as [rs Hstore]. rewrite Hstore in Hrun.
  pose proof (respects_for_each _ (fun w Hw => Hw) keeps_temp_db_trans
                (post :: posts) (run_migration_post E)
                keeps_temp_db_run_migration_post
                (set_temp_db (Some rs) w1)) as Hloop.
  destruct (for_each _ _ (set_temp_db (Some rs) w1)) as [[[]|e'] w3].
  - unfold close, ret in Hrun.
    destruct (remove_stale_temp_db_run w3) as [Hr|[_ Hr]];
      rewrite Hr in Hrun; discriminate.
  - injection Hrun as _ <-. apply Hloop. discriminate.
Qed.

Lemma table_after_run_migration w :
  migrated_posts_db (snd (run_migration E w)) <> None.
Proof.
  rewrite run_migration_prepared.
  apply (respects_run_migration_rest E
           (fun w w' => migrated_posts_db w <> None -> migrated_posts_db w' <> None)
           (fun _ => True) (fun _ => True)); auto.
  - intros post _ w0. unfold mark_post_as_migrated, bind, get_world, modify.
    destruct (migrated_posts_db w0); simpl; [discriminate | auto].
  - apply migrated_posts_db_prepared.
Qed.

(** X17.  The stores at the end of an invocation.  One that returns leaves
    no [temp.db]: the run removes it at its start and, when it has created
    it, at its end.  A run that fails once the home page has listed a post
    leaves [temp.db] behind, for the next run to remove.  And the table of
    the ledger exists after any invocation, however it ends. *)
Theorem temp_db_lifecycle (w : World) :
  (fst (main E w) = Ok tt -> temp_db (snd (main E w)) = None)
  /\ (forall e w' post posts,
         run_migration E w = (Raised e, w') ->
         homepage_at E (clock w) = Rendered (post :: posts) ->
         temp_db w' <> None)
  /\ migrated_posts_db (snd (main E w)) <> None.
Proof.
  split; [|split].
  - unfold main, try_except.
    destruct (run_migration E w) as [[[]|e] w1] eqn:Hrun.
    + intros _. exact (run_migration_returns w w1 Hrun).
    + destruct e; try discriminate.
      unfold bind. rewrite run_update_chromedriver_run.
      destruct (upgrade_at E (clock w1)); [discriminate|].
      set (w2 := set_clock _ _).
      destruct (run_migration E w2) as [[[]|e] w3] eqn:Hagain; [|discriminate].
      intros _. exact (run_migration_returns w2 w3 Hagain).
  - intros e w' post posts. apply run_migration_raises.
  - pose proof (table_after_run_migration w) as Hfirst.
    unfold main, try_except.
    destruct (run_migration E w) as [[[]|e] w1]; [assumption|].
    destruct e; try assumption.
    unfold bind. rewrite run_update_chromedriver_run.
    destruct (upgrade_at E (clock w1)); [assumption|].
    apply table_after_run_migration.
Qed.

End CacheLife.

(** ** A post through the loop body *)

Section Scenarios.

Context {U : UnicodeData} {H : HtmlLibrary} (E : Env).

(** The run up to its loop, when the home page lists a post. *)
Lemma run_migration_until_loop w post after :
  homepage_at E (clock w) = Rendered (post :: after) ->
  exists w2,
    run_migration E w
    = (for_each (post :: after) (run_migration_post E) ;;
       close ;;
       remove_stale_temp_db) w2
    /\ history w2 = history w ++ [RunStarted; Discover]
    /\ clock w2 = S (clock w)
    /\ temp_db w2 <> None
    /\ migrated_posts_db w2 <> None
    /\ ledger_rows w2 = ledger_rows w
    /\ files w2 = files w.
Proof.
  intros Hhome.
  set (w1 := set_clock (S (clock w))
               (set_history (history (prepared w) ++ [Discover]) (prepared w))).
  destruct (TempStorage_returns w1) as [rs Hstore].
  exists (set_temp_db (Some rs) w1). split.
  - rewrite run_migration_prepared. unfold run_migration_rest.
    unfold bind at 1. rewrite scrape_homepage_run, clock_prepared, Hhome.
    fold w1. unfold bind at 1. now rewrite Hstore.
  - subst w1.
    cbn [history clock temp_db migrated_posts_db files set_clock set_history
           set_temp_db].
    split; [rewrite history_prepared; now rewrite <- app_assoc|].
    split; [reflexivity|]. split; [discriminate|].
    split; [apply migrated_posts_db_prepared|].
    split; [apply ledger_rows_prepared | apply files_prepared].
Qed.

(** The loop body up to the transform, for a post that is not in the
    ledger and whose page is read. *)
Lemma run_migration_post_until_transform post w title date content images :
  in_ledger (ref_url post) w = false ->
  migrated_posts_db w <> None ->
  temp_db w <> None ->
  post_page_at E (clock w) (ref_url post)
  = Rendered (Some (title, date, content, images)) ->
  exists w5,
    run_migration_post E post w
    = (formatted <-
         format_post_content E
           {| post_url := ref_url post; post_title := title;
              post_content_html := content; post_date := date;
              post_images := images |} ;;
       ok <- upload_post E formatted ;;
       record_if_published (ref_url post) ok) w5
    /\ history w5
       = history w ++ [Extract (ref_url post); Cache (ref_url post);
                       Transform (ref_url post)]
    /\ clock w5 = S (clock w)
    /\ temp_db w5 <> None
    /\ migrated_posts_db w5 = migrated_posts_db w
    /\ files w5 = files w.
Proof.
  intros Hled Hdb Htemp Hpage.
  assert (Hm : is_post_migrated (ref_url post) w = (Ok false, w)).
  { unfold is_post_migrated, bind, get_world.
    unfold in_ledger, ledger_rows in Hled.
    destruct (migrated_posts_db w); [|congruence]. unfold ret. now rewrite Hled. }
  unfold run_migration_post.
  rewrite (bind_ok (is_post_migrated (ref_url post)) _ w _ _ Hm).
  set (w1 := set_history (history w ++ [Extract (ref_url post)]) w).
  rewrite (bind_ok (emit _) _ w tt w1 eq_refl).
  rewrite (bind_ok (scrape_post_content E (ref_url post)) _ w1 _ _
             (scrape_post_content_rendered E _ w1 _ _ _ _ Hpage)).
  set (w2 := set_clock (S (clock w1)) w1).
  set (w3 := set_history (history w2 ++ [Cache (ref_url post)]) w2).
  rewrite (bind_ok (emit _) _ w2 tt w3 eq_refl).
  destruct (save_post_returns
              {| post_url := ref_url post; post_title := title;
                 post_content_html := content; post_date := date;
                 post_images := images |} w3 Htemp) as [dt Hsave].
  assert (Hdt : dt <> None).
  { intros ->. revert Hsave.
    unfold save_post, try_except, temp_insert, bind, get_world, modify.
    change (temp_db w3) with (temp_db w).
    destruct (temp_db w) as [rs|] eqn:Ht; [|congruence]. simpl.
    destruct (existsb _ rs); simpl; intros Hs;
      apply (f_equal (fun p => temp_db (snd p))) in Hs; simpl in Hs;
      congruence. }
  rewrite (bind_ok (save_post _) _ w3 _ _ Hsave).
  set (w4 := set_temp_db dt w3).
  set (w5 := set_history (history w4 ++ [Transform (ref_url post)]) w4).
  rewrite (bind_ok (emit _) _ w4 tt w5 eq_refl).
  exists w5. split; [reflexivity|].
  split; [simpl; now rewrite <- !app_assoc|].
  split; [reflexivity|]. split; [exact Hdt|]. split; reflexivity.
Qed.

(** The transform of a post whose first image cannot be had. *)
Lemma format_post_content_image_failed
    (post : FullPost) (d : datetime) (src : pystr) (links : list pystr) (w : World) :
  strptime (post_date post) = Ok d ->
  map (fun img => getitem (snd img) (str "src"))
      (find_all (str "img") (BeautifulSoup (post_content_html post)))
  = map Ok (src :: links) ->
  read_file (files w) (str "images") = None ->
  is_valid_url (clean_url src) = false
  \/ (forall jpeg,
         image_at E (S (S (S (clock w)))) (clean_url src) <> ImageSaved jpeg true) ->
  exists w',
    format_post_content E post w = (Raised TypeError, w')
    /\ history w'
       = history w
         ++ (if is_valid_url (clean_url src)
             then [HttpGetImage (clean_url src)] else [])
    /\ migrated_posts_db w' = migrated_posts_db w
    /\ temp_db w' = temp_db w.
Proof.
  intros Hd Hsrcs Hdir Hfail.
  rewrite (format_post_content_with_image E post d src links w Hd Hsrcs Hdir).
  unfold bind at 1. rewrite adjust_featured_media_run.
  cbn [clock set_files set_clock].
  destruct (is_valid_url (clean_url src)) eqn:Hv.
  2:{ eexists. split; [reflexivity|]. rewrite app_nil_r. repeat split. }
  destruct Hfail as [Hfail|Hfail]; [discriminate|]. cbv zeta.
  destruct (image_at E (S (S (S (clock w)))) (clean_url src)) as [| |jpeg ran].
  - eexists. split; [reflexivity|]. repeat split.
  - eexists. split; [reflexivity|]. repeat split.
  - destruct ran; [now destruct (Hfail jpeg)|].
    eexists. split; [reflexivity|]. repeat split.
Qed.

(** The transform of a post whose first image is saved. *)
Lemma format_post_content_image_saved
    (post : FullPost) (d : datetime) (src : pystr) (links : list pystr)
    (jpeg : list N) (w : World) :
  strptime (post_date post) = Ok d ->
  map (fun img => getitem (snd img) (str "src"))
      (find_all (str "img") (BeautifulSoup (post_content_html post)))
  = map Ok (src :: links) ->
  read_file (files w) (str "images") = None ->
  is_valid_url (clean_url src) = true ->
  image_at E (S (S (S (clock w)))) (clean_url src) = ImageSaved jpeg true ->
  exists w',
    format_post_content E post w
    = (match media_response_at E (S (S (S (S (clock w))))) with
       | Response status_code json_id =>
           Ok {| payload_date :=
                   strftime (replace_time d
                               (6 + random_at E (clock w) mod 18)
                               (0 + random_at E (S (clock w)) mod 60)
                               (0 + random_at E (S (S (clock w))) mod 60));
                 payload_title := post_title post;
                 payload_content :=
                   wrap_content
                     (soup_to_str
                        (map add_img_classes
                           (BeautifulSoup (post_content_html post))));
                 payload_featured_media :=
                   if Z.eqb status_code 201 then json_id else None |}
       | ConnectionFailed => Raised RequestException
       end, w')
    /\ history w'
       = history w
         ++ [HttpGetImage (clean_url src);
             HttpPostMedia
               (content_disposition
                  (safe_filename (basename (featured_media_path (post_title post)))))
               jpeg]
    /\ clock w' = S (S (S (S (S (clock w)))))
    /\ migrated_posts_db w' = migrated_posts_db w
    /\ temp_db w' = temp_db w.
Proof.
  intros Hd Hsrcs Hdir Hv Himg.
  rewrite (format_post_content_with_image E post d src links w Hd Hsrcs Hdir).
  unfold bind at 1. rewrite adjust_featured_media_run.
  cbn [clock set_files set_clock]. rewrite Hv. cbv zeta. rewrite Himg.
  unfold bind.
  match goal with
  | |- exists _, (let (_, _) := upload_featured_image E _ ?w5 in _) = _ /\ _ =>
      rewrite (upload_featured_image_file E w5 _ jpeg
                 (featured_media_path_not_empty _))
        by (cbn [files set_files]; apply read_file_written)
  end.
  cbn [clock set_files set_clock set_history history].
  eexists. split.
  - destruct (media_response_at E (S (S (S (S (clock w)))))) as [status json_id|];
      reflexivity.
  - cbn [history clock migrated_posts_db temp_db set_clock set_history set_files].
    split; [now rewrite <- app_assoc|]. repeat split.
Qed.

(** X18.  A post of the home page that is not in the ledger and whose page
    lacks an element the extraction looks for: [scrape_post_content] gives
    [None], the loop body returns after the extraction, nothing is cached,
    transformed, published or recorded, the url stays out of the ledger,
    and the loop goes on with the next post. *)
Theorem extraction_failure_skips_post (post : PostRef) (w : World) :
  in_ledger (ref_url post) w = false ->
  migrated_posts_db w <> None ->
  post_page_at E (clock w) (ref_url post) = Rendered None ->
  let w' := set_clock (S (clock w))
              (set_history (history w ++ [Extract (ref_url post)]) w) in
  run_migration_post E post w = (Ok tt, w')
  /\ in_ledger (ref_url post) w' = false
  /\ (forall after,
         for_each (post :: after) (run_migration_post E) w
         = for_each after (run_migration_post E) w').
Proof.
  intros Hled Hdb Hpage w'.
  assert (Hrun : run_migration_post E post w = (Ok tt, w')).
  { unfold run_migration_post, is_post_migrated, bind, get_world.
    unfold in_ledger, ledger_rows in Hled.
    destruct (migrated_posts_db w); [|congruence].
    unfold ret at 1. rewrite Hled.
    unfold scrape_post_content, emit, modify, bind, tick. simpl.
    now rewrite Hpage. }
  split; [exact Hrun|]. split; [exact Hled|].
  intros after. simpl. unfold bind. now rewrite Hrun.
Qed.

(** X19.  A post whose first image cannot be had aborts the invocation.
    When "images" is not a regular file (so that the directory can be
    reset), the first post the home page lists is not in the ledger, its
    date is read and its images have a [src], but the url of the first
    image is invalid, or its download, its decoding or the optimizer fails,
    the [TypeError] of [open(None)] leaves the transform, the loop, the run
    and the invocation: no post is published or recorded, the posts that
    follow are not looked at, nothing is retried, and [temp.db] stays. *)
Theorem failed_featured_image_aborts_run
    (post : PostRef) (after : list PostRef) (title date content : pystr)
    (images : list pystr) (d : datetime) (src : pystr) (links : list pystr)
    (w : World) :
  strptime date = Ok d ->
  map (fun img => getitem (snd img) (str "src"))
      (find_all (str "img") (BeautifulSoup content))
  = map Ok (src :: links) ->
  homepage_at E (clock w) = Rendered (post :: after) ->
  in_ledger (ref_url post) w = false ->
  post_page_at E (S (clock w)) (ref_url post)
  = Rendered (Some (title, date, content, images)) ->
  read_file (files w) (str "images") = None ->
  is_valid_url (clean_url src) = false
  \/ (forall jpeg,
         image_at E (S (S (S (S (S (clock w)))))) (clean_url src)
         <> ImageSaved jpeg true) ->
  exists w',
    main E w = (Raised TypeError, w')
    /\ history w'
       = history w
         ++ [RunStarted; Discover; Extract (ref_url post);
             Cache (ref_url post); Transform (ref_url post)]
         ++ (if is_valid_url (clean_url src)
             then [HttpGetImage (clean_url src)] else [])
    /\ ledger_rows w' = ledger_rows w
    /\ temp_db w' <> None.
Proof.
  intros Hd Hsrcs Hhome Hled Hpage Hdir Hfail.
  destruct (run_migration_until_loop w post after Hhome)
    as [w2 [Hrun [Hh2 [Hc2 [Ht2 [Hdb2 [Hrows2 Hf2]]]]]]].
  assert (Hled2 : in_ledger (ref_url post) w2 = false)
    by (unfold in_ledger; now rewrite Hrows2).
  rewrite <- Hc2 in Hpage.
  destruct (run_migration_post_until_transform post w2 _ _ _ _
              Hled2 Hdb2 Ht2 Hpage)
    as [w5 [Hbody [Hh5 [Hc5 [Ht5 [Hdb5 Hf5]]]]]].
  rewrite <- Hc2, <- Hc5 in Hfail.
  rewrite <- Hf2, <- Hf5 in Hdir.
  destruct (format_post_content_image_failed
              {| post_url := ref_url post; post_title := title;
                 post_content_html := content; post_date := date;
                 post_images := images |} d src links w5 Hd Hsrcs Hdir Hfail)
    as [w6 [Hformat [Hh6 [Hdb6 Ht6]]]].
  rewrite (bind_raised (format_post_content E _) _ w5 _ _ Hformat) in Hbody.
  exists w6. split.
  - unfold main, try_except. rewrite Hrun.
    rewrite (bind_raised (for_each _ _) _ w2 TypeError w6); [reflexivity|].
    simpl. now apply bind_raised.
  - split; [rewrite Hh6, Hh5, Hh2; now rewrite <- !app_assoc|].
    split; [unfold ledger_rows in *; now rewrite Hdb6, Hdb5|].
    now rewrite Ht6.
Qed.

(** X20.  A post with an image, from the ledger's point of view the whole
    way.  "images" is not a regular file, the post is not in the ledger,
    its page is read, its date too, its images have a [src], the first is
    saved, the media endpoint answers 201 with an id and the post endpoint
    answers 201.  Then the loop body
    returns; its history is the extraction, the caching, the transform, one
    download, one upload of the image, one request for the post, the
    positive answer and the record, in this order; the request for the
    post carries the id the media endpoint gave, the title of the page and
    the status "publish"; and the url is in the ledger. *)
Theorem published_with_featured_image
    (post : PostRef) (title date content : pystr) (images : list pystr)
    (d : datetime) (src : pystr) (links : list pystr) (jpeg : list N)
    (media_id : option Z) (post_id : option Z) (w : World) :
  strptime date = Ok d ->
  map (fun img => getitem (snd img) (str "src"))
      (find_all (str "img") (BeautifulSoup content))
  = map Ok (src :: links) ->
  in_ledger (ref_url post) w = false ->
  migrated_posts_db w <> None ->
  temp_db w <> None ->
  post_page_at E (clock w) (ref_url post)
  = Rendered (Some (title, date, content, images)) ->
  read_file (files w) (str "images") = None ->
  is_valid_url (clean_url src) = true ->
  image_at E (S (S (S (S (clock w))))) (clean_url src) = ImageSaved jpeg true ->
  media_response_at E (S (S (S (S (S (clock w)))))) = Response 201 media_id ->
  post_response_at E (S (S (S (S (S (S (clock w))))))) = Response 201 post_id ->
  exists w' request,
    run_migration_post E post w = (Ok tt, w')
    /\ history w'
       = history w
         ++ [Extract (ref_url post); Cache (ref_url post);
             Transform (ref_url post);
             HttpGetImage (clean_url src);
             HttpPostMedia
               (content_disposition
                  (safe_filename (basename (featured_media_path title))))
               jpeg;
             HttpPostPost request;
             Publish (ref_url post) true; Record_ (ref_url post)]
    /\ req_featured_media request = media_id
    /\ req_title request = title
    /\ req_status request = str "publish"
    /\ in_ledger (ref_url post) w' = true.
Proof.
  intros Hd Hsrcs Hled Hdb Htemp Hpage Hdir Hv Himg Hmedia Hpost.
  destruct (run_migration_post_until_transform post w _ _ _ _
              Hled Hdb Htemp Hpage)
    as [w5 [Hbody [Hh5 [Hc5 [Ht5 [Hdb5 Hf5]]]]]].
  rewrite <- Hc5 in Himg, Hmedia, Hpost.
  rewrite <- Hf5 in Hdir.
  destruct (format_post_content_image_saved
              {| post_url := ref_url post; post_title := title;
                 post_content_html := content; post_date := date;
                 post_images := images |} d src links jpeg w5 Hd Hsrcs Hdir Hv Himg)
    as [w7 [Hformat [Hh7 [Hc7 [Hdb7 Ht7]]]]].
  rewrite Hmedia in Hformat. cbn [Z.eqb Pos.eqb] in Hformat.
  rewrite (bind_ok (format_post_content E _) _ w5 _ _ Hformat) in Hbody.
  rewrite <- Hc7 in Hpost.
  destruct (migrated_posts_db w) as [t|] eqn:Ht; [|congruence].
  assert (Hdb7' : migrated_posts_db w7 = Some t) by congruence.
  unfold upload_post, record_if_published, mark_post_as_migrated, bind, emit,
    modify, tick, get_world in Hbody.
  cbn [fst snd clock history migrated_posts_db set_clock set_history ret
         payload_date payload_title payload_content payload_featured_media
         post_title] in Hbody.
  rewrite Hpost in Hbody.
  cbn [fst snd clock history migrated_posts_db set_clock set_history ret
         Z.eqb Pos.eqb] in Hbody.
  rewrite Hdb7' in Hbody.
  cbn [fst snd clock history migrated_posts_db set_clock set_history
         set_migrated_posts_db ret] in Hbody.
  eexists _, _. split; [exact Hbody|].
  cbn [history migrated_posts_db set_clock set_history set_migrated_posts_db
         req_featured_media req_title req_status].
  split; [rewrite Hh7, Hh5; now rewrite <- !app_assoc|].
  split; [reflexivity|]. split; [reflexivity|]. split; [reflexivity|].
  unfold in_ledger, ledger_rows. simpl.
  rewrite url_in_insert_or_ignore, pystr_eqb_refl. apply orb_true_r.
Qed.

Lemma for_each_all_migrated (posts : list PostRef) (w : World) :
  (forall post, In post posts -> in_ledger (ref_url post) w = true) ->
  for_each posts (run_migration_post E) w = (Ok tt, w).
Proof.
  induction posts as [|post posts IH]; intros Hall; [reflexivity|].
  simpl. unfold bind.
  rewrite (run_migration_post_skip E post w (Hall post (or_introl eq_refl))).
  apply IH. intros p Hp. apply Hall. now right.
Qed.

(** X21.  An invocation that finds nothing new.  When every post the home
    page lists is in the ledger, and so when it lists none, the invocation
    returns after the discovery: no page is read, nothing is cached,
    transformed or sent, the table of the ledger exists and its rows are
    those it had, no [temp.db] is left and the files are untouched.
    Running the migration again over a migrated site publishes nothing
    twice. *)
Theorem main_all_migrated (posts : list PostRef) (w : World) :
  homepage_at E (clock w) = Rendered posts ->
  (forall post, In post posts -> in_ledger (ref_url post) w = true) ->
  exists w',
    main E w = (Ok tt, w')
    /\ history w' = history w ++ [RunStarted; Discover]
    /\ clock w' = S (clock w)
    /\ migrated_posts_db w' <> None
    /\ ledger_rows w' = ledger_rows w
    /\ temp_db w' = None
    /\ files w' = files w.
Proof.
  intros Hhome Hall. destruct posts as [|post posts].
  - eexists. split.
    + unfold main, try_except. rewrite run_migration_prepared.
      unfold run_migration_rest, bind.
      rewrite scrape_homepage_run, clock_prepared, Hhome. reflexivity.
    + cbn [history clock temp_db migrated_posts_db files set_clock set_history].
      split; [rewrite history_prepared; now rewrite <- app_assoc|].
      split; [reflexivity|].
      split; [apply migrated_posts_db_prepared|].
      split; [apply ledger_rows_prepared|].
      split; [apply temp_db_prepared | apply files_prepared].
  - destruct (run_migration_until_loop w post posts Hhome)
      as [w2 [Hrun [Hh2 [Hc2 [Ht2 [Hdb2 [Hrows2 Hf2]]]]]]].
    assert (Hall2 : forall p, In p (post :: posts) ->
                      in_ledger (ref_url p) w2 = true).
    { intros p Hp. unfold in_ledger. rewrite Hrows2. now apply Hall. }
    exists (set_temp_db None w2). split.
    + unfold main, try_except. rewrite Hrun.
      rewrite (bind_ok (for_each _ _) _ w2 tt w2
                 (for_each_all_migrated _ w2 Hall2)).
      unfold close, bind, ret.
      destruct (remove_stale_temp_db_run w2) as [->|[Hnone _]];
        [reflexivity | contradiction].
    + cbn [history clock temp_db migrated_posts_db files set_temp_db].
      repeat split; assumption.
Qed.

End Scenarios.

(** ** A failure at any post of the run *)

Section AnyPost.

Context {U : UnicodeData} {H : HtmlLibrary} (E : Env).

Lemma for_each_app {A} (xs ys : list A) (body : A -> M unit) (w : World) :
  for_each (xs ++ ys) body w = (for_each xs body ;; for_each ys body) w.
Proof.
  revert w. induction xs as [|x xs IH]; intros w; [reflexivity|].
  cbn [app for_each]. unfold bind.
  destruct (body x w) as [[[]|e] w1]; [|reflexivity].
  rewrite IH. reflexivity.
Qed.

(** The run up to its loop, from the world in which the loop starts. *)
Lemma run_migration_loop_start w post posts :
  homepage_at E (clock w) = Rendered (post :: posts) ->
  run_migration E w
  = (for_each (post :: posts) (run_migration_post E) ;;
     close ;;
     remove_stale_temp_db) (loop_start E w)
  /\ temp_db (loop_start E w) <> None
  /\ migrated_posts_db (loop_start E w) <> None.
Proof.
  intros Hhome. unfold loop_start.
  rewrite scrape_homepage_run, clock_prepared, Hhome. cbn [snd].
  set (w1 := set_clock (S (clock w))
               (set_history (history (prepared w) ++ [Discover]) (prepared w))).
  destruct (TempStorage_returns w1) as [rs Hstore]. rewrite Hstore. cbn [snd].
  split; [|split].
  - rewrite run_migration_prepared. unfold run_migration_rest.
    unfold bind at 1. rewrite scrape_homepage_run, clock_prepared, Hhome.
    fold w1. unfold bind at 1. now rewrite Hstore.
  - discriminate.
  - apply migrated_posts_db_prepared.
Qed.

(** The loop keeps [temp.db] and the table of the ledger. *)
Lemma for_each_keeps_stores (posts : list PostRef) (w : World) :
  temp_db w <> None -> migrated_posts_db w <> None ->
  temp_db (snd (for_each posts (run_migration_post E) w)) <> None
  /\ migrated_posts_db (snd (for_each posts (run_migration_post E) w)) <> None.
Proof.
  intros Htemp Hdb. split.
  - apply (respects_for_each _ (fun w Hw => Hw) keeps_temp_db_trans
             posts (run_migration_post E)
             (keeps_temp_db_run_migration_post E) w Htemp).
  - apply (respects_for_each
             (fun w w' => migrated_posts_db w <> None -> migrated_posts_db w' <> None)
             (fun w Hw => Hw) (fun w1 w2 w3 H12 H23 Hw => H23 (H12 Hw))
             posts (run_migration_post E)); [|exact Hdb].
    intros post.
    apply (respects_run_migration_post E _ (fun _ => True) (fun _ => True));
      auto.
    intros p _ w0. unfold mark_post_as_migrated, bind, get_world, modify.
    destruct (migrated_posts_db w0); simpl; [discriminate | auto].
Qed.

(** The run whose loop reaches a post: the posts listed before it are
    gone through without an exception. *)
Lemma run_migration_reaches w before post after :
  homepage_at E (clock w) = Rendered (before ++ post :: after) ->
  fst (for_each before (run_migration_post E) (loop_start E w)) = Ok tt ->
  run_migration E w
  = (for_each (post :: after) (run_migration_post E) ;;
     close ;;
     remove_stale_temp_db)
      (snd (for_each before (run_migration_post E) (loop_start E w)))
  /\ temp_db (snd (for_each before (run_migration_post E) (loop_start E w)))
     <> None
  /\ migrated_posts_db
       (snd (for_each before (run_migration_post E) (loop_start E w)))
     <> None.
Proof.
  intros Hhome Hbefore.
  destruct (before ++ post :: after) as [|p ps] eqn:Hlist;
    [now destruct before|].
  destruct (run_migration_loop_start w p ps Hhome) as [Hrun [Htemp Hdb]].
  split; [|now apply for_each_keeps_stores].
  rewrite Hrun, <- Hlist. unfold bind at 1. rewrite for_each_app.
  unfold bind at 1.
  destruct (for_each before (run_migration_post E) (loop_start E w))
    as [[[]|e0] w3]; [reflexivity | discriminate].
Qed.

Lemma is_post_migrated_not_yet url w :
  in_ledger url w = false -> migrated_posts_db w <> None ->
  is_post_migrated url w = (Ok false, w).
Proof.
  intros Hled Hdb. unfold is_post_migrated, bind, get_world.
  unfold in_ledger, ledger_rows in Hled.
  destruct (migrated_posts_db w); [|congruence]. unfold ret. now rewrite Hled.
Qed.

(** The loop body for a post that is not in the ledger, when the driver
    fails as the page is loaded, and when it fails as the page is
    queried. *)
Lemma run_migration_post_driver_failed post w :
  in_ledger (ref_url post) w = false -> migrated_posts_db w <> None ->
  post_page_at E (clock w) (ref_url post) = DriverFailed ->
  run_migration_post E post w
  = (Raised WebDriverException,
     set_clock (S (clock w))
       (set_history (history w ++ [Extract (ref_url post)]) w)).
Proof.
  intros Hled Hdb Hpage. unfold run_migration_post.
  rewrite (bind_ok (is_post_migrated (ref_url post)) _ w _ _
             (is_post_migrated_not_yet _ w Hled Hdb)).
  unfold scrape_post_content, emit, modify, bind, tick. simpl.
  now rewrite Hpage.
Qed.

Lemma run_migration_post_driver_failed_in_try post w :
  in_ledger (ref_url post) w = false -> migrated_posts_db w <> None ->
  post_page_at E (clock w) (ref_url post) = DriverFailedInTry ->
  run_migration_post E post w
  = (Ok tt,
     set_clock (S (clock w))
       (set_history (history w ++ [Extract (ref_url post)]) w)).
Proof.
  intros Hled Hdb Hpage. unfold run_migration_post.
  rewrite (bind_ok (is_post_migrated (ref_url post)) _ w _ _
             (is_post_migrated_not_yet _ w Hled Hdb)).
  unfold scrape_post_content, emit, modify, bind, tick. simpl.
  now rewrite Hpage.
Qed.

(** C3, as the program has it (malformed date).  A date the parser rejects
    makes the transform raise [ValueError] with the message of
    [format_post_date].  Nothing catches it: the loop body raises it and
    the loop stops at this post whatever posts follow.  Wherever the post
    stands in the list of the home page, once the loop has gone through
    the posts before it and reaches it (it is not in the ledger and its
    page is read), the run and the invocation end with this exception,
    after the extraction, the caching and the start of the transform of
    this post: no post after it is looked at, nothing is retried, and the
    ledger gets no record. *)
Theorem malformed_date_aborts_run
    (post : PostRef) (after : list PostRef) (title date content : pystr)
    (imgs : list pystr) (e : exn) :
  strptime date = Raised e ->
  (forall w, format_post_date E date w = (Raised date_format_error, w))
  /\ (forall w,
         is_post_migrated (ref_url post) w = (Ok false, w) ->
         temp_db w <> None ->
         post_page_at E (clock w) (ref_url post)
         = Rendered (Some (title, date, content, imgs)) ->
         exists w',
           run_migration_post E post w = (Raised date_format_error, w')
           /\ for_each (post :: after) (run_migration_post E) w
              = (Raised date_format_error, w')
           /\ history w'
              = history w ++ [Extract (ref_url post); Cache (ref_url post);
                              Transform (ref_url post)]
           /\ migrated_posts_db w' = migrated_posts_db w)
  /\ (forall w,
         homepage_at E (clock w) = Rendered (post :: after) ->
         in_ledger (ref_url post) w = false ->
         post_page_at E (S (clock w)) (ref_url post)
         = Rendered (Some (title, date, content, imgs)) ->
         exists w',
           run_migration E w = (Raised date_format_error, w')
           /\ main E w = (Raised date_format_error, w')
           /\ history w'
              = history w ++ [RunStarted; Discover; Extract (ref_url post);
                              Cache (ref_url post); Transform (ref_url post)]
           /\ ledger_rows w' = ledger_rows w)
  /\ (forall before w,
         homepage_at E (clock w) = Rendered (before ++ post :: after) ->
         fst (for_each before (run_migration_post E) (loop_start E w)) = Ok tt ->
         let reached :=
           snd (for_each before (run_migration_post E) (loop_start E w)) in
         in_ledger (ref_url post) reached = false ->
         post_page_at E (clock reached) (ref_url post)
         = Rendered (Some (title, date, content, imgs)) ->
         exists w',
           run_migration E w = (Raised date_format_error, w')
           /\ main E w = (Raised date_format_error, w')
           /\ history w'
              = history reached
                ++ [Extract (ref_url post); Cache (ref_url post);
                    Transform (ref_url post)]
           /\ ledger_rows w' = ledger_rows reached
           /\ in_ledger (ref_url post) w' = false).
Proof.
  intros Hd.
  destruct (malformed_date_first_post E post after title date content imgs e Hd)
    as [Hdate [Hbody Hfirst]].
  split; [exact Hdate|]. split; [exact Hbody|]. split; [exact Hfirst|].
  intros before w Hhome Hbefore reached Hled Hpage.
  destruct (run_migration_reaches w before post after Hhome Hbefore)
    as [Hrun [Htemp Hdb]].
  fold reached in Hrun, Htemp, Hdb.
  destruct (Hbody reached (is_post_migrated_not_yet _ reached Hled Hdb)
              Htemp Hpage) as [w' [_ [Hloop [Hh Hsame]]]].
  assert (Hraised : run_migration E w = (Raised date_format_error, w')).
  { rewrite Hrun. now apply bind_raised. }
  exists w'. split; [exact Hraised|].
  split; [unfold main, try_except; now rewrite Hraised|].
  split; [exact Hh|].
  unfold in_ledger, ledger_rows in *. rewrite Hsame. now split.
Qed.

(** C5, as the program has it (one-shot recovery).  A failure of the
    browser driver reaches the orchestrator when it happens as a scraper
    starts the driver or loads its page: at the discovery, and at the
    extraction of any post the loop reaches, the run is aborted by a
    [WebDriverException].  When a run is so aborted, the upgrade of the
    driver is triggered once; when the upgrade returns, the whole run is
    started again from the world the first left, once: the invocation ends
    as this second run ends, two runs have been started in all, and a
    failure of the driver in the second run leaves the invocation as the
    exception it is.  No invocation starts more than two runs.  A failure
    of the driver while a page is queried, inside the [try] block of the
    scraper, does not reach the orchestrator: at the discovery the
    invocation returns as if the site had no post, at an extraction the
    post is skipped; nothing is upgraded and nothing is started again. *)
Theorem one_shot_recovery :
  (forall w,
      homepage_at E (clock w) = DriverFailed ->
      exists w1,
        run_migration E w = (Raised WebDriverException, w1)
        /\ history w1 = history w ++ [RunStarted; Discover]
        /\ ledger_rows w1 = ledger_rows w)
  /\ (forall before post after w,
         homepage_at E (clock w) = Rendered (before ++ post :: after) ->
         fst (for_each before (run_migration_post E) (loop_start E w)) = Ok tt ->
         let reached :=
           snd (for_each before (run_migration_post E) (loop_start E w)) in
         in_ledger (ref_url post) reached = false ->
         post_page_at E (clock reached) (ref_url post) = DriverFailed ->
         exists w1,
           run_migration E w = (Raised WebDriverException, w1)
           /\ history w1 = history reached ++ [Extract (ref_url post)]
           /\ ledger_rows w1 = ledger_rows reached)
  /\ (forall w w1 : World,
         run_migration E w = (Raised WebDriverException, w1) ->
         exists upgraded w2,
           run_update_chromedriver E w1 = (upgraded, w2)
           /\ history w2 = history w1 ++ [UpgradeRenderer]
           /\ match upgraded with
              | Ok _ =>
                  main E w = run_migration E w2
                  /\ runs_started (history (snd (main E w)))
                     = (runs_started (history w) + 2)%nat
                  /\ (forall w3,
                         run_migration E w2 = (Raised WebDriverException, w3) ->
                         main E w = (Raised WebDriverException, w3))
              | Raised e => main E w = (Raised e, w2)
              end)
  /\ (forall w : World,
         (runs_started (history (snd (main E w)))
          <= runs_started (history w) + 2)%nat)
  /\ (forall w,
         homepage_at E (clock w) = DriverFailedInTry ->
         exists w',
           main E w = (Ok tt, w')
           /\ history w' = history w ++ [RunStarted; Discover])
  /\ (forall post after w,
         in_ledger (ref_url post) w = false ->
         migrated_posts_db w <> None ->
         post_page_at E (clock w) (ref_url post) = DriverFailedInTry ->
         let skipped :=
           set_clock (S (clock w))
             (set_history (history w ++ [Extract (ref_url post)]) w) in
         run_migration_post E post w = (Ok tt, skipped)
         /\ for_each (post :: after) (run_migration_post E) w
            = for_each after (run_migration_post E) skipped).
Proof.
  split; [|split; [|split; [exact (proj1 (recovery_after_abort E))
                           |split; [exact (proj2 (recovery_after_abort E))
                                   |split]]]].
  - intros w Hhome. eexists. split.
    + rewrite run_migration_prepared. unfold run_migration_rest.
      unfold bind. rewrite scrape_homepage_run, clock_prepared, Hhome.
      reflexivity.
    + cbn [history migrated_posts_db set_clock set_history].
      split; [rewrite history_prepared; now rewrite <- app_assoc|].
      apply ledger_rows_prepared.
  - intros before post after w Hhome Hbefore reached Hled Hpage.
    destruct (run_migration_reaches w before post after Hhome Hbefore)
      as [Hrun [Htemp Hdb]].
    fold reached in Hrun, Htemp, Hdb.
    eexists. split.
    + rewrite Hrun. apply bind_raised. simpl. apply bind_raised.
      now apply run_migration_post_driver_failed.
    + split; reflexivity.
  - intros w Hhome. eexists. split.
    + unfold main, try_except. rewrite run_migration_prepared.
      unfold run_migration_rest, bind.
      rewrite scrape_homepage_run, clock_prepared, Hhome. reflexivity.
    + cbn [history set_clock set_history].
      rewrite history_prepared. now rewrite <- app_assoc.
  - intros post after w Hled Hdb Hpage skipped.
    pose proof (run_migration_post_driver_failed_in_try post w Hled Hdb Hpage)
      as Hskip.
    split; [exact Hskip|]. simpl. unfold bind. now rewrite Hskip.
Qed.

End AnyPost.

(** ** Examples for the further properties *)

Lemma sample_decimal_values_are_digits :
  decimal_values_are_digits (U := sample_unicode).
Proof.
  intros c v. simpl. unfold sample_decimal_value.
  destruct (N.leb 48 c && N.leb c 57) eqn:Hascii.
  - apply andb_true_iff in Hascii as [Hlo Hhi].
    apply N.leb_le in Hlo, Hhi. intros [= <-]. lia.
  - destruct (N.leb 1632 c && N.leb c 1641) eqn:Harabic; [|discriminate].
    apply andb_true_iff in Harabic as [Hlo Hhi].
    apply N.leb_le in Hlo, Hhi. intros [= <-]. lia.
Qed.

Lemma ids_ascending_migrated_world : ids_ascending migrated_world.
Proof.
  split.
  - repeat constructor.
  - constructor; [|constructor]. unfold sequence_value. simpl. lia.
Qed.

Lemma ledger_identifiers_ascend_witness :
  ids_ascending migrated_world
  /\ ids_ascending (snd (mark_post_as_migrated (ref_url second_post) migrated_world))
  /\ NoDup (map row_id
              (ledger_rows
                 (snd (mark_post_as_migrated (ref_url second_post) migrated_world)))).
Proof.
  split; [exact ids_ascending_migrated_world|].
  pose proof (ledger_identifiers_ascend migrated_world (ref_url second_post)
                ids_ascending_migrated_world) as [Hmark [_ [_ [Hnodup _]]]].
  split; assumption.
Defined.

Lemma save_post_contained_witness :
  temp_db migrated_world <> None
  /\ fst (save_post second_full_post migrated_world) = Ok tt
  /\ cached (post_url second_full_post)
            (snd (save_post second_full_post migrated_world)) = true.
Proof.
  assert (Hopen : temp_db migrated_world <> None) by discriminate.
  split; [exact Hopen|].
  pose proof (save_post_contained second_full_post migrated_world Hopen)
    as [Hreturns [Hcached _]].
  split; assumption.
Defined.

Lemma safe_filename_idempotent_witness :
  NFKD_fixes_ascii (U := sample_unicode)
  /\ safe_filename (U := sample_unicode)
       (safe_filename (U := sample_unicode) [99%N; 97%N; 102%N; 233%N])
     = safe_filename (U := sample_unicode) [99%N; 97%N; 102%N; 233%N].
Proof.
  split; [exact sample_NFKD_fixes_ascii|].
  exact (proj1 (safe_filename_idempotent (U := sample_unicode)
                  sample_NFKD_fixes_ascii [99%N; 97%N; 102%N; 233%N])).
Defined.

Lemma format_post_date_cases_witness :
  decimal_values_are_digits (U := sample_unicode)
  /\ (format_post_date (U := sample_unicode) sample_env (str "March 27, 2025")
        initial_world
      = (Raised date_format_error, initial_world)
      \/ exists d h m s out,
          strptime (U := sample_unicode) (str "March 27, 2025") = Ok d
          /\ calendar_date d
          /\ (6 <= h <= 23 /\ 0 <= m <= 59 /\ 0 <= s <= 59)%Z
          /\ format_post_date (U := sample_unicode) sample_env
               (str "March 27, 2025") initial_world
             = (Ok out,
                set_clock (S (S (S (clock initial_world)))) initial_world)
          /\ ((1000 <= year d)%Z ->
              out = strftime (replace_time d h m s)
              /\ List.length out = 19%nat)).
Proof.
  split; [exact sample_decimal_values_are_digits|].
  exact (format_post_date_cases (U := sample_unicode) sample_env
           (str "March 27, 2025") initial_world
           sample_decimal_values_are_digits).
Defined.

(** The date of the sample, at the time the sample draws. *)
Example format_post_date_initial_world :
  fst (format_post_date (U := sample_unicode) sample_env (str "March 27, 2025")
         initial_world)
  = Ok (str "2025-03-27T06:01:02").
Proof. reflexivity. Qed.

Lemma format_post_content_featured_image_witness :
  strptime (U := sample_unicode) (post_date second_full_post)
  = Ok {| year := 2025; month := 3; day := 27;
          hour := 0; minute := 0; second := 0 |}
  /\ read_file (files initial_world) (str "images") = None
  /\ fst (format_post_content (U := sample_unicode) (H := image_html)
            sample_env second_full_post initial_world)
     = Raised TypeError
  /\ history (snd (format_post_content (U := sample_unicode) (H := image_html)
                     sample_env second_full_post initial_world))
     = [HttpGetImage (str "https://blog/a.png")].
Proof.
  split; [reflexivity|]. split; [reflexivity|].
  refine ((proj1 (proj2 (proj1 (proj2 (format_post_content_featured_image
                                        (U := sample_unicode) (H := image_html)
                                        sample_env second_full_post _
                                        (str "https://blog/a.png") []
                                        initial_world eq_refl eq_refl))
                                eq_refl))) eq_refl _).
  intros jpeg. discriminate.
Defined.

Lemma extraction_failure_skips_post_witness :
  in_ledger (ref_url second_post) migrated_world = false
  /\ run_migration_post (U := sample_unicode) (H := sample_html)
       unreadable_pages_env second_post migrated_world
     = (Ok tt,
        set_clock 1
          (set_history [Extract (ref_url second_post)] migrated_world)).
Proof.
  split; [reflexivity|].
  refine (proj1 (extraction_failure_skips_post (U := sample_unicode)
                   (H := sample_html) unreadable_pages_env second_post
                   migrated_world eq_refl _ eq_refl)).
  discriminate.
Defined.

Lemma failed_featured_image_aborts_run_witness :
  in_ledger (ref_url second_post) initial_world = false
  /\ read_file (files initial_world) (str "images") = None
  /\ exists w',
      main (U := sample_unicode) (H := image_html) second_only_env initial_world
      = (Raised TypeError, w')
      /\ history w'
         = history initial_world
           ++ [RunStarted; Discover; Extract (ref_url second_post);
               Cache (ref_url second_post); Transform (ref_url second_post)]
           ++ (if is_valid_url (clean_url (str "https://blog/a.png"))
               then [HttpGetImage (clean_url (str "https://blog/a.png"))]
               else [])
      /\ ledger_rows w' = ledger_rows initial_world
      /\ temp_db w' <> None.
Proof.
  split; [reflexivity|]. split; [reflexivity|].
  refine (failed_featured_image_aborts_run (U := sample_unicode)
            (H := image_html) second_only_env second_post []
            (str "Second") (str "March 27, 2025") (str "<p>Hello</p>") []
            _ (str "https://blog/a.png") [] initial_world
            eq_refl eq_refl eq_refl eq_refl eq_refl eq_refl _).
  right. intros jpeg. discriminate.
Defined.

Lemma published_with_featured_image_witness :
  in_ledger (ref_url second_post) migrated_world = false
  /\ read_file (files migrated_world) (str "images") = None
  /\ exists w' request,
      run_migration_post (U := sample_unicode) (H := image_html)
        image_env second_post migrated_world
      = (Ok tt, w')
      /\ history w'
         = history migrated_world
           ++ [Extract (ref_url second_post); Cache (ref_url second_post);
               Transform (ref_url second_post);
               HttpGetImage (clean_url (str "https://blog/a.png"));
               HttpPostMedia
                 (content_disposition
                    (safe_filename (U := sample_unicode)
                       (basename (featured_media_path (str "Second")))))
                 [255%N; 216%N; 255%N];
               HttpPostPost request;
               Publish (ref_url second_post) true; Record_ (ref_url second_post)]
      /\ req_featured_media request = Some 7%Z
      /\ req_title request = str "Second"
      /\ req_status request = str "publish"
      /\ in_ledger (ref_url second_post) w' = true.
Proof.
  split; [reflexivity|]. split; [reflexivity|].
  refine (published_with_featured_image (U := sample_unicode)
            (H := image_html) image_env second_post
            (str "Second") (str "March 27, 2025") (str "<p>Hello</p>") []
            _ (str "https://blog/a.png") [] [255%N; 216%N; 255%N]
            (Some 7%Z) (Some 8%Z) migrated_world
            eq_refl eq_refl eq_refl _ _ eq_refl eq_refl eq_refl eq_refl eq_refl
            eq_refl);
    discriminate.
Defined.

Lemma main_all_migrated_witness :
  homepage_at first_only_env (clock migrated_world) = Rendered [first_post]
  /\ exists w',
      main (U := sample_unicode) (H := sample_html) first_only_env migrated_world
      = (Ok tt, w')
      /\ history w' = history migrated_world ++ [RunStarted; Discover]
      /\ clock w' = S (clock migrated_world)
      /\ migrated_posts_db w' <> None
      /\ ledger_rows w' = ledger_rows migrated_world
      /\ temp_db w' = None
      /\ files w' = files migrated_world.
Proof.
  split; [reflexivity|].
  refine (main_all_migrated (U := sample_unicode) (H := sample_html)
            first_only_env [first_post] migrated_world eq_refl _).
  intros post [<-|[]]. reflexivity.
Defined.

(** [str.replace] and [os.path.join] on samples. *)
Example py_replace_samples :
  py_replace (str "a-b-c") (str "-") (str "++") = str "a++b++c"
  /\ py_replace (str "aaa") (str "aa") (str "b") = str "ba"
  /\ py_replace (str "abc") [] (str "x") = str "xaxbxcx"
  /\ os_path_join (str "images") (str "a.png") = str "images/a.png"
  /\ os_path_join (str "images") [] = str "images/"
  /\ os_path_join (str "images") (str "/x") = str "/x".
Proof. repeat split. Qed.

(** Two content images: the first, protocol-relative, is saved under its
    base name; the second, not an http url, is skipped. *)
Example adjust_content_images_sample :
  fst (adjust_content_images (L := sample_urls) image_env
         [str "//blog/img/a.png"; str "ftp://blog/b.png"] initial_world)
  = Ok [str "images/a.png"].
Proof. reflexivity. Qed.

(** The links of a content, once the images are uploaded. *)
Example update_image_links_in_content_sample :
  update_image_links_in_content
    {| year := 2025; month := 3; day := 27; hour := 0; minute := 0; second := 0 |}
    (str "<img src=a.png>") [(str "a.png", str "b.png")]
  = str "<img src=https://your-wordpress-site.com/wp-content/uploads/2025/03/b.png>".
Proof. reflexivity. Qed.

(** ** Examples for the failures at any post *)

Lemma malformed_date_aborts_run_witness :
  strptime (U := sample_unicode) (str "13/45/2025")
  = Raised (ValueError (str "time data does not match format"))
  /\ (exists w',
         run_migration (U := sample_unicode) (H := sample_html)
           sample_env initial_world
         = (Raised date_format_error, w')
         /\ main (U := sample_unicode) (H := sample_html) sample_env initial_world
            = (Raised date_format_error, w')
         /\ history w'
            = history initial_world
              ++ [RunStarted; Discover; Extract (ref_url first_post);
                  Cache (ref_url first_post); Transform (ref_url first_post)]
         /\ ledger_rows w' = ledger_rows initial_world)
  /\ (let reached :=
        snd (for_each [second_post]
               (run_migration_post (U := sample_unicode) (H := sample_html)
                  reversed_env)
               (loop_start reversed_env initial_world)) in
      exists w',
        run_migration (U := sample_unicode) (H := sample_html)
          reversed_env initial_world
        = (Raised date_format_error, w')
        /\ main (U := sample_unicode) (H := sample_html) reversed_env initial_world
           = (Raised date_format_error, w')
        /\ history w'
           = history reached
             ++ [Extract (ref_url first_post); Cache (ref_url first_post);
                 Transform (ref_url first_post)]
        /\ ledger_rows w' = ledger_rows reached
        /\ in_ledger (ref_url first_post) w' = false).
Proof.
  split; [reflexivity|]. split.
  - exact (proj1 (proj2 (proj2 (malformed_date_aborts_run (U := sample_unicode)
                                  (H := sample_html) sample_env
                                  first_post [second_post] (str "First")
                                  (str "13/45/2025") (str "<p>Hello</p>") []
                                  _ eq_refl)))
             initial_world eq_refl eq_refl eq_refl).
  - exact (proj2 (proj2 (proj2 (malformed_date_aborts_run (U := sample_unicode)
                                  (H := sample_html) reversed_env
                                  first_post [] (str "First")
                                  (str "13/45/2025") (str "<p>Hello</p>") []
                                  _ eq_refl)))
             [second_post] initial_world eq_refl eq_refl eq_refl eq_refl).
Defined.

(** On the sample site listed in the other order, the second post is
    published and recorded, and the invocation ends at the first with the
    [ValueError] of the transform. *)
Example main_reversed :
  fst (main (U := sample_unicode) (H := sample_html) reversed_env initial_world)
  = Raised date_format_error
  /\ in_ledger (ref_url second_post)
       (snd (main (U := sample_unicode) (H := sample_html)
               reversed_env initial_world))
     = true
  /\ in_ledger (ref_url first_post)
       (snd (main (U := sample_unicode) (H := sample_html)
               reversed_env initial_world))
     = false.
Proof. repeat split. Qed.

Lemma one_shot_recovery_witness :
  homepage_at broken_driver_env (clock initial_world) = DriverFailed
  /\ (exists w1,
         run_migration (U := sample_unicode) (H := sample_html)
           broken_driver_env initial_world
         = (Raised WebDriverException, w1)
         /\ history w1 = history initial_world ++ [RunStarted; Discover]
         /\ ledger_rows w1 = ledger_rows initial_world)
  /\ run_migration (U := sample_unicode) (H := sample_html)
       broken_driver_env initial_world
     = (Raised WebDriverException, after_failed_run)
  /\ exists upgraded w2,
      run_update_chromedriver broken_driver_env after_failed_run = (upgraded, w2)
      /\ history w2 = history after_failed_run ++ [UpgradeRenderer]
      /\ match upgraded with
         | Ok _ =>
             main (U := sample_unicode) (H := sample_html)
               broken_driver_env initial_world
             = run_migration (U := sample_unicode) (H := sample_html)
                 broken_driver_env w2
             /\ runs_started
                  (history (snd (main (U := sample_unicode) (H := sample_html)
                                   broken_driver_env initial_world)))
                = (runs_started (history initial_world) + 2)%nat
             /\ (forall w3,
                    run_migration (U := sample_unicode) (H := sample_html)
                      broken_driver_env w2
                    = (Raised WebDriverException, w3) ->
                    main (U := sample_unicode) (H := sample_html)
                      broken_driver_env initial_world
                    = (Raised WebDriverException, w3))
         | Raised e =>
             main (U := sample_unicode) (H := sample_html)
               broken_driver_env initial_world
             = (Raised e, w2)
         end.
Proof.
  split; [reflexivity|]. split.
  - exact (proj1 (one_shot_recovery (U := sample_unicode) (H := sample_html)
                    broken_driver_env)
             initial_world eq_refl).
  - split; [reflexivity|].
    exact (proj1 (proj2 (proj2 (one_shot_recovery (U := sample_unicode)
                                  (H := sample_html) broken_driver_env)))
             initial_world after_failed_run eq_refl).
Defined.

(** C5, as it is stated, fails for a driver that fails while a page is
    queried.  At the discovery the invocation returns after one run, as if
    the site had no post; at the extraction of a post the post is skipped
    and the invocation returns.  In neither case is the driver upgraded or
    the run started again. *)
Lemma swallowed_driver_failure_not_recovered :
  homepage_at failing_home_query_env (clock initial_world) = DriverFailedInTry
  /\ fst (main (U := sample_unicode) (H := sample_html)
            failing_home_query_env initial_world)
     = Ok tt
  /\ history (snd (main (U := sample_unicode) (H := sample_html)
                     failing_home_query_env initial_world))
     = [RunStarted; Discover]
  /\ post_page_at failing_post_query_env 1 (ref_url second_post)
     = DriverFailedInTry
  /\ fst (main (U := sample_unicode) (H := sample_html)
            failing_post_query_env initial_world)
     = Ok tt
  /\ history (snd (main (U := sample_unicode) (H := sample_html)
                     failing_post_query_env initial_world))
     = [RunStarted; Discover; Extract (ref_url second_post)].
Proof. repeat split. Qed.
